(** * brave-core-crx-packager: the version ledger, publisher and patch
      generator of [src/lib/util.js]

    A shallow embedding of the functions of [lib/util.js] that decide the
    next version of a component, derive its identity, generate binary
    patches and publish them, with the properties the specification states
    about them.

    Conventions of the embedding.
    - A JavaScript string is a [string]: a sequence of code units below 256.
    - [undefined] is [None] of an [option].
    - A JavaScript Number is embedded where it is an integer of magnitude at
      most 2^53 (every such integer is a double and is printed by its
      decimal digits), NaN or an infinity.  Arithmetic that leaves this
      range, and numeric literals with a fraction, an exponent or a radix
      prefix, are reported as [Unmodelled]: the embedding says nothing
      about them.
    - Node's [crypto], [path], [fs], [child_process], the S3 and DynamoDB
      clients and [fetch] are the environment.  SHA-256 is defined here;
      the others are oracles over an abstract world, and every call and its
      outcome is recorded in a trace. *)

From Stdlib Require Import ZArith String Ascii List Lia Bool.
From Stdlib Require Import Decimal DecimalString DecimalZ DecimalFacts.
From stdpp Require Import gmap strings list.

Local Open Scope string_scope.
Local Open Scope Z_scope.

(* ================================================================== *)
(** * Results of the embedded fragment *)

(** [Val a]: the code returns [a].  [Unmodelled]: the code returns a value
    that lies outside the embedded fragment of Number. *)
Inductive res (A : Type) : Type :=
| Val (a : A)
| Unmodelled.
Arguments Val {A} a.
Arguments Unmodelled {A}.

Definition res_bind {A B : Type} (r : res A) (k : A -> res B) : res B :=
  match r with
  | Val a => k a
  | Unmodelled => Unmodelled
  end.

Notation "'let*' x ':=' r 'in' k" := (res_bind r (fun x => k))
  (at level 10, x name, r at level 100, k at level 200).

(* ================================================================== *)
(** * Strings *)

Module JSString.

(** [s.split(sep)] for a one-character separator. The result is never
    empty: [''.split('.')] is [['']]. *)
Fixpoint split (sep : ascii) (s : string) : list string :=
  match s with
  | EmptyString => [EmptyString]
  | String c s' =>
      if Ascii.eqb c sep then EmptyString :: split sep s'
      else match split sep s' with
           | seg :: rest => String c seg :: rest
           | [] => [String c EmptyString]
           end
  end.

(** Joining strings with a separator ([Array.prototype.join] once every
    element has been converted to a string). *)
Fixpoint join (sep : string) (l : list string) : string :=
  match l with
  | [] => EmptyString
  | [s] => s
  | s :: rest => s ++ sep ++ join sep rest
  end.

(** [s.replace(/[class]/g, f)]: every character of the class is replaced
    by [f c], the others are kept. *)
Fixpoint replace_chars (cls : ascii -> bool) (f : ascii -> string) (s : string)
  : string :=
  match s with
  | EmptyString => EmptyString
  | String c s' =>
      (if cls c then f c else String c EmptyString) ++ replace_chars cls f s'
  end.

(** [s.substring(0, n)] *)
Fixpoint substring0 (n : nat) (s : string) : string :=
  match n, s with
  | S n', String c s' => String c (substring0 n' s')
  | _, _ => EmptyString
  end.

(** [s.indexOf(c)] for a one-character [c]: -1 when absent. *)
Fixpoint indexOf (c : ascii) (s : string) : Z :=
  match s with
  | EmptyString => -1
  | String d s' =>
      if Ascii.eqb d c then 0
      else let i := indexOf c s' in if i <? 0 then -1 else i + 1
  end.

(** [s.charAt(i)]: the empty string when [i] is out of range. *)
Definition charAt (s : string) (i : Z) : string :=
  if i <? 0 then EmptyString
  else match String.get (Z.to_nat i) s with
       | Some c => String c EmptyString
       | None => EmptyString
       end.

(** White space and line terminators (the class [\s], and what
    StringToNumber trims), among the code units below 256. *)
Definition is_space (c : ascii) : bool :=
  let n := nat_of_ascii c in
  ((9 <=? n) && (n <=? 13) || (n =? 32) || (n =? 160))%nat.

Fixpoint trim_start (s : string) : string :=
  match s with
  | String c s' => if is_space c then trim_start s' else s
  | EmptyString => EmptyString
  end.

(** Trailing white space removed: a character is dropped when it is a
    space and all that follows has been dropped. *)
Fixpoint trim_end (s : string) : string :=
  match s with
  | EmptyString => EmptyString
  | String c s' =>
      match trim_end s' with
      | EmptyString => if is_space c then EmptyString else String c EmptyString
      | t => String c t
      end
  end.

Definition trim (s : string) : string := trim_end (trim_start s).

Fixpoint forallb (p : ascii -> bool) (s : string) : bool :=
  match s with
  | EmptyString => true
  | String c s' => p c && forallb p s'
  end.

Definition is_digit (c : ascii) : bool :=
  let n := nat_of_ascii c in ((48 <=? n) && (n <=? 57))%nat.

End JSString.

(* ================================================================== *)
(** * Numbers *)

Module JSNumber.

Inductive Number : Type :=
| NaN
| PosInfinity
| NegInfinity
| Int (z : Z).

(** The largest magnitude up to which every integer is a double. *)
Definition MAX_EXACT : Z := 2 ^ 53.

(** An exact integer result, as a Number when it is in range. *)
Definition of_Z (z : Z) : res Number :=
  if Z.abs z <=? MAX_EXACT then Val (Int z) else Unmodelled.

(** The value of a non-empty string of decimal digits. *)
Definition digits_value (s : string) : option Z :=
  option_map Z.of_uint (NilZero.uint_of_string s).

(** Characters of a decimal literal with a fraction or an exponent. *)
Definition is_decimal_literal_char (c : ascii) : bool :=
  JSString.is_digit c ||
  (Ascii.eqb c "." || Ascii.eqb c "e" || Ascii.eqb c "E" ||
   Ascii.eqb c "+" || Ascii.eqb c "-")%bool.

(** [0x], [0o], [0b] literals, in either case *)
Definition has_radix_prefix (s : string) : bool :=
  match s with
  | String "0" (String c _) =>
      (Ascii.eqb c "x" || Ascii.eqb c "X" || Ascii.eqb c "o" ||
       Ascii.eqb c "O" || Ascii.eqb c "b" || Ascii.eqb c "B")%bool
  | _ => false
  end.

(** StringToNumber (ECMA-262, 7.1.4.1.1): white space is trimmed, the empty
    string is 0, an optionally signed run of digits is its value, a signed
    [Infinity] is an infinity, and a string that is no numeric literal is
    NaN. *)
Definition StringToNumber (s : string) : res Number :=
  let t := JSString.trim s in
  match t with
  | EmptyString => Val (Int 0)
  | String c t' =>
      let '(neg, body) :=
        if Ascii.eqb c "-" then (true, t')
        else if Ascii.eqb c "+" then (false, t')
        else (false, t) in
      match digits_value body with
      | Some v => of_Z (if neg then - v else v)
      | None =>
          if String.eqb body "Infinity"
          then Val (if neg then NegInfinity else PosInfinity)
          else if JSString.forallb is_decimal_literal_char t
                  || has_radix_prefix t
               then Unmodelled
               else Val NaN
      end
  end.

(** Number::add: NaN is absorbing, opposite infinities give NaN, an
    infinity absorbs a finite number, and integers add exactly. *)
Definition add (x y : Number) : res Number :=
  match x, y with
  | NaN, _ | _, NaN => Val NaN
  | PosInfinity, NegInfinity | NegInfinity, PosInfinity => Val NaN
  | PosInfinity, _ | _, PosInfinity => Val PosInfinity
  | NegInfinity, _ | _, NegInfinity => Val NegInfinity
  | Int a, Int b => of_Z (a + b)
  end.

Definition negate (x : Number) : Number :=
  match x with
  | NaN => NaN
  | PosInfinity => NegInfinity
  | NegInfinity => PosInfinity
  | Int z => Int (- z)
  end.

(** Number::subtract *)
Definition sub (x y : Number) : res Number := add x (negate y).

(** The decimal numeral of an integer, with a minus sign when negative. *)
Definition Z_to_string (z : Z) : string :=
  NilZero.string_of_int (Z.to_int z).

(** Number::toString, radix 10 *)
Definition ToString (x : Number) : string :=
  match x with
  | NaN => "NaN"
  | PosInfinity => "Infinity"
  | NegInfinity => "-Infinity"
  | Int z => Z_to_string z
  end.

End JSNumber.

(* ================================================================== *)
(** * Versions *)

(** An array element of [versionParts]: the strings that [split] returns,
    and the Number that [++] or [-=] stores back. *)
Inductive Value : Type :=
| VString (s : string)
| VNumber (n : JSNumber.Number).

Definition ToString (v : Value) : string :=
  match v with
  | VString s => s
  | VNumber n => JSNumber.ToString n
  end.

(** ToNumeric of an array element; a missing element is [undefined],
    whose Number is NaN. *)
Definition ToNumber (v : option Value) : res JSNumber.Number :=
  match v with
  | Some (VString s) => JSNumber.StringToNumber s
  | Some (VNumber n) => Val n
  | None => Val JSNumber.NaN
  end.

Definition Array_join (sep : string) (a : list Value) : string :=
  JSString.join sep (map ToString a).

Definition FirstVersion : string := "1.0.0".

(** [versionParts[versionParts.length - 1]] as an index. [split] never
    returns the empty array, so the index is in range. *)
Definition last_index (a : list Value) : nat := (length a - 1)%nat.

(** util.js, incrementVersion:
<<
  const versionParts = version.split('.')
  versionParts[versionParts.length - 1]++
  return versionParts.join('.')
>> *)
Definition incrementVersion (version : string) : res string :=
  let versionParts := map VString (JSString.split "." version) in
  let i := last_index versionParts in
  let* old := ToNumber (versionParts !! i) in
  let* new := JSNumber.add old (JSNumber.Int 1) in
  Val (Array_join "." (<[i := VNumber new]> versionParts)).

(** util.js, getPreviousVersion, with [diff] an integer Number (its
    default is 1):
<<
  if (version === FirstVersion) { return FirstVersion }
  const versionParts = version.split('.')
  versionParts[versionParts.length - 1] -= diff
  return versionParts.join('.')
>> *)
Definition getPreviousVersion (version : string) (diff : Z) : res string :=
  if String.eqb version FirstVersion then Val FirstVersion
  else
    let versionParts := map VString (JSString.split "." version) in
    let i := last_index versionParts in
    let* old := ToNumber (versionParts !! i) in
    let* d := JSNumber.of_Z diff in
    let* new := JSNumber.sub old d in
    Val (Array_join "." (<[i := VNumber new]> versionParts)).

(* ================================================================== *)
(** * The version ledger *)

Module DynamoDB.

(** An attribute value of an item, as far as the code reads it: its [S]
    member, [undefined] when the attribute holds another type. *)
Record AttributeValue : Type := { S_ : option string }.

(** A patch manifest entry (Namediff, Hashdiff, Sizediff) *)
Record PatchInfo : Type :=
  { Namediff : string; Hashdiff : string; Sizediff : string }.

(** An item of the table [Extensions], as updateDynamoDB writes it.
    [Version] is the [S] member of the attribute [Version]; the
    attribute [ContentHash] is optional. *)
Record Item : Type :=
  { ID : string;
    SHA256 : string;
    Version : string;
    Title : string;
    Disabled : bool;
    ContentHash : option AttributeValue;
    PatchList : gmap string PatchInfo }.

(** The table: one item per hash key [ID]. *)
Abbreviation Table := (gmap string Item).

(** QueryCommand with [KeyConditionExpression: 'ID = :id'] *)
Definition Query (table : Table) (id : string) : list Item :=
  match table !! id with
  | Some item => [item]
  | None => []
  end.

(** PutItemCommand: the item replaces the one stored under its key. *)
Definition PutItem (table : Table) (item : Item) : Table :=
  <[ID item := item]> table.

End DynamoDB.

Import DynamoDB.

(** [ContentHash !== undefined && ContentHash.S !== undefined &&
     ContentHash.S === contentHash] *)
Definition contentHash_matches (item : Item) (contentHash : option string)
  : bool :=
  match ContentHash item with
  | Some a =>
      match S_ a, contentHash with
      | Some stored, Some h => String.eqb stored h
      | _, _ => false
      end
  | None => false
  end.

(** The callback of getNextVersion on the items of the query:
<<
  if (data.Items.length === 1 && data.Items[0].Version.S !== '') {
    if (... ContentHash.S === contentHash) { return undefined }
    else { return incrementVersion(data.Items[0].Version.S) }
  } else { return '1.0.0' }
>> *)
Definition nextVersionOf (Items : list Item) (contentHash : option string)
  : res (option string) :=
  match Items with
  | [item] =>
      if negb (String.eqb (Version item) "") then
        if contentHash_matches item contentHash then Val None
        else let* v := incrementVersion (Version item) in Val (Some v)
      else Val (Some "1.0.0")
  | _ => Val (Some "1.0.0")
  end.

(** util.js, getNextVersion. [table] is the table behind the client that
    createDynamoDBInstance(endpoint, region) returns; the result is the
    value the returned promise is fulfilled with. *)
Definition getNextVersion (table : Table) (id : string)
    (contentHash : option string) : res (option string) :=
  nextVersionOf (Query table id) contentHash.

(** util.js, updateDynamoDB: the item that is put.  [ContentHash] is
    written only when [contentHash !== undefined]. *)
Definition updateDynamoDB (table : Table) (id version hash name : string)
    (disabled : bool) (contentHash : option string)
    (patchList : gmap string PatchInfo) : Table :=
  PutItem table
    {| ID := id; SHA256 := hash; Version := version; Title := name;
       Disabled := disabled;
       ContentHash := option_map (fun h => {| S_ := Some h |}) contentHash;
       PatchList := patchList |}.

(* ================================================================== *)
(** * SHA-256 and the component identity *)

Module SHA256.

(** 32-bit words are integers reduced modulo 2^32. *)
Definition w32 (x : Z) : Z := x mod 2 ^ 32.

Definition rotr (n x : Z) : Z :=
  w32 (Z.lor (Z.shiftr x n) (Z.shiftl x (32 - n))).

Definition Ch (x y z : Z) : Z :=
  Z.lxor (Z.land x y) (Z.land (Z.lxor x 0xffffffff) z).

Definition Maj (x y z : Z) : Z :=
  Z.lxor (Z.lxor (Z.land x y) (Z.land x z)) (Z.land y z).

Definition Sigma0 (x : Z) : Z := Z.lxor (Z.lxor (rotr 2 x) (rotr 13 x)) (rotr 22 x).
Definition Sigma1 (x : Z) : Z := Z.lxor (Z.lxor (rotr 6 x) (rotr 11 x)) (rotr 25 x).
Definition sigma0 (x : Z) : Z := Z.lxor (Z.lxor (rotr 7 x) (rotr 18 x)) (Z.shiftr x 3).
Definition sigma1 (x : Z) : Z := Z.lxor (Z.lxor (rotr 17 x) (rotr 19 x)) (Z.shiftr x 10).

(** Primality by trial division, and the primes below [n] *)
Definition is_prime (p : Z) : bool :=
  (1 <? p) && List.forallb (fun d => negb (p mod Z.of_nat d =? 0))
                (seq 2 (Z.to_nat p - 2)).

Definition primes_below (n : nat) : list Z :=
  List.filter is_prime (map Z.of_nat (seq 2 (n - 2))).

(** The integer cube root of a number below 2^108, bit by bit *)
Definition cube_root (n : Z) : Z :=
  fold_left (fun r b => let r' := r + 2 ^ Z.of_nat b in
                        if r' * r' * r' <=? n then r' else r)
            (rev (seq 0 36)) 0.

(** The round constants: the first 32 bits of the fractional parts of
    the cube roots of the first 64 primes *)
Definition K : list Z :=
  Eval vm_compute in
    map (fun p => cube_root (p * 2 ^ 96) mod 2 ^ 32) (primes_below 312).

(** The eight working registers, and the hash value between blocks. *)
Record registers : Type :=
  Regs { ra : Z; rb : Z; rc : Z; rd : Z; re : Z; rf : Z; rg : Z; rh : Z }.

(** The initial hash value: the first 32 bits of the fractional parts of
    the square roots of the first 8 primes *)
Definition H0 : registers :=
  Eval vm_compute in
    let h (p : Z) := Z.sqrt (p * 2 ^ 64) mod 2 ^ 32 in
    Regs (h 2) (h 3) (h 5) (h 7) (h 11) (h 13) (h 17) (h 19).

(** Padding: a 1 bit, zeros, and the length in bits as 64 bits, to a
    multiple of 64 bytes. Bytes are integers below 256. *)
Definition pad (msg : list Z) : list Z :=
  let len := Z.of_nat (length msg) in
  let zeros := Z.to_nat ((55 - len) mod 64) in
  let bits := 8 * len in
  msg ++ [0x80] ++ repeat 0 zeros
      ++ map (fun i => Z.shiftr bits (8 * (7 - Z.of_nat i)) mod 256) (seq 0 8).

Fixpoint words (bytes : list Z) : list Z :=
  match bytes with
  | b0 :: b1 :: b2 :: b3 :: rest =>
      (b0 * 2 ^ 24 + b1 * 2 ^ 16 + b2 * 2 ^ 8 + b3) :: words rest
  | _ => []
  end.

(** The message schedule: [k] more words after those of [w]. *)
Fixpoint extend (k : nat) (w : list Z) : list Z :=
  match k with
  | O => w
  | S k' =>
      let t := length w in
      let at_ (i : nat) := nth (t - i) w 0 in
      extend k' (w ++ [w32 (sigma1 (at_ 2%nat) + at_ 7%nat
                            + sigma0 (at_ 15%nat) + at_ 16%nat)])
  end.

Definition round (r : registers) (kw : Z * Z) : registers :=
  let '(k, w) := kw in
  let t1 := w32 (rh r + Sigma1 (re r) + Ch (re r) (rf r) (rg r) + k + w) in
  let t2 := w32 (Sigma0 (ra r) + Maj (ra r) (rb r) (rc r)) in
  Regs (w32 (t1 + t2)) (ra r) (rb r) (rc r) (w32 (rd r + t1)) (re r) (rf r) (rg r).

Definition compress (h : registers) (block : list Z) : registers :=
  let w := extend 48 block in
  let r := fold_left round (combine K w) h in
  Regs (w32 (ra h + ra r)) (w32 (rb h + rb r)) (w32 (rc h + rc r))
       (w32 (rd h + rd r)) (w32 (re h + re r)) (w32 (rf h + rf r))
       (w32 (rg h + rg r)) (w32 (rh h + rh r)).

(** The words of the padded message, sixteen at a time. *)
Fixpoint blocks (n : nat) (ws : list Z) (h : registers) : registers :=
  match n with
  | O => h
  | S n' => blocks n' (skipn 16 ws) (compress h (firstn 16 ws))
  end.

Definition word_bytes (w : Z) : list Z :=
  [Z.shiftr w 24 mod 256; Z.shiftr w 16 mod 256; Z.shiftr w 8 mod 256; w mod 256].

(** The digest: 32 bytes. *)
Definition digest (data : list Byte.byte) : list Z :=
  let ws := words (pad (map (fun b => Z.of_N (Byte.to_N b)) data)) in
  let h := blocks (length ws / 16) ws H0 in
  word_bytes (ra h) ++ word_bytes (rb h) ++ word_bytes (rc h) ++ word_bytes (rd h)
  ++ word_bytes (re h) ++ word_bytes (rf h) ++ word_bytes (rg h) ++ word_bytes (rh h).

Definition hex_char (n : Z) : ascii :=
  match String.get (Z.to_nat (n mod 16)) "0123456789abcdef" with
  | Some c => c
  | None => "0"%char
  end.

(** [digest('hex')]: two lower-case hexadecimal digits per byte *)
Fixpoint hex (bytes : list Z) : string :=
  match bytes with
  | [] => EmptyString
  | b :: rest => String (hex_char (b / 16)) (String (hex_char b) (hex rest))
  end.

End SHA256.

(** util.js, generateSHA256Hash: [hash.update(data).digest('hex')] *)
Definition generateSHA256Hash (data : list Byte.byte) : string :=
  SHA256.hex (SHA256.digest data).

(** The character class [[0-9a-f]] *)
Definition is_lower_hex (c : ascii) : bool :=
  let n := nat_of_ascii c in
  ((48 <=? n) && (n <=? 57) || (97 <=? n) && (n <=? 102))%nat.

Section Identity.

(** [Buffer.from(key, 'base64')]: Node's base64 decoder *)
Variable base64_decode : string -> list Byte.byte.

(** util.js, getIDFromBase64PublicKey:
<<
  const data = Buffer.from(key, 'base64')
  const digest = hash.update(data).digest('hex')
  const id = digest.toString().substring(0, 32)
  return id.replace(/[0-9a-f]/g, (c) => {
    return 'abcdefghijklmnop'.charAt('0123456789abcdef'.indexOf(c))
  })
>> *)
Definition getIDFromBase64PublicKey (key : string) : string :=
  let data := base64_decode key in
  let digest := generateSHA256Hash data in
  let id := JSString.substring0 32 digest in
  JSString.replace_chars is_lower_hex
    (fun c => JSString.charAt "abcdefghijklmnop"
                (JSString.indexOf c "0123456789abcdef"))
    id.

End Identity.

(* ================================================================== *)
(** * The environment: calls, replies and traces *)

(** A JavaScript [Error], as far as the code reads one: its [name], its
    [message] and its [code]. The errors of Node's file system carry a
    [code] ('ENOENT'); those of the S3 client (version 3) are told apart
    by their [name] ('NotFound', 'NoSuchKey') and have no [code]. *)
Record Error : Type := { name : string; message : string; code : option string }.

(** [new Error(msg)] *)
Definition new_Error (msg : string) : Error :=
  {| name := "Error"; message := msg; code := None |}.

Inductive outcome (A : Type) : Type :=
| Ok (a : A)
| Failed (e : Error).
Arguments Ok {A} a.
Arguments Failed {A} e.

(** The manifest of a component, as the code reads it. *)
Record Manifest : Type :=
  { manifest_key : string; manifest_version : string; manifest_name : string }.

(** A [fetch] response; [text] is what [response.text()] settles to. *)
Record Response : Type :=
  { status : Z; statusText : string; text : outcome string }.

Record PutObjectParams : Type :=
  { Body : list Byte.byte;
    Bucket : string;
    Key : string;
    GrantFullControl : option string;
    GrantRead : option string;
    ContentType : string }.

Inductive S3Command : Type :=
| PutObjectCommand (params : PutObjectParams)
| PutObjectTaggingCommand (bucket key : string) (TagSet : list (string * string))
| HeadObjectCommand (bucket key : string).

(** The calls the code makes to its environment. *)
Inductive Call : Type :=
| Fetch (url : string)
| MkdirpSync (dir : string)
| Unzip (crxFile dir : string)
| ReadManifest (manifestFile : string)
| ReadFileSync (file : string)
| ExistsSync (path : string)
| RmSync (path : string)
| ReaddirSync (dir : string)
| SpawnSync (command : string) (args : list string)
| ReadFile (file : string)
| S3Send (command : S3Command).

(** What each call gives back. A [Failed] reply is an exception of a
    synchronous call and the rejection of an asynchronous one; spawnSync
    never throws, its reply is [result.error]. *)
Definition Reply (c : Call) : Type :=
  match c with
  | Fetch _ => outcome Response
  | MkdirpSync _ => outcome unit
  | Unzip _ _ => outcome unit
  | ReadManifest _ => outcome Manifest
  | ReadFileSync _ => outcome (list Byte.byte)
  | ExistsSync _ => bool
  | RmSync _ => outcome unit
  | ReaddirSync _ => outcome (list string)
  | SpawnSync _ _ => option Error
  | ReadFile _ => outcome (list Byte.byte)
  | S3Send _ => outcome unit
  end.

Definition outcome_error {A : Type} (o : outcome A) : option Error :=
  match o with
  | Ok _ => None
  | Failed e => Some e
  end.

(** The error a reply carries, if any. *)
Definition reply_error (c : Call) : Reply c -> option Error :=
  match c return Reply c -> option Error with
  | ExistsSync _ => fun _ => None
  | SpawnSync _ _ => fun r => r
  | Fetch _ => outcome_error
  | MkdirpSync _ => outcome_error
  | Unzip _ _ => outcome_error
  | ReadManifest _ => outcome_error
  | ReadFileSync _ => outcome_error
  | RmSync _ => outcome_error
  | ReaddirSync _ => outcome_error
  | ReadFile _ => outcome_error
  | S3Send _ => outcome_error
  end.

(** An argument of [console.log] or [console.error]: a string, an error
    object, or the [stack] of one. *)
Inductive LogArg : Type :=
| LStr (s : string)
| LErr (e : Error)
| LStack (e : Error).

Inductive Event : Type :=
| Start (c : Call)                    (* an asynchronous call is issued *)
| Done (c : Call) (err : option Error) (* a call completes, with its error *)
| ConsoleLog (args : list LogArg)
| ConsoleError (args : list LogArg)
| Timeout (ms : Z).                   (* a setTimeout delay elapses *)

(** How a function body ends. *)
Inductive Completion (A : Type) : Type :=
| Return (a : A)        (* returns; an async function's promise is fulfilled *)
| Throw (e : Error)     (* throws; an async function's promise is rejected *)
| Stuck.                (* a value outside the embedded fragment of Number *)
Arguments Return {A} a.
Arguments Throw {A} e.
Arguments Stuck {A}.

Section Node.

Variable World : Type.

(** The environment answers a call in a world and moves to the next. *)
Variable oracle : forall c : Call, World -> Reply c * World.

Record State : Type := { world : World; trace : list Event }.

Definition M (A : Type) : Type := State -> Completion A * State.

Definition ret {A : Type} (a : A) : M A := fun st => (Return a, st).

Definition throw {A : Type} (e : Error) : M A := fun st => (Throw e, st).

Definition bind {A B : Type} (m : M A) (k : A -> M B) : M B :=
  fun st =>
    match m st with
    | (Return a, st') => k a st'
    | (Throw e, st') => (Throw e, st')
    | (Stuck, st') => (Stuck, st')
    end.

(** [try { m } catch (e) { h e }], and [p.catch(h)] on a promise *)
Definition catch {A : Type} (m : M A) (h : Error -> M A) : M A :=
  fun st =>
    match m st with
    | (Throw e, st') => h e st'
    | r => r
    end.

Definition emit (ev : Event) : M unit :=
  fun st => (Return tt, {| world := world st; trace := trace st ++ [ev] |}).

(** The environment completes a call; the reply is recorded. *)
Definition complete (c : Call) : M (Reply c) :=
  fun st =>
    let '(r, w) := oracle c (world st) in
    (Return r, {| world := w; trace := trace st ++ [Done c (reply_error c r)] |}).

Definition of_outcome {A : Type} (o : outcome A) : M A :=
  match o with
  | Ok a => ret a
  | Failed e => throw e
  end.

Definition of_res {A : Type} (r : res A) : M A :=
  match r with
  | Val a => ret a
  | Unmodelled => fun st => (Stuck, st)
  end.

End Node.

Arguments ret {World A} a.
Arguments throw {World A} e.
Arguments bind {World A B} m k.
Arguments catch {World A} m h.
Arguments emit {World} ev.
Arguments of_outcome {World A} o.
Arguments of_res {World A} r.
Arguments world {World} s.
Arguments trace {World} s.

Notation "'do' x <- m ; k" := (bind m (fun x => k))
  (at level 10, x name, m at level 100, k at level 200,
   format "'[v' 'do'  x  <-  m ; '/' k ']'").
Notation "m ;; k" := (bind m (fun _ => k))
  (at level 100, k at level 200, right associativity).

Definition console_log {World : Type} (args : list LogArg) : M World unit :=
  emit (ConsoleLog args).
Definition console_error {World : Type} (args : list LogArg) : M World unit :=
  emit (ConsoleError args).

(* ================================================================== *)
(** * The functions of util.js over the environment *)

Section Packager.

Variable World : Type.
Variable oracle : forall c : Call, World -> Reply c * World.

(** Node's [path] module: [path.join], [path.resolve], and the [name] and
    [ext] members of [path.parse]. *)
Variable path_join : list string -> string.
Variable path_resolve : string -> string.
Variable path_parse_name : string -> string.
Variable path_parse_ext : string -> string.

(** [process.env] *)
Variable process_env : string -> option string.

(** [Buffer.from(key, 'base64')] *)
Variable base64_decode : string -> list Byte.byte.

Local Abbreviation M := (M World).

(** A synchronous call, and an awaited asynchronous one. *)
Definition call (c : Call) : M (Reply c) := complete World oracle c.
Definition await (c : Call) : M (Reply c) := emit (Start c) ;; call c.

(** A string in a boolean position: the empty string is falsy. *)
Definition truthy (s : string) : bool := negb (String.eqb s "").

(** [a || b] on an optional string *)
Definition or_else (a : option string) (b : string) : string :=
  match a with
  | Some s => if truthy s then s else b
  | None => b
  end.

(** ** fetchTextFromURL *)

Definition maxAttempts : nat := 5.
Definition delayMs : Z := 3000.

(** <<
  const attempt = () => fetch(listURL).then(response => {
    if (response.status !== 200) {
      throw new Error(`Error status ${response.status} ${response.statusText} returned for URL: ${listURL}`)
    }
    return response.text()
  }).catch(error => {
    throw new Error(`Error when fetching ${listURL}: ${error.message}`)
  })
>> *)
Definition attempt (listURL : string) : M string :=
  catch
    (do r <- await (Fetch listURL);
     do response <- of_outcome r;
     if negb (status response =? 200) then
       throw (new_Error ("Error status " ++ JSNumber.Z_to_string (status response)
                         ++ " " ++ statusText response
                         ++ " returned for URL: " ++ listURL))
     else of_outcome (text response))
    (fun error =>
       throw (new_Error ("Error when fetching " ++ listURL ++ ": "
                         ++ message error))).

(** <<
  const delayReject = (ms) => {
    return (reason) => new Promise((_resolve, reject) => setTimeout(() => {
      console.log(`Spurious error: ${reason.message}`)
      console.log('  (retrying...)')
      reject(reason)
    }, ms))
  }
>> *)
Definition delayReject (ms : Z) (reason : Error) : M string :=
  emit (Timeout ms) ;;
  console_log [LStr ("Spurious error: " ++ message reason)] ;;
  console_log [LStr "  (retrying...)"] ;;
  throw reason.

(** <<
  let p = Promise.reject(new Error())
  for (let i = 0; i < maxAttempts; i++) {
    p = p.catch(attempt).catch(delayReject(delayMs))
  }
  return p
>> *)
Fixpoint retry_chain (n : nat) (listURL : string) : M string :=
  match n with
  | O => throw (new_Error "")
  | S n' =>
      catch (catch (retry_chain n' listURL) (fun _ => attempt listURL))
            (delayReject delayMs)
  end.

Definition fetchTextFromURL (listURL : string) : M string :=
  retry_chain maxAttempts listURL.

(** ** Patch generation *)

(** util.js, parseManifest: the file is read, its [//#] comments are
    removed and the text is parsed, as one call of the environment that
    gives the manifest or the exception. *)
Definition parseManifest (manifestFile : string) : M Manifest :=
  do r <- call (ReadManifest manifestFile);
  of_outcome r.

(** util.js, generateSHA256HashOfFile *)
Definition generateSHA256HashOfFile (file : string) : M string :=
  do r <- call (ReadFileSync file);
  do data <- of_outcome r;
  ret (generateSHA256Hash data).

(** util.js, recreateDirectory *)
Definition recreateDirectory (dirPath : string) : M unit :=
  do exists_ <- call (ExistsSync dirPath);
  (if exists_ : bool
   then do r <- call (RmSync dirPath); of_outcome r
   else ret tt) ;;
  do r <- call (MkdirpSync dirPath);
  of_outcome r.

(** util.js, generatePuffDiff *)
Definition generatePuffDiff (sourceFile destinationFile outputFile : string)
  : M unit :=
  if negb (truthy sourceFile) || negb (truthy destinationFile)
     || negb (truthy outputFile)
  then throw (new_Error
         "Missing parameters: source_file, destination_file, or output_file")
  else
    let args := ["-puffdiff"; path_resolve sourceFile;
                 path_resolve destinationFile; path_resolve outputFile] in
    do result_error <- call (SpawnSync "puffin" args);
    match result_error with
    | Some error =>
        console_error [LStr ("Failed to execute puffin: " ++ message error)]
    | None => ret tt
    end.

(** The callback of [forEach] in generatePuffPatches, on one directory
    entry. *)
Definition generatePatchFor (downloadDir outputDir crxFile file : string)
  : M unit :=
  let filePath := path_join [downloadDir; file] in
  if String.eqb (path_parse_ext filePath) ".crx" then
    let outputFile := outputDir ++ "/" ++ path_parse_name filePath ++ ".puff" in
    console_log [LStr ("Generating patch: " ++ outputFile)] ;;
    generatePuffDiff filePath crxFile outputFile
  else ret tt.

(** [array.forEach(f)] *)
Fixpoint forEach {A : Type} (f : A -> M unit) (l : list A) : M unit :=
  match l with
  | [] => ret tt
  | x :: rest => f x ;; forEach f rest
  end.

(** util.js, generatePuffPatches, up to the loop: the archive is
    unpacked, the identity and the hash are computed, the output directory
    is recreated and the directory of previous versions is read. The
    result is [downloadDir], [outputDir] and the directory entries. *)
Definition preparePatches (crxFile : string) (componentId : option string)
  : M (string * string * list string) :=
  let unzipDir := path_join ["build"; "unzip"; path_parse_name crxFile] in
  do r <- call (MkdirpSync unzipDir);
  of_outcome r ;;
  do r <- await (Unzip crxFile unzipDir);
  of_outcome r ;;
  do data <- parseManifest (path_join [unzipDir; "manifest.json"]);
  let id := or_else componentId
              (getIDFromBase64PublicKey base64_decode (manifest_key data)) in
  do hash <- generateSHA256HashOfFile crxFile;
  let downloadDir := "build/previous/" ++ id in
  let outputDir := "build/patches/" ++ id ++ "/" ++ hash in
  recreateDirectory outputDir ;;
  do r <- call (ReaddirSync downloadDir);
  do files <- of_outcome r;
  ret (downloadDir, outputDir, files).

(** util.js, generatePuffPatches. The jobs pushed on [patchJobs] are the
    [undefined] results of generatePuffDiff, so that [Promise.all] is
    fulfilled at once. *)
Definition generatePuffPatches (crxFile : string) (componentId : option string)
    (num : Z) : M unit :=
  do prepared <- preparePatches crxFile componentId;
  let '(downloadDir, outputDir, files) := prepared in
  forEach (generatePatchFor downloadDir outputDir crxFile) files ;;
  catch (console_log [LStr "All patches generated."])
        (fun err => console_error [LStr "An error occurred:"; LErr err]).

(** ** Publishing *)

Definition S3_EXTENSIONS_BUCKET : string :=
  or_else (process_env "S3_EXTENSIONS_BUCKET") "brave-core-ext".

(** [err.code === c] *)
Definition has_code (err : Error) (c : string) : bool :=
  match code err with
  | Some c' => String.eqb c' c
  | None => false
  end.

(** The characters an S3 tag may hold: [[a-zA-Z0-9+\-=._:/@]] *)
Definition is_tag_char (c : ascii) : bool :=
  let n := nat_of_ascii c in
  ((97 <=? n) && (n <=? 122) || (65 <=? n) && (n <=? 90)
   || (48 <=? n) && (n <=? 57))%nat
  || existsb (Ascii.eqb c) ["+"; "-"; "="; "."; "_"; ":"; "/"; "@"]%char.

(** [version.replace(/\./g, '_')] *)
Definition dots_to_underscores (s : string) : string :=
  JSString.replace_chars (Ascii.eqb ".") (fun _ => "_") s.

(** An upload in flight. uploadToS3 is an async function: a call runs it
    up to [await readFile(file)], the rest runs when the file has been
    read, and again when the object store has answered. [then_log] is the
    message of the [.then(() => console.log(...))] attached to a patch
    upload. *)
Inductive Job : Type :=
| Reading (file bucket key contentType : string) (then_log : option string)
| Sending (params : PutObjectParams) (then_log : option string)
| Fulfilled.

(** The call [uploadToS3(file, bucket, key, contentType)]: the read of
    the file is issued and the promise is pending. *)
Definition uploadToS3_call (file bucket key contentType : string)
    (then_log : option string) : M Job :=
  emit (Start (ReadFile file)) ;;
  ret (Reading file bucket key contentType then_log).

(** One completion of a pending upload: the read completes and the
    PutObject command is sent, or the command completes. A [Throw] is the
    rejection of the upload's promise. *)
Definition job_step (j : Job) : M Job :=
  match j with
  | Reading file bucket key contentType then_log =>
      do r <- call (ReadFile file);
      do body <- of_outcome r;
      let putObjectParams :=
        {| Body := body; Bucket := bucket; Key := key;
           GrantFullControl := process_env "S3_CANONICAL_ID";
           GrantRead := process_env "CLOUDFRONT_CANONICAL_ID";
           ContentType := contentType |} in
      emit (Start (S3Send (PutObjectCommand putObjectParams))) ;;
      ret (Sending putObjectParams then_log)
  | Sending params then_log =>
      do r <- call (S3Send (PutObjectCommand params));
      match r with
      | Failed err =>
          console_error [LStr ("Upload failed for s3://" ++ Bucket params
                               ++ "/" ++ Key params)] ;;
          console_error [LStr "Unable to upload:"; LStack err;
                         LStr "Do you have ~/.aws/credentials filled out?"] ;;
          throw (new_Error "Failed to upload extension to S3")
      | Ok _ =>
          match then_log with
          | Some msg => console_log [LStr msg]
          | None => ret tt
          end ;;
          ret Fulfilled
      end
  | Fulfilled => ret Fulfilled
  end.

(** The remaining completions of one upload, in a row. *)
Definition finish_job (j : Job) : M unit :=
  do j1 <- job_step j;
  do j2 <- job_step j1;
  ret tt.

(** [await uploadToS3(file, bucket, key, contentType)] *)
Definition uploadToS3 (file bucket key contentType : string) : M unit :=
  do j <- uploadToS3_call file bucket key contentType None;
  finish_job j.

(** [await Promise.all(jobs)]. The completions arrive in the order of
    [sched], a list of job indices; when it is used up, the remaining
    uploads complete one after the other. The first rejection rejects
    [Promise.all], and the awaiting function resumes by throwing it. *)
Fixpoint Promise_all (sched : list nat) (jobs : list Job) : M unit :=
  match sched with
  | [] => forEach finish_job jobs
  | i :: sched' =>
      match jobs !! i with
      | Some j =>
          do j' <- job_step j;
          Promise_all sched' (<[i := j']> jobs)
      | None => Promise_all sched' jobs
      end
  end.

(** The callback of [forEach] over the patch directory: a [.puff] file is
    handed to uploadToS3 and the pending upload is pushed on
    [uploadJobs]. *)
Fixpoint startPatchUploads (patchDir id hash : string) (files : list string)
  : M (list Job) :=
  match files with
  | [] => ret []
  | file :: rest =>
      let fullPath := path_join [patchDir; file] in
      if String.eqb (path_parse_ext fullPath) ".puff" then
        let key := "release/" ++ id ++ "/patches/" ++ hash ++ "/" ++ file in
        do j <- uploadToS3_call fullPath S3_EXTENSIONS_BUCKET key
                  "application/octet-stream"
                  (Some ("Uploaded patch to s3://" ++ S3_EXTENSIONS_BUCKET
                         ++ "/" ++ key));
        do jobs <- startPatchUploads patchDir id hash rest;
        ret (j :: jobs)
      else startPatchUploads patchDir id hash rest
  end.

(** [s3Client.send(new PutObjectTaggingCommand(params)).catch(err => ...)] *)
Definition putObjectTagging (bucket key : string) (TagSet : list (string * string))
    (failure : string) : M unit :=
  do r <- await (S3Send (PutObjectTaggingCommand bucket key TagSet));
  match r with
  | Failed err =>
      console_error [LStr failure] ;;
      console_error [LErr err; LStack err] ;;
      throw (new_Error "Failed to upload extension to S3")
  | Ok _ => ret tt
  end.

(** util.js, uploadExtension. [sched] is the order in which the pending
    patch uploads complete. *)
Definition uploadExtension (sched : list nat)
    (name id version hash crxFile : string) : M unit :=
  do previousVersion <- of_res (getPreviousVersion version 1);
  let componentFilename := "extension_" ++ dots_to_underscores version ++ ".crx" in
  let componentName := JSString.replace_chars JSString.is_space (fun _ => "-") name in
  let previousComponentFilename :=
    "extension_" ++ dots_to_underscores previousVersion ++ ".crx" in
  let componentNameTag :=
    JSString.replace_chars (fun c => negb (is_tag_char c)) (fun _ => "")
      componentName in
  let latestVersionTagKey := "version" in
  let latestVersionTagValue := componentNameTag ++ "/latest" in
  let patchDir := "build/patches/" ++ id ++ "/" ++ hash in
  uploadToS3 crxFile S3_EXTENSIONS_BUCKET
    ("release/" ++ id ++ "/" ++ componentFilename)
    "application/x-chrome-extension" ;;
  console_log [LStr ("Uploaded component to s3://" ++ S3_EXTENSIONS_BUCKET
                     ++ "/release/" ++ id ++ "/" ++ componentFilename)] ;;
  do uploadJobs <-
    catch (do r <- call (ReaddirSync patchDir);
           do files <- of_outcome r;
           startPatchUploads patchDir id hash files)
          (fun err =>
             if has_code err "ENOENT" then
               console_log [LStr ("Directory " ++ patchDir
                                  ++ " does not exist, no patches found.")] ;;
               ret []
             else throw err);
  Promise_all sched uploadJobs ;;
  console_log [LStr ("Updating tag for " ++ componentName ++ ": "
                     ++ componentNameTag ++ " = " ++ version)] ;;
  console_log [LStr ("Updating latest version tag for " ++ componentName ++ ": "
                     ++ latestVersionTagKey ++ " = " ++ latestVersionTagValue)] ;;
  putObjectTagging S3_EXTENSIONS_BUCKET
    ("release/" ++ id ++ "/" ++ componentFilename)
    [(componentNameTag, version); ("version", componentNameTag ++ "/latest")]
    ("Tagging failed for " ++ id ++ "/" ++ componentFilename
     ++ " with tag " ++ version) ;;
  console_log [LStr ("Updated tags for " ++ id ++ "/" ++ componentFilename)] ;;
  console_log [LStr ("Updating tag for " ++ componentName ++ ": "
                     ++ componentNameTag ++ " = " ++ previousVersion)] ;;
  do r <- await (S3Send (HeadObjectCommand S3_EXTENSIONS_BUCKET
                           ("release/" ++ id ++ "/" ++ previousComponentFilename)));
  match r with
  | Failed err =>
      if has_code err "NotFound" then ret tt
      else
        console_error [LStr ("Unexpected error with HeadObject command for "
                             ++ id ++ "/" ++ componentFilename
                             ++ " with tag " ++ version)] ;;
        console_error [LErr err; LStack err] ;;
        throw (new_Error "Unexpected error with HeadObject command")
  | Ok _ =>
      putObjectTagging S3_EXTENSIONS_BUCKET
        ("release/" ++ id ++ "/" ++ previousComponentFilename)
        [(componentNameTag, previousVersion)]
        ("Tagging failed for " ++ id ++ "/" ++ previousComponentFilename
         ++ " with tag " ++ previousVersion) ;;
      console_log [LStr ("Updated tags for " ++ id ++ "/"
                         ++ previousComponentFilename)]
  end.

End Packager.

(* ================================================================== *)
(** * Well-formed versions *)

(** A non-empty run of decimal digits *)
Definition numeric_segment (s : string) : bool :=
  match JSNumber.digits_value s with
  | Some _ => true
  | None => false
  end.

(** A 3-part dotted numeric string *)
Definition numeric_version3 (v : string) : bool :=
  match JSString.split "." v with
  | [a; b; c] => numeric_segment a && numeric_segment b && numeric_segment c
  | _ => false
  end.

(** The character [sep] does not occur in [s]. *)
Definition no_char (sep : ascii) (s : string) : Prop :=
  JSString.forallb (fun c => negb (Ascii.eqb c sep)) s = true.

(** incrementVersion, then getPreviousVersion with [diff = 1] *)
Definition incrementThenDecrement (v : string) : res string :=
  let* w := incrementVersion v in
  getPreviousVersion w 1.

(** A record exists for [id] whose stored content hash equals
    [contentHash]. *)
Definition record_with_hash (table : Table) (id : string)
    (contentHash : option string) : Prop :=
  exists item stored,
    table !! id = Some item
    /\ ContentHash item = Some {| S_ := Some stored |}
    /\ contentHash = Some stored.


(** The letters 'a' to 'p' *)
Definition is_a_to_p (c : ascii) : bool :=
  let n := nat_of_ascii c in ((97 <=? n) && (n <=? 112))%nat.

(* ================================================================== *)
(** * Observations on traces *)

(** The number of [fetch] calls issued *)
Fixpoint fetches (tr : list Event) : nat :=
  match tr with
  | [] => 0
  | Start (Fetch _) :: tr' => S (fetches tr')
  | _ :: tr' => fetches tr'
  end.

(** The delays of the timers that elapsed, in order *)
Fixpoint delays (tr : list Event) : list Z :=
  match tr with
  | [] => []
  | Timeout ms :: tr' => ms :: delays tr'
  | _ :: tr' => delays tr'
  end.

(** The commands given to spawnSync and their arguments, in order *)
Fixpoint spawns (tr : list Event) : list (string * list string) :=
  match tr with
  | [] => []
  | Done (SpawnSync command args) _ :: tr' => (command, args) :: spawns tr'
  | _ :: tr' => spawns tr'
  end.

(** The errors spawnSync reported, in order *)
Fixpoint spawn_errors (tr : list Event) : list Error :=
  match tr with
  | [] => []
  | Done (SpawnSync _ _) (Some e) :: tr' => e :: spawn_errors tr'
  | _ :: tr' => spawn_errors tr'
  end.

(** The lines written with [console.error], in order *)
Fixpoint console_errors (tr : list Event) : list (list LogArg) :=
  match tr with
  | [] => []
  | ConsoleError args :: tr' => args :: console_errors tr'
  | _ :: tr' => console_errors tr'
  end.

(** The tagging commands sent to the object store, in order *)
Fixpoint tag_writes (tr : list Event) : list S3Command :=
  match tr with
  | [] => []
  | Start (S3Send (PutObjectTaggingCommand bucket key TagSet)) :: tr' =>
      PutObjectTaggingCommand bucket key TagSet :: tag_writes tr'
  | _ :: tr' => tag_writes tr'
  end.

(** The head requests that completed: bucket, key and error *)
Fixpoint head_replies (tr : list Event) : list (string * string * option Error) :=
  match tr with
  | [] => []
  | Done (S3Send (HeadObjectCommand bucket key)) err :: tr' =>
      (bucket, key, err) :: head_replies tr'
  | _ :: tr' => head_replies tr'
  end.

(** The uploads that failed: a file that could not be read, or a
    PutObject command that was rejected *)
Fixpoint upload_failures (tr : list Event) : list (Call * Error) :=
  match tr with
  | [] => []
  | Done (ReadFile file) (Some e) :: tr' => (ReadFile file, e) :: upload_failures tr'
  | Done (S3Send (PutObjectCommand params)) (Some e) :: tr' =>
      (S3Send (PutObjectCommand params), e) :: upload_failures tr'
  | _ :: tr' => upload_failures tr'
  end.

(** The files whose read was issued, in order *)
Fixpoint reads_started (tr : list Event) : list string :=
  match tr with
  | [] => []
  | Start (ReadFile file) :: tr' => file :: reads_started tr'
  | _ :: tr' => reads_started tr'
  end.

(** The keys of the PutObject commands sent, in order *)
Fixpoint puts_sent (tr : list Event) : list string :=
  match tr with
  | [] => []
  | Start (S3Send (PutObjectCommand params)) :: tr' => Key params :: puts_sent tr'
  | _ :: tr' => puts_sent tr'
  end.

(** The error uploadToS3 rejects with when an upload fails: the error of
    the read, or a new error in place of the one of the object store *)
Definition surfaced (c : Call) (e : Error) : Error :=
  match c with
  | ReadFile _ => e
  | _ => new_Error "Failed to upload extension to S3"
  end.

Definition puffin_failure_line (e : Error) : list LogArg :=
  [LStr ("Failed to execute puffin: " ++ message e)].

Section PatchJobs.

Variable path_join : list string -> string.
Variables path_resolve path_parse_name path_parse_ext : string -> string.
Variables downloadDir outputDir crxFile : string.

(** The command that diffs the previous artifact [file] against
    [crxFile], as generatePuffDiff assembles it *)
Definition puffdiff_of (file : string) : string * list string :=
  let filePath := path_join [downloadDir; file] in
  ("puffin",
   ["-puffdiff"; path_resolve filePath; path_resolve crxFile;
    path_resolve (outputDir ++ "/" ++ path_parse_name filePath ++ ".puff")]).

(** The entries of the directory of previous versions that are diffed *)
Definition is_crx (file : string) : bool :=
  String.eqb (path_parse_ext (path_join [downloadDir; file])) ".crx".

End PatchJobs.

Section FetchRounds.

Variable World : Type.
Variable oracle : forall c : Call, World -> Reply c * World.

(** The state after [k] attempts that all failed, each followed by its
    delayed rejection; [None] when one of them succeeded. *)
Fixpoint failed_attempts (k : nat) (listURL : string) (st : State World)
  : option (State World) :=
  match k with
  | O => Some st
  | S k' =>
      match failed_attempts k' listURL st with
      | Some s =>
          match attempt World oracle listURL s with
          | (Throw e, s1) => Some (snd (delayReject World delayMs e s1))
          | _ => None
          end
      | None => None
      end
  end.

End FetchRounds.

Section TraceLogic.

Variable World : Type.

(** The start of a run: a world and no events yet *)
Definition init (w : World) : State World := {| world := w; trace := [] |}.

(** [post m Q]: from every state, [m] extends the trace by some events
    [evs] and completes with [c] such that [Q c evs]. *)
Definition post {A : Type} (m : M World A)
    (Q : Completion A -> list Event -> Prop) : Prop :=
  forall st, exists evs,
    trace (snd (m st)) = (trace st ++ evs)%list /\ Q (fst (m st)) evs.

End TraceLogic.

Arguments post {World A} m Q.
Arguments init {World} w.

(** What an upload leaves in the trace: no tagging and no head request;
    no failure when it is fulfilled, and exactly the failure it rejects
    with otherwise. *)
Definition upload_post {A : Type} (c : Completion A) (evs : list Event) : Prop :=
  tag_writes evs = [] /\ head_replies evs = []
  /\ match c with
     | Return _ => upload_failures evs = []
     | Throw e => exists c0 e0, upload_failures evs = [(c0, e0)] /\ e = surfaced c0 e0
     | Stuck => False
     end.

(** A phase that uploads nothing, tags nothing and makes no head request *)
Definition quiet_post {A : Type} (c : Completion A) (evs : list Event) : Prop :=
  tag_writes evs = [] /\ head_replies evs = [] /\ upload_failures evs = [].

(** The keys of the PutObject commands that completed without an error,
    in order *)
Fixpoint puts_done (tr : list Event) : list string :=
  match tr with
  | [] => []
  | Done (S3Send (PutObjectCommand params)) None :: tr' => Key params :: puts_done tr'
  | _ :: tr' => puts_done tr'
  end.

(** The key under which a pending upload puts its object *)
Definition job_key (j : Job) : option string :=
  match j with
  | Reading _ _ key _ _ => Some key
  | Sending params _ => Some (Key params)
  | Fulfilled => None
  end.

(** The object of a pending upload has been put. *)
Definition uploaded_in (evs : list Event) (j : Job) : Prop :=
  match job_key j with
  | Some key => In key (puts_done evs)
  | None => True
  end.

(** The key of the patch [file] *)
Definition patchKey (id hash file : string) : string :=
  "release/" ++ id ++ "/patches/" ++ hash ++ "/" ++ file.

(** A failed upload is the last thing that happens: the completion that
    carries the failure is followed by lines on the error console only. *)
Definition failure_last (evs : list Event) : Prop :=
  forall c0 e0, In (c0, e0) (upload_failures evs) ->
    exists before lines,
      evs = (before ++ Done c0 (Some e0) :: map ConsoleError lines)%list.

(** A step that returns has seen no upload fail; one that does not return
    stopped at the failure, if there is one. *)
Definition halting {A : Type} (c : Completion A) (evs : list Event) : Prop :=
  match c with
  | Return _ => upload_failures evs = []
  | _ => failure_last evs
  end.

(** The parameters of the PutObject command that uploads the CRX file
    itself, with [body] the content of the file *)
Definition componentObject (process_env : string -> option string)
    (id version : string) (body : list Byte.byte) : PutObjectParams :=
  {| Body := body; Bucket := S3_EXTENSIONS_BUCKET process_env;
     Key := "release/" ++ id ++ "/" ++ "extension_" ++ dots_to_underscores version
            ++ ".crx";
     GrantFullControl := process_env "S3_CANONICAL_ID";
     GrantRead := process_env "CLOUDFRONT_CANONICAL_ID";
     ContentType := "application/x-chrome-extension" |}.

(** The command that tags the new object: the component-name tag with
    the version, and the latest marker *)
Definition newObjectTagging (process_env : string -> option string)
    (name id version : string) : S3Command :=
  let componentNameTag :=
    JSString.replace_chars (fun c => negb (is_tag_char c)) (fun _ => "")
      (JSString.replace_chars JSString.is_space (fun _ => "-") name) in
  PutObjectTaggingCommand (S3_EXTENSIONS_BUCKET process_env)
    ("release/" ++ id ++ "/" ++ "extension_" ++ dots_to_underscores version ++ ".crx")
    [(componentNameTag, version); ("version", componentNameTag ++ "/latest")].

(** The bucket and key of the object of the previous version *)
Definition previousObject (process_env : string -> option string)
    (id previousVersion : string) : string * string :=
  (S3_EXTENSIONS_BUCKET process_env,
   "release/" ++ id ++ "/" ++ "extension_"
     ++ dots_to_underscores previousVersion ++ ".crx").

(** What uploadExtension leaves in the trace, where [t1] is the tagging
    of the new object and [previous] the object of the previous version.
    An upload that fails is the only failure, it is what the function
    throws, and nothing is tagged. When the head request completed, the
    new object had been tagged; an error with the code 'NotFound' ends
    the function there, any other error is rethrown as a new one, and a
    success is followed by the tagging of the previous object. *)
Definition publish_post (t1 : S3Command) (previous : string * string)
    (c : Completion unit) (evs : list Event) : Prop :=
  match upload_failures evs with
  | [] => True
  | [(c0, e0)] =>
      c = Throw (surfaced c0 e0) /\ tag_writes evs = [] /\ head_replies evs = []
  | _ => False
  end
  /\ match head_replies evs with
     | [] => True
     | [(bucket, key, Some e)] =>
         (bucket, key) = previous
         /\ tag_writes evs = [t1]
         /\ if has_code e "NotFound"
            then c = Return tt
                 /\ exists evs0,
                      evs = (evs0 ++ [Done (S3Send (HeadObjectCommand bucket key))
                                        (Some e)])%list
            else c = Throw (new_Error "Unexpected error with HeadObject command")
     | [(bucket, key, None)] =>
         (bucket, key) = previous /\ exists t2, tag_writes evs = [t1; t2]
     | _ => False
     end.

(** What the last phase of uploadExtension leaves in the trace, from the
    head request on the previous object to the end. *)
Definition head_phase_post (previous : string * string)
    (c : Completion unit) (evs : list Event) : Prop :=
  upload_failures evs = []
  /\ match head_replies evs with
     | [(bucket, key, Some e)] =>
         (bucket, key) = previous
         /\ tag_writes evs = []
         /\ if has_code e "NotFound"
            then c = Return tt
                 /\ exists evs0,
                      evs = (evs0 ++ [Done (S3Send (HeadObjectCommand bucket key))
                                        (Some e)])%list
            else c = Throw (new_Error "Unexpected error with HeadObject command")
     | [(bucket, key, None)] =>
         (bucket, key) = previous /\ exists t2, tag_writes evs = [t2]
     | _ => False
     end.

Section PatchUploads.

Variable path_join : list string -> string.
Variable path_parse_ext : string -> string.
Variable patchDir : string.

(** The entries of the patch directory that are uploaded *)
Definition is_puff (file : string) : bool :=
  String.eqb (path_parse_ext (path_join [patchDir; file])) ".puff".

End PatchUploads.

(* ================================================================== *)
(** * An environment for examples *)

Module Example.

(** [path.join] without normalisation, [path.resolve] against a fixed
    working directory, and [path.parse] on the last dot of the base
    name. *)
Definition path_join (l : list string) : string :=
  match JSString.join "/" l with
  | EmptyString => "."
  | s => s
  end.

Definition path_resolve (p : string) : string := "/work/" ++ p.

Definition basename (p : string) : string :=
  List.last (JSString.split "/" p) EmptyString.

Definition stem_and_ext (p : string) : string * string :=
  let parts := JSString.split "." (basename p) in
  let stem := JSString.join "." (removelast parts) in
  match parts with
  | [] | [_] => (basename p, EmptyString)
  | _ => if String.eqb stem "" then (basename p, EmptyString)
         else (stem, "." ++ List.last parts EmptyString)
  end.

Definition path_parse_name (p : string) : string := fst (stem_and_ext p).
Definition path_parse_ext (p : string) : string := snd (stem_and_ext p).

Definition process_env (_ : string) : option string := None.

(** A base64 decoder for the standard alphabet: other characters are
    skipped and [=] ends the input. *)
Definition sextet (c : ascii) : option N :=
  let n := N_of_ascii c in
  if ((65 <=? n) && (n <=? 90))%N then Some (n - 65)%N
  else if ((97 <=? n) && (n <=? 122))%N then Some (n - 71)%N
  else if ((48 <=? n) && (n <=? 57))%N then Some (n + 4)%N
  else if (n =? 43)%N then Some 62%N
  else if (n =? 47)%N then Some 63%N
  else None.

Fixpoint sextets (s : string) : list N :=
  match s with
  | EmptyString => []
  | String c s' =>
      if Ascii.eqb c "=" then []
      else match sextet c with
           | Some v => v :: sextets s'
           | None => sextets s'
           end
  end.

Definition byte_of (n : N) : Byte.byte :=
  match Byte.of_N (n mod 256) with
  | Some b => b
  | None => Byte.x00
  end.

Fixpoint octets (l : list N) : list Byte.byte :=
  match l with
  | a :: b :: c :: d :: rest =>
      byte_of (a * 4 + b / 16) :: byte_of (b * 16 + c / 4)
        :: byte_of (c * 64 + d) :: octets rest
  | [a; b; c] => [byte_of (a * 4 + b / 16); byte_of (b * 16 + c / 4)]
  | [a; b] => [byte_of (a * 4 + b / 16)]
  | _ => []
  end%N.

Definition base64_decode (s : string) : list Byte.byte := octets (sextets s).

(** The world: the number of calls answered so far, and whether the
    object store rejects patches. *)
Record World : Type := { calls : nat; rejects_patches : bool }.

Definition next (w : World) : World :=
  {| calls := S (calls w); rejects_patches := rejects_patches w |}.

(** The error of the S3 client for a head request on an object that
    does not exist: its name is 'NotFound' and it has no code. *)
Definition not_found : Error :=
  {| name := "NotFound"; message := "UnknownError"; code := None |}.

Definition access_denied : Error :=
  {| name := "AccessDenied"; message := "Access Denied"; code := None |}.

Definition reply_to (c : Call) (w : World) : Reply c :=
  match c return Reply c with
  | Fetch _ =>
      if (calls w <? 2)%nat
      then Failed {| name := "FetchError"; message := "socket hang up";
                     code := Some "ECONNRESET" |}
      else Ok {| status := 200; statusText := "OK"; text := Ok "list" |}
  | MkdirpSync _ => Ok tt
  | Unzip _ _ => Ok tt
  | ReadManifest _ =>
      Ok {| manifest_key := "AAEC"; manifest_version := "1.0.2";
            manifest_name := "Example" |}
  | ReadFileSync _ => Ok (list_byte_of_string "crx")
  | ExistsSync _ => true
  | RmSync _ => Ok tt
  | ReaddirSync dir =>
      if String.prefix "build/previous/" dir
      then Ok ["extension_1_0_0.crx"; "notes.txt"; "extension_1_0_1.crx"]
      else Ok ["a.puff"; "b.puff"]
  | SpawnSync _ args =>
      if existsb (String.eqb "/work/build/previous/abc/extension_1_0_0.crx") args
      then Some {| name := "Error"; message := "spawnSync puffin ENOENT";
                   code := Some "ENOENT" |}
      else None
  | ReadFile _ => Ok []
  | S3Send (PutObjectCommand params) =>
      if rejects_patches w && String.eqb (ContentType params) "application/octet-stream"
      then Failed access_denied
      else Ok tt
  | S3Send (PutObjectTaggingCommand _ _ _) => Ok tt
  | S3Send (HeadObjectCommand _ _) => Failed not_found
  end.

Definition oracle (c : Call) (w : World) : Reply c * World :=
  (reply_to c w, next w).

Definition start (rejects : bool) : State World :=
  init {| calls := 0; rejects_patches := rejects |}.

End Example.

(* ================================================================== *)
(** * More of util.js *)

(** getPreviousVersion with [diff = 1], then incrementVersion *)
Definition decrementThenIncrement (v : string) : res string :=
  let* w := getPreviousVersion v 1 in
  incrementVersion w.

(** The hexadecimal digit a letter from 'a' to 'p' stands for in a
    component identity; other characters stand for themselves. *)
Definition digit_of_letter (c : ascii) : ascii :=
  match String.get (Z.to_nat (JSString.indexOf c "abcdefghijklmnop"))
          "0123456789abcdef" with
  | Some d => if JSString.indexOf c "abcdefghijklmnop" <? 0 then c else d
  | None => c
  end.

(** ** escapeStringForJSON *)

Module JSON.

Definition quote : ascii := ascii_of_nat 34.
Definition backslash : ascii := ascii_of_nat 92.

(** QuoteJSONString on one code unit below 256 (ECMA-262, 25.5.2.3): the
    short escapes, [\u00xx] for the other control characters, and the
    character itself otherwise. *)
Definition QuoteJSONChar (c : ascii) : string :=
  let n := nat_of_ascii c in
  if (n =? 8)%nat then "\b"
  else if (n =? 9)%nat then "\t"
  else if (n =? 10)%nat then "\n"
  else if (n =? 12)%nat then "\f"
  else if (n =? 13)%nat then "\r"
  else if (n =? 34)%nat then String backslash (String quote EmptyString)
  else if (n =? 92)%nat then String backslash (String backslash EmptyString)
  else if (n <? 32)%nat then
    "\u00" ++ String (SHA256.hex_char (Z.of_nat n / 16))
                (String (SHA256.hex_char (Z.of_nat n)) EmptyString)
  else String c EmptyString.

Fixpoint QuoteJSONChars (s : string) : string :=
  match s with
  | EmptyString => EmptyString
  | String c s' => QuoteJSONChar c ++ QuoteJSONChars s'
  end.

(** [JSON.stringify(str)] for a string *)
Definition stringify (str : string) : string :=
  String quote (QuoteJSONChars str ++ String quote EmptyString).

Fixpoint drop_last (s : string) : string :=
  match s with
  | EmptyString => EmptyString
  | String c EmptyString => EmptyString
  | String c s' => String c (drop_last s')
  end.

(** [s.slice(1, -1)] *)
Definition slice_1_minus_1 (s : string) : string :=
  match s with
  | EmptyString => EmptyString
  | String _ s' => drop_last s'
  end.

Definition hex_value (c : ascii) : option nat :=
  let n := nat_of_ascii c in
  if ((48 <=? n) && (n <=? 57))%nat then Some (n - 48)%nat
  else if ((97 <=? n) && (n <=? 102))%nat then Some (n - 87)%nat
  else if ((65 <=? n) && (n <=? 70))%nat then Some (n - 55)%nat
  else None.

(** The characters of a JSON string literal, without its quotes, read as
    [JSON.parse] reads them (ECMA-404, section 9): an escape stands for
    its character, a quote or a control character may not appear
    unescaped. Code units from 256 on are outside the embedding. *)
Fixpoint unescape (s : string) : option string :=
  match s with
  | EmptyString => Some EmptyString
  | String c s' =>
      if Ascii.eqb c backslash then
        match s' with
        | EmptyString => None
        | String e s'' =>
            if Ascii.eqb e quote then option_map (String quote) (unescape s'')
            else if Ascii.eqb e backslash then option_map (String backslash) (unescape s'')
            else if Ascii.eqb e "/" then option_map (String "/"%char) (unescape s'')
            else if Ascii.eqb e "b" then option_map (String (ascii_of_nat 8)) (unescape s'')
            else if Ascii.eqb e "f" then option_map (String (ascii_of_nat 12)) (unescape s'')
            else if Ascii.eqb e "n" then option_map (String (ascii_of_nat 10)) (unescape s'')
            else if Ascii.eqb e "r" then option_map (String (ascii_of_nat 13)) (unescape s'')
            else if Ascii.eqb e "t" then option_map (String (ascii_of_nat 9)) (unescape s'')
            else if Ascii.eqb e "u" then
              match s'' with
              | String h1 (String h2 (String h3 (String h4 rest))) =>
                  match hex_value h1, hex_value h2, hex_value h3, hex_value h4 with
                  | Some O, Some O, Some a, Some b =>
                      option_map (String (ascii_of_nat (16 * a + b))) (unescape rest)
                  | _, _, _, _ => None
                  end
              | _ => None
              end
            else None
        end
      else if Ascii.eqb c quote || (nat_of_ascii c <? 32)%nat then None
      else option_map (String c) (unescape s')
  end.

End JSON.

(** util.js, escapeStringForJSON, on a string (for another value it
    throws):
<<
  return JSON.stringify(str).slice(1, -1)
>> *)
Definition escapeStringForJSON (str : string) : string :=
  JSON.slice_1_minus_1 (JSON.stringify str).

(** A character that JSON.stringify leaves as it is *)
Definition is_plain_json_char (c : ascii) : bool :=
  let n := nat_of_ascii c in
  (32 <=? n)%nat && negb (n =? 34)%nat && negb (n =? 92)%nat.

(** The error an attempt is rejected with when the response has a
    status other than 200 *)
Definition status_error (listURL : string) (response : Response) : Error :=
  new_Error ("Error when fetching " ++ listURL ++ ": "
             ++ "Error status " ++ JSNumber.Z_to_string (status response)
             ++ " " ++ statusText response
             ++ " returned for URL: " ++ listURL).

(** A server that has moved the list: every fetch is answered with 404.
    The other calls are answered as in [Example]. *)
Module Moved.

Definition response : Response :=
  {| status := 404; statusText := "Not Found"; text := Ok "gone" |}.

Definition reply_to (c : Call) (w : Example.World) : Reply c :=
  match c as c0 return Reply c0 -> Reply c0 with
  | Fetch _ => fun _ => Ok response
  | _ => fun r => r
  end (Example.reply_to c w).

Definition oracle (c : Call) (w : Example.World) : Reply c * Example.World :=
  (reply_to c w, Example.next w).

End Moved.

(** ** More on uploadExtension *)

(** The directory listings that completed, each with its error *)
Fixpoint readdir_replies (tr : list Event) : list (string * option Error) :=
  match tr with
  | [] => []
  | Done (ReaddirSync dir) err :: tr' => (dir, err) :: readdir_replies tr'
  | _ :: tr' => readdir_replies tr'
  end.

(** The command that tags the object of the previous version: the
    component-name tag with the previous version, and nothing else *)
Definition previousObjectTagging (process_env : string -> option string)
    (name id previousVersion : string) : S3Command :=
  let componentNameTag :=
    JSString.replace_chars (fun c => negb (is_tag_char c)) (fun _ => "")
      (JSString.replace_chars JSString.is_space (fun _ => "-") name) in
  PutObjectTaggingCommand (S3_EXTENSIONS_BUCKET process_env)
    ("release/" ++ id ++ "/" ++ "extension_"
       ++ dots_to_underscores previousVersion ++ ".crx")
    [(componentNameTag, previousVersion)].

(** A phase that only reads files and puts objects *)
Definition uploads_only {A : Type} (jobs : list Job) (c : Completion A)
    (evs : list Event) : Prop :=
  c <> Stuck
  /\ tag_writes evs = [] /\ head_replies evs = [] /\ readdir_replies evs = []
  /\ (jobs = [] -> puts_sent evs = [] /\ exists a, c = Return a).

(** The end of uploadExtension, from the tagging of the new object on:
    [t1] is sent first; when the head request succeeds [t2] follows, and
    the only error thrown after that is the one of a failed tagging. *)
Definition tagging_post (t1 t2 : S3Command) (c : Completion unit)
    (evs : list Event) : Prop :=
  (tag_writes evs = [t1] \/ tag_writes evs = [t1; t2])
  /\ readdir_replies evs = [] /\ puts_sent evs = []
  /\ match head_replies evs with
     | [] | [(_, _, Some _)] => True
     | [(_, _, None)] =>
         tag_writes evs = [t1; t2]
         /\ (c = Return tt \/ c = Throw (new_Error "Failed to upload extension to S3"))
     | _ => False
     end.

(** uploadExtension, seen from the listing of the patch directory, from
    the head request and from its fulfilment. [t1] and [t2] are the
    tagging commands for the new and for the previous object, [mainKey]
    the key of the new object. *)
Definition retag_post (t1 t2 : S3Command) (patchDir mainKey : string)
    (c : Completion unit) (evs : list Event) : Prop :=
  match head_replies evs with
  | [] | [(_, _, Some _)] => True
  | [(_, _, None)] =>
      tag_writes evs = [t1; t2]
      /\ (c = Return tt \/ c = Throw (new_Error "Failed to upload extension to S3"))
  | _ => False
  end
  /\ match readdir_replies evs with
     | [] => tag_writes evs = [] /\ head_replies evs = [] /\ c <> Return tt
     | [(dir, None)] => dir = patchDir
     | [(dir, Some err)] =>
         dir = patchDir /\ puts_sent evs = [mainKey]
         /\ if has_code err "ENOENT"
            then exists rest, tag_writes evs = t1 :: rest
            else c = Throw err /\ tag_writes evs = [] /\ head_replies evs = []
     | _ => False
     end
  /\ (c = Return tt ->
      (exists rest, puts_sent evs = mainKey :: rest)
      /\ (tag_writes evs = [t1] \/ tag_writes evs = [t1; t2])).

(** Variants of the example environment: the object of the previous
    version exists, the patch directory is missing, or it may not be
    read. *)
Module Variant.

Inductive Scenario : Type := PreviousExists | NoPatchDirectory | PatchDirectoryDenied.

Definition no_entry : Error :=
  {| name := "Error"; message := "ENOENT: no such file or directory, scandir";
     code := Some "ENOENT" |}.

Definition denied : Error :=
  {| name := "Error"; message := "EACCES: permission denied, scandir";
     code := Some "EACCES" |}.

Definition reply_to (s : Scenario) (c : Call) (w : Example.World) : Reply c :=
  match c as c0 return Reply c0 -> Reply c0 with
  | ReaddirSync _ =>
      fun r => match s with
               | NoPatchDirectory => Failed no_entry
               | PatchDirectoryDenied => Failed denied
               | PreviousExists => r
               end
  | S3Send cmd =>
      fun r => match cmd, s with
               | HeadObjectCommand _ _, PreviousExists => Ok tt
               | _, _ => r
               end
  | _ => fun r => r
  end (Example.reply_to c w).

Definition oracle (s : Scenario) (c : Call) (w : Example.World)
  : Reply c * Example.World :=
  (reply_to s c w, Example.next w).

End Variant.

(** ** The comments of a manifest *)

(** The characters that [.] does not match, among the code units below
    256: line feed and carriage return *)
Definition is_line_terminator (c : ascii) : bool :=
  ((nat_of_ascii c =? 10) || (nat_of_ascii c =? 13))%nat.

(** util.js, parseManifest, the replacement on the text of the file:
<<
  .replace(/\/\/#.*/g, '')
>>
    [in_comment] holds inside a match, up to the end of the line. *)
Fixpoint strip_from (in_comment : bool) (s : string) : string :=
  match s with
  | EmptyString => EmptyString
  | String c s' =>
      if in_comment then
        if is_line_terminator c then String c (strip_from false s')
        else strip_from true s'
      else
        match c, s' with
        | "/"%char, String "/"%char (String "#"%char rest) => strip_from true rest
        | _, _ => String c (strip_from false s')
        end
  end.

Definition strip_comments (json : string) : string := strip_from false json.

(** [s.includes('//#')] *)
Fixpoint has_marker (s : string) : bool :=
  match s with
  | EmptyString => false
  | String c s' => String.prefix "//#" s || has_marker s'
  end.

(** A line up to its first [//#] *)
Fixpoint cut_at_marker (line : string) : string :=
  match line with
  | EmptyString => EmptyString
  | String c s' =>
      if String.prefix "//#" line then EmptyString
      else String c (cut_at_marker s')
  end.

(* ================================================================== *)
(** * The rest of the environment *)

(** What [fs.statSync] gives, as far as the code reads it *)
Record Stats : Type := { isDirectory : bool; size : Z }.

(** The calls of the functions below that the publisher and the patch
    generator do not make. *)
Inductive SysCall : Type :=
| ExecSync (command : string)              (* childProcess.execSync *)
| RenameSync (oldPath newPath : string)    (* fs.renameSync *)
| CopyFileSync (src dest : string)         (* fs.copyFileSync *)
| CopySync (src dest : string)             (* fs.copySync of fs-extra *)
| ReplaceSync (files to : string)          (* replace.sync, from /0\.0\.0/ *)
| StatSync (path : string)                 (* fs.statSync *)
| TmpFileSync                              (* tmp.fileSync({ keep: true, tmpdir: '.' }) *)
| GetObject (bucket key : string)          (* s3Client.send(new GetObjectCommand) *)
| Pipeline (key tmpPath : string)          (* the body of the object, written to the file *)
| PutItemSend (item : Item).               (* dynamodb.send(new PutItemCommand) *)

Definition SysReply (c : SysCall) : Type :=
  match c with
  | StatSync _ => outcome Stats
  | TmpFileSync => outcome string
  | _ => outcome unit
  end.

Definition sys_error (c : SysCall) : SysReply c -> option Error :=
  match c return SysReply c -> option Error with
  | ExecSync _ => outcome_error
  | RenameSync _ _ => outcome_error
  | CopyFileSync _ _ => outcome_error
  | CopySync _ _ => outcome_error
  | ReplaceSync _ _ => outcome_error
  | StatSync _ => outcome_error
  | TmpFileSync => outcome_error
  | GetObject _ _ => outcome_error
  | Pipeline _ _ => outcome_error
  | PutItemSend _ => outcome_error
  end.

Inductive SysEvent : Type :=
| Issued (c : SysCall)                       (* an asynchronous call is issued *)
| Completed (c : SysCall) (err : option Error). (* a call completes *)

(** The world of these functions: a world of the calls above it, and the
    record of the calls made. *)
Record Sys (World : Type) : Type := { inner : World; syslog : list SysEvent }.
Arguments inner {World} s.
Arguments syslog {World} s.

(** An entry of the list given to stageFiles: [{ path, outputName }] *)
Record StagedFile : Type := { path : string; outputName : option string }.

Section Tools.

Variable World : Type.
Variable oracle : forall c : Call, World -> Reply c * World.
Variable sys_oracle : forall c : SysCall, World -> SysReply c * World.

Variable path_join : list string -> string.
Variable path_resolve : string -> string.
Variable path_parse_base : string -> string.

(** The TypeError that [path.resolve] throws for [undefined] *)
Variable resolve_undefined : Error.

(** [JSON.stringify(files)] *)
Variable stringify_files : list StagedFile -> string.

Local Abbreviation M := (M (Sys World)).

(** The calls of [Call] leave the record of the other calls alone. *)
Definition lifted (c : Call) (s : Sys World) : Reply c * Sys World :=
  let '(r, w) := oracle c (inner s) in
  (r, {| inner := w; syslog := syslog s |}).

Definition sys_issue (c : SysCall) : M unit :=
  fun st =>
    (Return tt,
     {| world := {| inner := inner (world st);
                    syslog := syslog (world st) ++ [Issued c] |};
        trace := trace st |}).

(** The environment completes a call; the error of the reply is
    recorded. *)
Definition sys (c : SysCall) : M (SysReply c) :=
  fun st =>
    let '(r, w) := sys_oracle c (inner (world st)) in
    (Return r,
     {| world := {| inner := w;
                    syslog := syslog (world st) ++ [Completed c (sys_error c r)] |};
        trace := trace st |}).

Definition sys_await (c : SysCall) : M (SysReply c) := sys_issue c ;; sys c.

(** [!x] on an optional string: [undefined] and the empty string are
    falsy. *)
Definition falsy (x : option string) : bool :=
  match x with
  | Some s => negb (truthy s)
  | None => true
  end.

(** A template literal on an optional string *)
Definition to_text (x : option string) : string :=
  match x with
  | Some s => s
  | None => "undefined"
  end.

(** [path.resolve(x)] *)
Definition resolve (x : option string) : M string :=
  match x with
  | Some s => ret (path_resolve s)
  | None => throw resolve_undefined
  end.

(** util.js, generateCRXFile. A parameter that a caller may leave out is
    an optional string. *)
Definition generateCRXFile (binary : option string) (crxFile privateKeyFile : string)
    (publisherProofKey inputDir : option string) : M unit :=
  if falsy binary then throw (new_Error "Missing Brave binary: --binary")
  else if falsy publisherProofKey
  then throw (new_Error "Missing --publisher-proof-key <file>")
  else
    do exists_ <- call (Sys World) lifted (ExistsSync (path_resolve privateKeyFile));
    if negb exists_
    then throw (new_Error ("Private key file '" ++ privateKeyFile
                           ++ "' is missing, was it uploaded?"))
    else
      do packExtension <- resolve inputDir;
      do publisherKey <- resolve publisherProofKey;
      let args := ["--pack-extension=" ++ packExtension;
                   "--pack-extension-key=" ++ path_resolve privateKeyFile;
                   "--brave-extension-publisher-key=" ++ publisherKey] in
      let originalOutput := to_text inputDir ++ ".crx" in
      do r <- sys (ExecSync (to_text binary ++ " " ++ JSString.join " " args));
      of_outcome r ;;
      do r <- sys (RenameSync originalOutput crxFile);
      of_outcome r.

(** The command line of the packer for an input directory and two
    keys *)
Definition pack_command (binary inputDir privateKeyFile publisherProofKey : string)
  : string :=
  binary ++ " "
  ++ JSString.join " "
       ["--pack-extension=" ++ path_resolve inputDir;
        "--pack-extension-key=" ++ path_resolve privateKeyFile;
        "--brave-extension-publisher-key=" ++ path_resolve publisherProofKey].

(** util.js, copyManifestWithVersion *)
Definition copyManifestWithVersion (originalLocation outputDir version : string)
  : M unit :=
  let outputLocation := path_join [outputDir; "manifest.json"] in
  do r <- sys (CopyFileSync originalLocation outputLocation);
  of_outcome r ;;
  do r <- sys (ReplaceSync outputLocation version);
  of_outcome r.

(** util.js, stageDir *)
Definition stageDir (resourceDir manifestTemplateLocation version outputDir : string)
  : M unit :=
  do r <- sys (CopySync resourceDir outputDir);
  of_outcome r ;;
  copyManifestWithVersion manifestTemplateLocation outputDir version.

(** The name a staged file gets: [outputName], or the base name of its
    path *)
Definition staged_name (f : StagedFile) : string :=
  match outputName f with
  | Some n => n
  | None => path_parse_base (path f)
  end.

Definition is_manifest (f : StagedFile) : bool :=
  String.eqb (staged_name f) "manifest.json".

(** The loop of stageFiles; the result is [hasManifest]. *)
Fixpoint stageEach (files : list StagedFile) (version outputDir : string)
    (hasManifest : bool) : M bool :=
  match files with
  | [] => ret hasManifest
  | f :: rest =>
      if is_manifest f then
        copyManifestWithVersion (path f) outputDir version ;;
        stageEach rest version outputDir true
      else
        do r <- sys (CopyFileSync (path f) (path_join [outputDir; staged_name f]));
        of_outcome r ;;
        stageEach rest version outputDir hasManifest
  end.

(** util.js, stageFiles *)
Definition stageFiles (files : list StagedFile) (version outputDir : string)
  : M unit :=
  do r <- call (Sys World) lifted (MkdirpSync outputDir);
  of_outcome r ;;
  do hasManifest <- stageEach files version outputDir false;
  if negb hasManifest
  then throw (new_Error ("Missing manifest.json in output files: "
                         ++ stringify_files files))
  else ret tt.

(** The calls that stage one file *)
Definition staging_of (version outputDir : string) (f : StagedFile)
  : list SysCall :=
  if is_manifest f
  then [CopyFileSync (path f) (path_join [outputDir; "manifest.json"]);
        ReplaceSync (path_join [outputDir; "manifest.json"]) version]
  else [CopyFileSync (path f) (path_join [outputDir; staged_name f])].

End Tools.

(** An environment for examples of these functions: every call succeeds,
    the objects of versions before 1.0.0 do not exist. *)
Module ExampleSys.

Definition no_such_key : Error :=
  {| name := "NoSuchKey"; message := "The specified key does not exist.";
     code := None |}.

Definition reply_to (c : SysCall) (w : Example.World) : SysReply c :=
  match c return SysReply c with
  | StatSync _ => Ok {| isDirectory := true; size := 42 |}
  | TmpFileSync => Ok "tmp-1-abc.tmp"
  | GetObject _ key =>
      if String.eqb key "release/abc/extension_1_0_-1.crx"
      then Failed no_such_key
      else Ok tt
  | ExecSync _ => Ok tt
  | RenameSync _ _ => Ok tt
  | CopyFileSync _ _ => Ok tt
  | CopySync _ _ => Ok tt
  | ReplaceSync _ _ => Ok tt
  | Pipeline _ _ => Ok tt
  | PutItemSend _ => Ok tt
  end.

Definition sys_oracle (c : SysCall) (w : Example.World)
  : SysReply c * Example.World :=
  (reply_to c w, Example.next w).

Definition path_parse_base (p : string) : string := Example.basename p.

Definition resolve_undefined : Error :=
  {| name := "TypeError";
     message := "The arguments must be of type string. Received undefined";
     code := Some "ERR_INVALID_ARG_TYPE" |}.

(** [JSON.stringify] on a list of objects with the properties [path] and
    [outputName]; a property that is [undefined] is left out. *)
Definition stringify_file (f : StagedFile) : string :=
  "{" ++ JSON.stringify "path" ++ ":" ++ JSON.stringify (path f)
  ++ match outputName f with
     | Some n => "," ++ JSON.stringify "outputName" ++ ":" ++ JSON.stringify n
     | None => ""
     end
  ++ "}".

Definition stringify_files (files : list StagedFile) : string :=
  "[" ++ JSString.join "," (map stringify_file files) ++ "]".

Definition start : State (Sys Example.World) :=
  init {| inner := {| Example.calls := 0; Example.rejects_patches := false |};
          syslog := [] |}.

End ExampleSys.

(* ================================================================== *)
(** * The previous versions *)

(** A download in flight. downloadFileFromS3 is an async function: an
    exception before its first [await] rejects its promise at once; the
    rest runs when the object store has answered, and again when the body
    has been written. *)
Inductive Download : Type :=
| Rejected (e : Error)
| Requested (key outputPath : string) (hashAsFilename : bool)
| Piping (key outputPath : string) (hashAsFilename : bool) (tmpPath : string)
| Settled.

(** The GetObject commands issued, in order *)
Fixpoint gets_issued (log : list SysEvent) : list (string * string) :=
  match log with
  | [] => []
  | Issued (GetObject bucket key) :: log' => (bucket, key) :: gets_issued log'
  | _ :: log' => gets_issued log'
  end.


Section Downloads.

Variable World : Type.
Variable oracle : forall c : Call, World -> Reply c * World.
Variable sys_oracle : forall c : SysCall, World -> SysReply c * World.

Variable path_join : list string -> string.
Variable path_parse_name : string -> string.
Variable process_env : string -> option string.
Variable base64_decode : string -> list Byte.byte.

(** [err.name] *)
Variable error_name : Error -> string.

Local Abbreviation M := (M (Sys World)).
Local Abbreviation lifted' := (lifted World oracle).
Local Abbreviation sys' := (sys World sys_oracle).
Local Abbreviation sys_issue' := (sys_issue World).
Local Abbreviation bucket := (S3_EXTENSIONS_BUCKET process_env).

(** The handler of downloadFileFromS3:
<<
  if (err.name === 'NoSuchKey') {
    console.error(`Failed to download ${key}, object does not exist.`)
  } else throw err
>> *)
Definition missing_or_rethrow (key : string) (err : Error) : M Download :=
  if String.eqb (error_name err) "NoSuchKey" then
    console_error [LStr ("Failed to download " ++ key
                         ++ ", object does not exist.")] ;;
    ret Settled
  else throw err.

(** The call [downloadFileFromS3(key, outputPath, hashAsFilename)], up to
    its first [await] *)
Definition downloadFileFromS3_call (key outputPath : string)
    (hashAsFilename : bool) : M Download :=
  if hashAsFilename then
    do r <- sys' (StatSync outputPath);
    match r with
    | Failed e => ret (Rejected e)
    | Ok stats =>
        if negb (isDirectory stats)
        then ret (Rejected (new_Error
               "Output path must be a directory when hashAsFilename is true"))
        else
          sys_issue' (GetObject bucket key) ;;
          ret (Requested key outputPath hashAsFilename)
    end
  else
    sys_issue' (GetObject bucket key) ;;
    ret (Requested key outputPath hashAsFilename).

(** One completion of a pending download. A [Throw] is the rejection of
    the download's promise. *)
Definition download_step (j : Download) : M Download :=
  match j with
  | Rejected e => throw e
  | Requested key outputPath hashAsFilename =>
      do r <- sys' (GetObject bucket key);
      match r with
      | Failed err => missing_or_rethrow key err
      | Ok _ =>
          do t <- sys' TmpFileSync;
          match t with
          | Failed err => missing_or_rethrow key err
          | Ok tmpPath =>
              sys_issue' (Pipeline key tmpPath) ;;
              ret (Piping key outputPath hashAsFilename tmpPath)
          end
      end
  | Piping key outputPath hashAsFilename tmpPath =>
      catch
        (do r <- sys' (Pipeline key tmpPath);
         of_outcome r ;;
         (if hashAsFilename then
            do hash <- generateSHA256HashOfFile (Sys World) lifted' tmpPath;
            do r <- sys' (RenameSync tmpPath (outputPath ++ "/" ++ hash ++ ".crx"));
            of_outcome r
          else
            do r <- sys' (RenameSync tmpPath outputPath);
            of_outcome r) ;;
         console_log [LStr ("Downloaded " ++ key)] ;;
         ret Settled)
        (missing_or_rethrow key)
  | Settled => ret Settled
  end.

(** The remaining completions of one download, in a row *)
Definition finish_download (j : Download) : M unit :=
  do j1 <- download_step j;
  do j2 <- download_step j1;
  ret tt.

(** [await downloadFileFromS3(key, outputPath, hashAsFilename)] *)
Definition downloadFileFromS3 (key outputPath : string) (hashAsFilename : bool)
  : M unit :=
  do j <- downloadFileFromS3_call key outputPath hashAsFilename;
  finish_download j.

(** The first promise that is rejected when [Promise.all] subscribes *)
Fixpoint first_rejected (jobs : list Download) : option Error :=
  match jobs with
  | [] => None
  | Rejected e :: _ => Some e
  | _ :: rest => first_rejected rest
  end.

(** The completions arrive in the order of [sched], a list of job
    indices; when it is used up, the remaining downloads complete one
    after the other. *)
Fixpoint settle_downloads (sched : list nat) (jobs : list Download) : M unit :=
  match sched with
  | [] => forEach (Sys World) finish_download jobs
  | i :: sched' =>
      match jobs !! i with
      | Some j =>
          do j' <- download_step j;
          settle_downloads sched' (<[i := j']> jobs)
      | None => settle_downloads sched' jobs
      end
  end.

(** [Promise.all(downloadJobs)]: a promise that is rejected already
    rejects it before any completion arrives. *)
Definition Promise_all_downloads (sched : list nat) (jobs : list Download)
  : M unit :=
  match first_rejected jobs with
  | Some e => throw e
  | None => settle_downloads sched jobs
  end.

(** The key of a version of a component *)
Definition release_key (id version : string) : string :=
  "release/" ++ id ++ "/" ++ "extension_" ++ dots_to_underscores version ++ ".crx".

(** The loop of fetchPreviousVersions, from [i + 1 = diff] on, with
    [count] rounds to go *)
Fixpoint startDownloads (id version downloadDir : string) (diff : Z)
    (count : nat) : M (list Download) :=
  match count with
  | O => ret []
  | S count' =>
      do previous <- of_res (getPreviousVersion version diff);
      let previousComponentFilename :=
        "extension_" ++ dots_to_underscores previous ++ ".crx" in
      console_log [LStr ("Downloading " ++ previousComponentFilename)] ;;
      do j <- downloadFileFromS3_call
                ("release/" ++ id ++ "/" ++ previousComponentFilename)
                downloadDir true;
      do jobs <- startDownloads id version downloadDir (diff + 1) count';
      ret (j :: jobs)
  end.

(** util.js, fetchPreviousVersions. [num] is a count; [sched] is the
    order in which the pending downloads complete. *)
Definition fetchPreviousVersions (sched : list nat) (crxFile : string)
    (componentId : option string) (num : nat) : M unit :=
  let unzipDir := path_join ["build"; "unzip"; path_parse_name crxFile] in
  do r <- call (Sys World) lifted' (MkdirpSync unzipDir);
  of_outcome r ;;
  do r <- await (Sys World) lifted' (Unzip crxFile unzipDir);
  of_outcome r ;;
  do data <- parseManifest (Sys World) lifted' (path_join [unzipDir; "manifest.json"]);
  let id := or_else componentId
              (getIDFromBase64PublicKey base64_decode (manifest_key data)) in
  let version := manifest_version data in
  let downloadDir := "build/previous/" ++ id in
  recreateDirectory (Sys World) lifted' downloadDir ;;
  do downloadJobs <- startDownloads id version downloadDir 1 num;
  catch
    (Promise_all_downloads sched downloadJobs ;;
     console_log [LStr "All files have been downloaded successfully."])
    (fun err =>
       console_error [LStr "An error occurred during the downloads:"; LErr err] ;;
       throw err).

(** The versions before [version], from [diff] back, [count] of them *)
Fixpoint previous_versions (version : string) (diff : Z) (count : nat)
  : res (list string) :=
  match count with
  | O => Val []
  | S count' =>
      let* previous := getPreviousVersion version diff in
      let* rest := previous_versions version (diff + 1) count' in
      Val (previous :: rest)
  end.

End Downloads.

(** [sys_post m Q]: from every state, [m] extends the record of the
    calls by some events [evs] and completes with [c] such that
    [Q c evs]. *)
Definition sys_post {World A : Type} (m : M (Sys World) A)
    (Q : Completion A -> list SysEvent -> Prop) : Prop :=
  forall st, exists evs,
    syslog (world (snd (m st))) = (syslog (world st) ++ evs)%list
    /\ Q (fst (m st)) evs.

(** The calls to the file system that fetchPreviousVersions makes before
    its loop and when it names a download by its hash *)
Definition is_setup_call (c : Call) : bool :=
  match c with
  | MkdirpSync _ | Unzip _ _ | ReadManifest _ | ReadFileSync _ | RmSync _ => true
  | _ => false
  end.

Definition is_rejected (j : Download) : bool :=
  match j with
  | Rejected _ => true
  | _ => false
  end.

Definition is_get_object (c : SysCall) : bool :=
  match c with
  | GetObject _ _ => true
  | _ => false
  end.

(* ================================================================== *)
(** * The record of a CRX file *)

(** The items put into the table, in order *)
Fixpoint items_put (log : list SysEvent) : list Item :=
  match log with
  | [] => []
  | Issued (PutItemSend item) :: log' => item :: items_put log'
  | _ :: log' => items_put log'
  end.

Section Ledger.

Variable World : Type.
Variable oracle : forall c : Call, World -> Reply c * World.
Variable sys_oracle : forall c : SysCall, World -> SysReply c * World.

Variable path_join : list string -> string.
Variable path_parse_name : string -> string.
Variable path_parse_ext : string -> string.
Variable base64_decode : string -> list Byte.byte.

Local Abbreviation M := (M (Sys World)).
Local Abbreviation lifted' := (lifted World oracle).
Local Abbreviation sys' := (sys World sys_oracle).

(** The entry of getDiffPatchList for a directory entry: its key and its
    value, or nothing when the entry is no [.puff] file.
<<
  patchList[parsedPath.name] = { M: {
    Namediff: { S: file },
    Hashdiff: { S: generateSHA256HashOfFile(fullPath) },
    Sizediff: { N: fs.statSync(fullPath).size.toString() } } }
>> *)
Definition patchEntry (patchDir file : string) : M (option (string * PatchInfo)) :=
  let fullPath := path_join [patchDir; file] in
  if String.eqb (path_parse_ext fullPath) ".puff" then
    do hash <- generateSHA256HashOfFile (Sys World) lifted' fullPath;
    do r <- sys' (StatSync fullPath);
    do stats <- of_outcome r;
    do n <- of_res (JSNumber.of_Z (size stats));
    ret (Some (path_parse_name fullPath,
               {| Namediff := file; Hashdiff := hash;
                  Sizediff := JSNumber.ToString n |}))
  else ret None.

(** The loop of getDiffPatchList. [patchList] is the object filled so
    far; an exception ends the loop and leaves the object as it is. The
    result is the object and the exception, if any. *)
Fixpoint collectPatches (patchDir : string) (files : list string)
    (patchList : gmap string PatchInfo)
  : M (gmap string PatchInfo * option Error) :=
  match files with
  | [] => ret (patchList, None)
  | file :: rest =>
      do r <- catch (do entry <- patchEntry patchDir file; ret (Ok entry))
                    (fun err => ret (Failed err));
      match r with
      | Failed err => ret (patchList, Some err)
      | Ok (Some (name, info)) =>
          collectPatches patchDir rest (<[name := info]> patchList)
      | Ok None => collectPatches patchDir rest patchList
      end
  end.

(** util.js, getDiffPatchList *)
Definition getDiffPatchList (id hash : string) : M (gmap string PatchInfo) :=
  let patchDir := "build/patches/" ++ id ++ "/" ++ hash in
  do r <- call (Sys World) lifted' (ReaddirSync patchDir);
  do result <- match r with
               | Failed err => ret (∅, Some err)
               | Ok files => collectPatches patchDir files ∅
               end;
  match result with
  | (patchList, Some err) =>
      if has_code err "ENOENT" then
        console_log [LStr ("Directory " ++ patchDir
                           ++ " does not exist, no patches found.")] ;;
        ret patchList
      else throw err
  | (patchList, None) => ret patchList
  end.

(** util.js, updateDBForCRXFile. The item is the one of updateDynamoDB,
    with [disabled = false]. *)
Definition updateDBForCRXFile (crxFile : string) (componentId contentHash : option string)
  : M unit :=
  let unzipDir := path_join ["build"; "unzip"; path_parse_name crxFile] in
  do r <- call (Sys World) lifted' (MkdirpSync unzipDir);
  of_outcome r ;;
  do r <- await (Sys World) lifted' (Unzip crxFile unzipDir);
  of_outcome r ;;
  do data <- parseManifest (Sys World) lifted' (path_join [unzipDir; "manifest.json"]);
  let id := or_else componentId
              (getIDFromBase64PublicKey base64_decode (manifest_key data)) in
  let version := manifest_version data in
  do hash <- generateSHA256HashOfFile (Sys World) lifted' crxFile;
  let name := manifest_name data in
  do patchList <- getDiffPatchList id hash;
  catch
    (do r <- sys_await World sys_oracle
               (PutItemSend
                  {| ID := id; SHA256 := hash; Version := version; Title := name;
                     Disabled := false;
                     ContentHash := option_map (fun h => {| S_ := Some h |}) contentHash;
                     PatchList := patchList |});
     of_outcome r ;;
     console_log [LStr ("Updated DB for " ++ crxFile ++ ", ID: " ++ id
                        ++ ", hash: " ++ hash ++ ", name: " ++ name)])
    (fun err =>
       console_log [LStr ("Updating DB for " ++ crxFile ++ " is failed.")] ;;
       throw err).

End Ledger.




(** The example environment where a patch file is removed while the
    list is filled: the stat of b.puff finds no file. *)
Module Vanished.

Definition no_entry : Error :=
  {| name := "Error";
     message := "ENOENT: no such file or directory, stat 'build/patches/abc/h4sh/b.puff'";
     code := Some "ENOENT" |}.

Definition reply_to (c : SysCall) (w : Example.World) : SysReply c :=
  match c as c0 return SysReply c0 -> SysReply c0 with
  | StatSync p =>
      fun r => if String.eqb p "build/patches/abc/h4sh/b.puff"
               then Failed no_entry else r
  | _ => fun r => r
  end (ExampleSys.reply_to c w).

Definition sys_oracle (c : SysCall) (w : Example.World)
  : SysReply c * Example.World :=
  (reply_to c w, Example.next w).

End Vanished.

(** An entry of the patch list that stands for a [.puff] file of the
    listing of [patchDir]: it is keyed by the name of the file without
    its extension, names the file, and holds a digest and a decimal
    size. *)
Definition patch_of (path_join : list string -> string)
    (path_parse_name path_parse_ext : string -> string)
    (patchDir : string) (files : list string)
    (name : string) (info : PatchInfo) : Prop :=
  In (Namediff info) files
  /\ path_parse_ext (path_join [patchDir; Namediff info]) = ".puff"
  /\ name = path_parse_name (path_join [patchDir; Namediff info])
  /\ String.length (Hashdiff info) = 64%nat
  /\ JSString.forallb is_lower_hex (Hashdiff info) = true
  /\ exists z, Sizediff info = JSNumber.Z_to_string z.




(* ================================================================== *)
(** * Publishing a CRX file *)

Section Publish.

Variable World : Type.
Variable oracle : forall c : Call, World -> Reply c * World.
Variable path_join : list string -> string.
Variable path_parse_name : string -> string.
Variable path_parse_ext : string -> string.
Variable process_env : string -> option string.
Variable base64_decode : string -> list Byte.byte.

(** util.js, uploadCRXFile. Its parameters [endpoint] and [region] are
    not used. [sched] is the order in which the patch uploads complete. *)
Definition uploadCRXFile (sched : list nat) (crxFile : string)
    (componentId : option string) : M World unit :=
  let unzipDir := path_join ["build"; "unzip"; path_parse_name crxFile] in
  do r <- call World oracle (MkdirpSync unzipDir);
  of_outcome r ;;
  do r <- await World oracle (Unzip crxFile unzipDir);
  of_outcome r ;;
  do data <- parseManifest World oracle (path_join [unzipDir; "manifest.json"]);
  let id := or_else componentId
              (getIDFromBase64PublicKey base64_decode (manifest_key data)) in
  let version := manifest_version data in
  do hash <- generateSHA256HashOfFile World oracle crxFile;
  let name := manifest_name data in
  catch
    (uploadExtension World oracle path_join path_parse_ext process_env
       sched name id version hash crxFile ;;
     console_log [LStr ("Uploaded " ++ crxFile)])
    (fun err =>
       console_log [LStr ("Uploading " ++ crxFile ++ " is failed.")] ;;
       throw err).

End Publish.
(* ================================================================== *)
(** * The embedding on known values *)

Example sha256_abc :
  generateSHA256Hash (list_byte_of_string "abc")
  = "ba7816bf8f01cfea414140de5dae2223b00361a396177a9cb410ff61f20015ad".
Proof. vm_compute. reflexivity. Qed.

Example sha256_empty :
  generateSHA256Hash []
  = "e3b0c44298fc1c149afbf4c8996fb92427ae41e4649b934ca495991b7852b855".
Proof. vm_compute. reflexivity. Qed.

Example sha256_two_blocks :
  generateSHA256Hash
    (list_byte_of_string "abcdbcdecdefdefgefghfghighijhijkijkljklmklmnlmnomnopnopq")
  = "248d6a61d20638b8e5c026930c3e6039a33ce45964ff2167f6ecedd419db06c1".
Proof. vm_compute. reflexivity. Qed.

Example incrementVersion_first : incrementVersion "1.0.0" = Val "1.0.1".
Proof. reflexivity. Qed.

Example incrementVersion_not_numeric : incrementVersion "1.0.x" = Val "1.0.NaN".
Proof. reflexivity. Qed.

Example incrementVersion_empty_segment : incrementVersion "1.0." = Val "1.0.1".
Proof. reflexivity. Qed.

Example incrementVersion_exponent : incrementVersion "1.0.1e3" = Unmodelled.
Proof. reflexivity. Qed.

Example incrementVersion_largest :
  incrementVersion "1.0.9007199254740991" = Val "1.0.9007199254740992"
  /\ incrementVersion "1.0.9007199254740992" = Unmodelled.
Proof. split; reflexivity. Qed.

Example getPreviousVersion_first : getPreviousVersion "1.0.0" 1 = Val "1.0.0".
Proof. reflexivity. Qed.

Example getPreviousVersion_second : getPreviousVersion "1.0.1" 1 = Val "1.0.0".
Proof. reflexivity. Qed.

(* ================================================================== *)
(** * Properties of strings and numerals *)

Lemma split_not_nil sep s : JSString.split sep s <> [].
Proof.
  destruct s as [|c s]; simpl; [discriminate|].
  destruct (Ascii.eqb c sep); [discriminate|].
  destruct (JSString.split sep s); discriminate.
Qed.

Lemma split_snoc sep s :
  exists pre last, JSString.split sep s = (pre ++ [last])%list.
Proof.
  destruct (exists_last (split_not_nil sep s)) as (pre & last & E).
  exists pre, last. exact E.
Qed.

Lemma split_no_sep sep s : Forall (no_char sep) (JSString.split sep s).
Proof.
  induction s as [|c s IH]; simpl.
  - constructor; [reflexivity|constructor].
  - destruct (Ascii.eqb c sep) eqn:E.
    + constructor; [reflexivity|exact IH].
    + destruct (JSString.split sep s) as [|seg rest].
      * constructor; [|constructor]. unfold no_char; simpl. now rewrite E.
      * inversion IH; subst. constructor; [|assumption].
        unfold no_char in *; simpl. now rewrite E.
Qed.

Lemma split_single sep s : no_char sep s -> JSString.split sep s = [s].
Proof.
  unfold no_char. induction s as [|c s IH]; simpl; [reflexivity|].
  intros H. apply andb_prop in H as [Hc Hs].
  apply negb_true_iff in Hc. rewrite Hc, (IH Hs). reflexivity.
Qed.

Lemma split_app_sep sep s t :
  no_char sep s ->
  JSString.split sep (s ++ String sep t) = s :: JSString.split sep t.
Proof.
  unfold no_char. induction s as [|c s IH]; simpl.
  - intros _. now rewrite Ascii.eqb_refl.
  - intros H. apply andb_prop in H as [Hc Hs].
    apply negb_true_iff in Hc. rewrite Hc, (IH Hs). reflexivity.
Qed.

Lemma split_join sep l :
  l <> [] -> Forall (no_char sep) l ->
  JSString.split sep (JSString.join (String sep EmptyString) l) = l.
Proof.
  induction l as [|s l IH]; [congruence|].
  intros _ H. inversion H as [|? ? Hs Hl]; subst.
  destruct l as [|s' l'].
  - simpl. now apply split_single.
  - change (JSString.join (String sep EmptyString) (s :: s' :: l'))
      with (s ++ String sep (JSString.join (String sep EmptyString) (s' :: l'))).
    rewrite split_app_sep by assumption.
    f_equal. apply IH; [discriminate|assumption].
Qed.

Lemma join_split sep s :
  JSString.join (String sep EmptyString) (JSString.split sep s) = s.
Proof.
  induction s as [|c s IH]; simpl; [reflexivity|].
  destruct (Ascii.eqb_spec c sep) as [->|Hne].
  - pose proof (split_not_nil sep s) as Hnn.
    destruct (JSString.split sep s) as [|seg rest] eqn:E; [congruence|].
    change (JSString.join (String sep EmptyString) (EmptyString :: seg :: rest))
      with (String sep (JSString.join (String sep EmptyString) (seg :: rest))).
    now rewrite IH.
  - pose proof (split_not_nil sep s) as Hnn.
    destruct (JSString.split sep s) as [|seg rest] eqn:E; [congruence|].
    destruct rest as [|seg' rest'].
    + simpl in *. now rewrite IH.
    + change (JSString.join (String sep EmptyString) (String c seg :: seg' :: rest'))
        with (String c (seg ++ String sep
                (JSString.join (String sep EmptyString) (seg' :: rest')))).
      f_equal. exact IH.
Qed.

Lemma uint_of_string_digits s d :
  NilEmpty.uint_of_string s = Some d -> JSString.forallb JSString.is_digit s = true.
Proof.
  revert d. induction s as [|c s IH]; simpl; [reflexivity|].
  intros d H. destruct (NilEmpty.uint_of_string s) as [d0|] eqn:E; [|discriminate].
  rewrite (IH d0 eq_refl), andb_true_r.
  apply uint_of_char_spec in H.
  repeat (destruct H as [[-> _]|H]; [reflexivity|]).
  destruct H as [-> _]. reflexivity.
Qed.

Lemma digit_not_space c : JSString.is_digit c = true -> JSString.is_space c = false.
Proof.
  unfold JSString.is_digit, JSString.is_space.
  intros H. apply andb_prop in H as [H1 H2].
  apply Nat.leb_le in H1. apply Nat.leb_le in H2.
  repeat match goal with
         | |- context [(?a <=? ?b)%nat] => destruct (Nat.leb_spec a b)
         | |- context [(?a =? ?b)%nat] => destruct (Nat.eqb_spec a b)
         end; simpl; try reflexivity; lia.
Qed.

Lemma trim_end_digits s :
  JSString.forallb JSString.is_digit s = true -> JSString.trim_end s = s.
Proof.
  induction s as [|c s IH]; simpl; [reflexivity|].
  intros H. apply andb_prop in H as [Hc Hs].
  rewrite (IH Hs), (digit_not_space c Hc). now destruct s.
Qed.

Lemma trim_digits s :
  JSString.forallb JSString.is_digit s = true -> JSString.trim s = s.
Proof.
  intros H. unfold JSString.trim.
  destruct s as [|c s]; [reflexivity|].
  pose proof H as H'. simpl in H'. apply andb_prop in H' as [Hc _].
  simpl JSString.trim_start. rewrite (digit_not_space c Hc).
  now apply trim_end_digits.
Qed.

Lemma digit_not_sign c :
  JSString.is_digit c = true -> Ascii.eqb c "-" = false /\ Ascii.eqb c "+" = false.
Proof.
  intros H. split.
  - destruct (Ascii.eqb_spec c "-") as [->|]; [discriminate H|reflexivity].
  - destruct (Ascii.eqb_spec c "+") as [->|]; [discriminate H|reflexivity].
Qed.

(** StringToNumber of a run of digits is its value. *)
Lemma StringToNumber_digits s n :
  JSNumber.digits_value s = Some n ->
  JSNumber.StringToNumber s = JSNumber.of_Z n.
Proof.
  intros H. unfold JSNumber.StringToNumber.
  assert (Hd : JSString.forallb JSString.is_digit s = true).
  { unfold JSNumber.digits_value, NilZero.uint_of_string in H.
    destruct s; [discriminate|].
    destruct (NilEmpty.uint_of_string (String a s)) eqn:E; [|discriminate].
    eapply uint_of_string_digits; eassumption. }
  rewrite (trim_digits s Hd).
  destruct s as [|c s]; [discriminate H|].
  simpl in Hd. apply andb_prop in Hd as [Hc _].
  destruct (digit_not_sign c Hc) as [-> ->].
  now rewrite H.
Qed.

Lemma string_of_uint_digits d :
  JSString.forallb JSString.is_digit (NilEmpty.string_of_uint d) = true.
Proof. induction d; simpl; auto. Qed.

Lemma digits_value_Z_to_string n :
  0 <= n -> JSNumber.digits_value (JSNumber.Z_to_string n) = Some n.
Proof.
  intros Hn. unfold JSNumber.digits_value, JSNumber.Z_to_string.
  destruct n as [|p|p]; [reflexivity| |lia].
  simpl. rewrite NilZero.usu.
  - simpl. f_equal. unfold Z.of_uint.
    now rewrite DecimalPos.Unsigned.of_to.
  - intros E. pose proof (DecimalPos.Unsigned.of_to p) as H.
    rewrite E in H. discriminate H.
Qed.

Lemma digits_value_negative m :
  m < 0 -> JSNumber.digits_value (JSNumber.Z_to_string m) = None.
Proof.
  destruct m as [|p|p]; try lia. intros _.
  unfold JSNumber.digits_value, JSNumber.Z_to_string. simpl.
  now destruct (NilEmpty.uint_of_string (NilZero.string_of_uint (Pos.to_uint p))).
Qed.

Lemma Z_to_string_no_dot z : no_char "." (JSNumber.Z_to_string z).
Proof.
  assert (H : forall d, no_char "." (NilZero.string_of_uint d)).
  { intros d. unfold no_char.
    assert (G : forall s, JSString.forallb JSString.is_digit s = true ->
                          JSString.forallb (fun c => negb (Ascii.eqb c ".")) s = true).
    { induction s as [|c s IH]; simpl; [reflexivity|].
      intros H. apply andb_prop in H as [Hc Hs]. rewrite (IH Hs), andb_true_r.
      destruct (Ascii.eqb_spec c ".") as [->|]; [discriminate Hc|reflexivity]. }
    apply G. destruct d; try apply (string_of_uint_digits (_ d)). reflexivity. }
  unfold JSNumber.Z_to_string. destruct (Z.to_int z); simpl.
  - apply H.
  - unfold no_char. simpl. apply H.
Qed.

Lemma of_Z_in_range z :
  Z.abs z <= JSNumber.MAX_EXACT -> JSNumber.of_Z z = Val (JSNumber.Int z).
Proof.
  intros H. unfold JSNumber.of_Z.
  destruct (Z.leb_spec (Z.abs z) JSNumber.MAX_EXACT); [reflexivity|lia].
Qed.

(** The array of incrementVersion and getPreviousVersion: reading and
    writing its last element. *)
Lemma versionParts_last (pre : list string) (last : string) :
  map VString (pre ++ [last])%list !! last_index (map VString (pre ++ [last])%list)
  = Some (VString last).
Proof.
  unfold last_index. rewrite map_app, length_app, length_map. simpl.
  apply list_lookup_middle. rewrite length_map. lia.
Qed.

Lemma versionParts_store (pre : list string) (last : string) (x : JSNumber.Number) :
  Array_join "." (<[last_index (map VString (pre ++ [last])%list) := VNumber x]>
                    (map VString (pre ++ [last])%list))
  = JSString.join "." (pre ++ [JSNumber.ToString x])%list.
Proof.
  unfold last_index, Array_join. rewrite map_app, length_app, length_map. simpl.
  replace (length pre + 1 - 1)%nat with (length (map VString pre) + 0)%nat
    by (rewrite length_map; lia).
  rewrite insert_app_r. simpl. rewrite map_app, map_map. simpl.
  now rewrite map_id.
Qed.

(* ================================================================== *)
(** * incrementVersion and getPreviousVersion *)

Lemma incrementVersion_unfold version (pre : list string) last :
  JSString.split "." version = (pre ++ [last])%list ->
  incrementVersion version
  = let* old := JSNumber.StringToNumber last in
    let* new := JSNumber.add old (JSNumber.Int 1) in
    Val (JSString.join "." (pre ++ [JSNumber.ToString new])%list).
Proof.
  intros E. unfold incrementVersion. rewrite E, versionParts_last. simpl.
  destruct (JSNumber.StringToNumber last) as [old|]; [simpl|reflexivity].
  destruct (JSNumber.add old (JSNumber.Int 1)) as [new|]; [simpl|reflexivity].
  now rewrite versionParts_store.
Qed.

Lemma getPreviousVersion_unfold version diff (pre : list string) last :
  String.eqb version FirstVersion = false ->
  JSString.split "." version = (pre ++ [last])%list ->
  Z.abs diff <= JSNumber.MAX_EXACT ->
  getPreviousVersion version diff
  = let* old := JSNumber.StringToNumber last in
    let* new := JSNumber.sub old (JSNumber.Int diff) in
    Val (JSString.join "." (pre ++ [JSNumber.ToString new])%list).
Proof.
  intros Hv E Hd. unfold getPreviousVersion. rewrite Hv, E, versionParts_last.
  simpl. destruct (JSNumber.StringToNumber last) as [old|]; [simpl|reflexivity].
  rewrite (of_Z_in_range diff Hd). simpl.
  destruct (JSNumber.sub old (JSNumber.Int diff)) as [new|]; [simpl|reflexivity].
  now rewrite versionParts_store.
Qed.

(** The increment of a numeric trailing segment *)
Lemma incrementVersion_numeric :
  forall version (pre : list string) last n,
    JSString.split "." version = (pre ++ [last])%list ->
    JSNumber.digits_value last = Some n ->
    n < JSNumber.MAX_EXACT ->
    incrementVersion version
    = Val (JSString.join "." (pre ++ [JSNumber.Z_to_string (n + 1)])%list)
    /\ JSString.split "." (JSString.join "." (pre ++ [JSNumber.Z_to_string (n + 1)])%list)
       = (pre ++ [JSNumber.Z_to_string (n + 1)])%list
    /\ JSNumber.digits_value (JSNumber.Z_to_string (n + 1)) = Some (n + 1).
Proof.
  intros version pre last n E Hn Hlt.
  assert (H0 : 0 <= n).
  { unfold JSNumber.digits_value in Hn.
    destruct (NilZero.uint_of_string last) as [d|]; [|discriminate].
    injection Hn as <-. unfold Z.of_uint. lia. }
  split; [|split].
  - rewrite (incrementVersion_unfold version pre last E).
    rewrite (StringToNumber_digits last n Hn), of_Z_in_range by lia.
    simpl. rewrite of_Z_in_range by lia. reflexivity.
  - apply split_join.
    + now destruct pre.
    + apply Forall_app. split.
      * pose proof (split_no_sep "." version) as F. rewrite E in F.
        apply Forall_app in F. tauto.
      * constructor; [apply Z_to_string_no_dot|constructor].
  - apply digits_value_Z_to_string. lia.
Qed.

(** C4. incrementVersion changes the trailing dotted segment only: for a
    version whose trailing segment is a run of digits of value [n] below
    2^53, the result is the same segments with the decimal numeral of
    [n + 1] in the last place (no rollover into the earlier segments), and
    splitting the result gives back the earlier segments unchanged. *)
Theorem incrementVersion_trailing_segment :
  forall version (pre : list string) last n,
    JSString.split "." version = (pre ++ [last])%list ->
    JSNumber.digits_value last = Some n ->
    n < JSNumber.MAX_EXACT ->
    incrementVersion version
    = Val (JSString.join "." (pre ++ [JSNumber.Z_to_string (n + 1)])%list)
    /\ JSString.split "." (JSString.join "." (pre ++ [JSNumber.Z_to_string (n + 1)])%list)
       = (pre ++ [JSNumber.Z_to_string (n + 1)])%list
    /\ JSNumber.digits_value (JSNumber.Z_to_string (n + 1)) = Some (n + 1).
Proof.
  intros version pre last n E Hn Hlt.
  exact (incrementVersion_numeric version pre last n E Hn Hlt).
Qed.

Lemma incrementVersion_trailing_segment_witness :
  incrementVersion "1.0.9" = Val "1.0.10".
Proof.
  exact (proj1 (incrementVersion_trailing_segment "1.0.9" ["1"; "0"] "9" 9
                  eq_refl eq_refl eq_refl)).
Defined.

(** C10. getPreviousVersion returns the first version for the input
    "1.0.0" and for no other input takes that branch: every other version
    with a numeric trailing segment of value [n] gets the numeral of
    [n - diff] in the last place, with a minus sign when [diff] is larger
    than [n], and such a segment is no run of digits. *)
Theorem getPreviousVersion_subtracts :
  forall version (pre : list string) last n diff,
    JSString.split "." version = (pre ++ [last])%list ->
    JSNumber.digits_value last = Some n ->
    n <= JSNumber.MAX_EXACT ->
    Z.abs diff <= JSNumber.MAX_EXACT ->
    Z.abs (n - diff) <= JSNumber.MAX_EXACT ->
    getPreviousVersion version diff
    = (if String.eqb version "1.0.0" then Val "1.0.0"
       else Val (JSString.join "." (pre ++ [JSNumber.Z_to_string (n - diff)])%list))
    /\ JSNumber.digits_value (JSNumber.Z_to_string (n - diff))
       = (if n - diff <? 0 then None else Some (n - diff)).
Proof.
  intros version pre last n diff E Hn Hle Hd Hr.
  assert (H0 : 0 <= n).
  { unfold JSNumber.digits_value in Hn.
    destruct (NilZero.uint_of_string last) as [d|]; [|discriminate].
    injection Hn as <-. unfold Z.of_uint. lia. }
  split.
  - destruct (String.eqb version "1.0.0") eqn:Hv.
    + unfold getPreviousVersion, FirstVersion. now rewrite Hv.
    + rewrite (getPreviousVersion_unfold version diff pre last Hv E Hd).
      rewrite (StringToNumber_digits last n Hn), of_Z_in_range by lia.
      simpl. unfold JSNumber.sub, JSNumber.negate, JSNumber.add.
      rewrite of_Z_in_range by (replace (n + - diff) with (n - diff) by lia; lia).
      simpl. now replace (n + - diff) with (n - diff) by lia.
  - destruct (Z.ltb_spec (n - diff) 0).
    + now apply digits_value_negative.
    + now apply digits_value_Z_to_string.
Qed.

Lemma getPreviousVersion_subtracts_witness :
  getPreviousVersion "1.0.2" 3 = Val "1.0.-1".
Proof.
  exact (proj1 (getPreviousVersion_subtracts "1.0.2" ["1"; "0"] "2" 2 3
                  eq_refl eq_refl ltac:(vm_compute; discriminate)
                  ltac:(vm_compute; discriminate) ltac:(vm_compute; discriminate))).
Defined.

(** C3, as stated, fails: "1.0.01" is a 3-part dotted numeric string and
    not the first version, it increments to "1.0.2", whose previous
    version is "1.0.1". *)
Lemma incrementThenDecrement_leading_zero :
  numeric_version3 "1.0.01" = true
  /\ "1.0.01" <> FirstVersion
  /\ incrementVersion "1.0.01" = Val "1.0.2"
  /\ incrementThenDecrement "1.0.01" = Val "1.0.1"
  /\ incrementThenDecrement "1.0.01" <> Val "1.0.01".
Proof. repeat split; try reflexivity; discriminate. Qed.

(** C3, amended. For a version whose trailing segment is the decimal
    numeral, without leading zeros, of a value [n] below 2^53,
    incrementVersion followed by getPreviousVersion with [diff = 1]
    returns the version unchanged; the first version "1.0.0" is no
    exception. *)
Theorem incrementThenDecrement_canonical :
  forall version (pre : list string) n,
    JSString.split "." version = (pre ++ [JSNumber.Z_to_string n])%list ->
    0 <= n < JSNumber.MAX_EXACT ->
    incrementThenDecrement version = Val version.
Proof.
  intros version pre n E Hn.
  pose proof (digits_value_Z_to_string n (proj1 Hn)) as Hd.
  destruct (incrementVersion_numeric version pre _ n E Hd (proj2 Hn))
    as (Hinc & Hsplit & Hval).
  unfold incrementThenDecrement. rewrite Hinc. simpl.
  set (w := JSString.join "." (pre ++ [JSNumber.Z_to_string (n + 1)])%list) in *.
  assert (Hw : String.eqb w FirstVersion = false).
  { destruct (String.eqb_spec w FirstVersion) as [Heq|]; [exfalso|reflexivity].
    rewrite Heq in Hsplit. change (JSString.split "." FirstVersion)
      with (["1"; "0"] ++ ["0"])%list in Hsplit.
    apply app_inj_tail in Hsplit as [_ H0].
    assert (Hz : JSNumber.digits_value "0" = Some (n + 1)) by (rewrite H0; exact Hval).
    change (Some 0 = Some (n + 1)) in Hz. injection Hz as Hz. lia. }
  rewrite (getPreviousVersion_unfold w 1 pre _ Hw Hsplit)
    by (vm_compute; discriminate).
  rewrite (StringToNumber_digits _ (n + 1) Hval), of_Z_in_range by lia.
  simpl. unfold JSNumber.sub, JSNumber.negate, JSNumber.add.
  rewrite of_Z_in_range by lia. simpl.
  replace (n + 1 + - (1)) with n by lia.
  rewrite <- E. now rewrite join_split.
Qed.

Lemma incrementThenDecrement_canonical_witness :
  incrementThenDecrement "1.0.0" = Val "1.0.0"
  /\ incrementThenDecrement "1.0.41" = Val "1.0.41".
Proof.
  split.
  - exact (incrementThenDecrement_canonical "1.0.0" ["1"; "0"] 0 eq_refl
             ltac:(vm_compute; split; [discriminate|reflexivity])).
  - exact (incrementThenDecrement_canonical "1.0.41" ["1"; "0"] 41 eq_refl
             ltac:(vm_compute; split; [discriminate|reflexivity])).
Defined.

(* ================================================================== *)
(** * getNextVersion *)

Lemma Query_Some (table : Table) id item :
  table !! id = Some item -> Query table id = [item].
Proof. intros H. unfold Query. now rewrite H. Qed.

Lemma Query_None (table : Table) id :
  table !! id = None -> Query table id = [].
Proof. intros H. unfold Query. now rewrite H. Qed.

Lemma contentHash_matches_iff item contentHash :
  contentHash_matches item contentHash = true
  <-> exists stored, ContentHash item = Some {| S_ := Some stored |}
                     /\ contentHash = Some stored.
Proof.
  unfold contentHash_matches. split.
  - destruct (ContentHash item) as [[[stored|]]|]; try discriminate.
    destruct contentHash as [h|]; try discriminate.
    intros H. apply String.eqb_eq in H. subst. now exists h.
  - intros (stored & -> & ->). simpl. apply String.eqb_refl.
Qed.

(** C2. With no record for the identity, getNextVersion returns the first
    version "1.0.0", whatever the content hash. *)
Theorem getNextVersion_no_record :
  forall (table : Table) id contentHash,
    table !! id = None ->
    getNextVersion table id contentHash = Val (Some "1.0.0").
Proof.
  intros table id contentHash H. unfold getNextVersion.
  now rewrite (Query_None table id H).
Qed.

Lemma getNextVersion_no_record_witness :
  getNextVersion ∅ "bfdgpgibhagkpdlnjonhkabjoijopoge" (Some "H1")
  = Val (Some "1.0.0").
Proof.
  exact (getNextVersion_no_record ∅ "bfdgpgibhagkpdlnjonhkabjoijopoge"
           (Some "H1") (lookup_empty _)).
Defined.

(** C1, as stated, fails. updateDynamoDB stores the version it is given;
    when that is the empty string, the record has the content hash
    [H1], and getNextVersion for the same hash returns "1.0.0". *)
Lemma getNextVersion_empty_version :
  let table := updateDynamoDB ∅ "id" "" "sha" "title" false (Some "H1") ∅ in
  record_with_hash table "id" (Some "H1")
  /\ getNextVersion table "id" (Some "H1") = Val (Some "1.0.0")
  /\ ~ (getNextVersion table "id" (Some "H1") = Val None
        <-> record_with_hash table "id" (Some "H1")).
Proof.
  set (item := {| ID := "id"; SHA256 := "sha"; Version := ""; Title := "title";
                  Disabled := false; ContentHash := Some {| S_ := Some "H1" |};
                  PatchList := ∅ |}).
  assert (L : updateDynamoDB ∅ "id" "" "sha" "title" false (Some "H1") ∅ !! "id"
              = Some item).
  { unfold updateDynamoDB, PutItem. simpl. apply lookup_insert_eq. }
  assert (R : record_with_hash
                (updateDynamoDB ∅ "id" "" "sha" "title" false (Some "H1") ∅)
                "id" (Some "H1")).
  { exists item, "H1". split; [exact L|]. split; reflexivity. }
  assert (G : getNextVersion
                (updateDynamoDB ∅ "id" "" "sha" "title" false (Some "H1") ∅)
                "id" (Some "H1") = Val (Some "1.0.0")).
  { unfold getNextVersion. now rewrite (Query_Some _ _ _ L). }
  cbv zeta. split; [exact R|]. split; [exact G|].
  intros [_ H]. specialize (H R). rewrite G in H. discriminate H.
Qed.

(** C1, amended. getNextVersion returns [undefined] if and only if the
    table holds a record for the identity whose stored version is not the
    empty string and whose stored content hash is present and equals
    [contentHash]. *)
Theorem getNextVersion_NoChange_iff :
  forall (table : Table) id contentHash,
    getNextVersion table id contentHash = Val None
    <-> exists item stored,
          table !! id = Some item
          /\ Version item <> ""
          /\ ContentHash item = Some {| S_ := Some stored |}
          /\ contentHash = Some stored.
Proof.
  intros table id contentHash. unfold getNextVersion, Query. split.
  - destruct (table !! id) as [item|]; [|discriminate].
    simpl. destruct (String.eqb_spec (Version item) "") as [|Hv]; [discriminate|].
    simpl. destruct (contentHash_matches item contentHash) eqn:Hm.
    + intros _. apply contentHash_matches_iff in Hm as (stored & Hc & Hh).
      now exists item, stored.
    + destruct (incrementVersion (Version item)); discriminate.
  - intros (item & stored & -> & Hv & Hc & Hh). simpl.
    destruct (String.eqb_spec (Version item) "") as [|_]; [contradiction|].
    simpl. assert (Hm : contentHash_matches item contentHash = true).
    { apply contentHash_matches_iff. now exists stored. }
    now rewrite Hm.
Qed.

Lemma getNextVersion_NoChange_iff_witness :
  getNextVersion (updateDynamoDB ∅ "id" "1.0.0" "sha" "title" false (Some "H1") ∅)
    "id" (Some "H1") = Val None.
Proof.
  apply (proj2 (getNextVersion_NoChange_iff _ "id" (Some "H1"))).
  eexists _, "H1". split; [apply lookup_insert_eq|].
  repeat split. discriminate.
Defined.

(* ================================================================== *)
(** * getIDFromBase64PublicKey *)

Lemma digest_length data : length (SHA256.digest data) = 32%nat.
Proof. unfold SHA256.digest. rewrite !length_app. reflexivity. Qed.

Lemma hex_char_lower n : is_lower_hex (SHA256.hex_char n) = true.
Proof.
  unfold SHA256.hex_char.
  assert (H : (Z.to_nat (n mod 16) < 16)%nat)
    by (pose proof (Z.mod_pos_bound n 16); lia).
  destruct (Z.to_nat (n mod 16)) as [|k]; [reflexivity|].
  do 15 (destruct k as [|k]; [reflexivity|]). lia.
Qed.

Lemma hex_length bytes :
  String.length (SHA256.hex bytes) = (2 * length bytes)%nat.
Proof. induction bytes as [|b l IH]; simpl; [reflexivity|]. rewrite IH. lia. Qed.

Lemma hex_lower bytes : JSString.forallb is_lower_hex (SHA256.hex bytes) = true.
Proof.
  induction bytes as [|b l IH]; simpl; [reflexivity|].
  now rewrite !hex_char_lower, IH.
Qed.

Lemma substring0_length n s :
  (n <= String.length s)%nat -> String.length (JSString.substring0 n s) = n.
Proof.
  revert s. induction n as [|n IH]; intros s H; [reflexivity|].
  destruct s as [|c s]; simpl in *; [lia|]. rewrite IH; [reflexivity|lia].
Qed.

Lemma substring0_forallb p n s :
  JSString.forallb p s = true -> JSString.forallb p (JSString.substring0 n s) = true.
Proof.
  revert s. induction n as [|n IH]; intros s H; [reflexivity|].
  destruct s as [|c s]; simpl in *; [reflexivity|].
  apply andb_prop in H as [-> Hs]. now rewrite IH.
Qed.

(** The callback of the replacement maps a hexadecimal digit to one
    letter from 'a' to 'p'. *)
Lemma hex_digit_to_letter c :
  is_lower_hex c = true ->
  exists c', JSString.charAt "abcdefghijklmnop" (JSString.indexOf c "0123456789abcdef")
             = String c' EmptyString
             /\ is_a_to_p c' = true.
Proof.
  destruct c as [[] [] [] [] [] [] [] []]; intros H; try discriminate H;
    eexists; split; reflexivity.
Qed.

Lemma replace_hex_digits s :
  JSString.forallb is_lower_hex s = true ->
  let r := JSString.replace_chars is_lower_hex
             (fun c => JSString.charAt "abcdefghijklmnop"
                         (JSString.indexOf c "0123456789abcdef")) s in
  String.length r = String.length s /\ JSString.forallb is_a_to_p r = true.
Proof.
  induction s as [|c s IH]; [split; reflexivity|].
  intros H. simpl in H. apply andb_prop in H as [Hc Hs].
  destruct (IH Hs) as [IHl IHp]. cbv zeta in IHl, IHp.
  destruct (hex_digit_to_letter c Hc) as (c' & E & Hc').
  cbv zeta. cbn [JSString.replace_chars]. rewrite Hc, E.
  change (String c' EmptyString ++ ?r) with (String c' r).
  cbn [String.length JSString.forallb].
  split; [f_equal; exact IHl|]. rewrite Hc'. exact IHp.
Qed.

(** C9. The identity of a public key is a function of the key alone, has
    exactly 32 characters, and each of them is a letter from 'a' to 'p';
    this holds for every base64 decoder. *)
Theorem getIDFromBase64PublicKey_identity :
  forall (base64_decode : string -> list Byte.byte) (key key' : string),
    key' = key ->
    getIDFromBase64PublicKey base64_decode key'
    = getIDFromBase64PublicKey base64_decode key
    /\ String.length (getIDFromBase64PublicKey base64_decode key) = 32%nat
    /\ JSString.forallb is_a_to_p (getIDFromBase64PublicKey base64_decode key) = true.
Proof.
  intros base64_decode key key' ->. split; [reflexivity|].
  unfold getIDFromBase64PublicKey, generateSHA256Hash.
  set (digest := SHA256.hex (SHA256.digest (base64_decode key))).
  assert (Hlen : String.length digest = 64%nat)
    by (unfold digest; now rewrite hex_length, digest_length).
  assert (Hhex : JSString.forallb is_lower_hex (JSString.substring0 32 digest) = true)
    by (apply substring0_forallb, hex_lower).
  destruct (replace_hex_digits _ Hhex) as [Hl Hp].
  split; [|exact Hp].
  rewrite Hl. apply substring0_length. rewrite Hlen. lia.
Qed.

(* ================================================================== *)
(** * Running the monad *)

(** Unfolds the operations of the monad and reduces what is exposed. *)
Ltac mrun :=
  cbv [bind catch ret throw emit complete call await of_outcome of_res
       console_log console_error];
  cbn [world trace fst snd negb orb andb]; cbv beta.

(* ================================================================== *)
(** * fetchTextFromURL *)

Section FetchProofs.

Variable World : Type.
Variable oracle : forall c : Call, World -> Reply c * World.

Local Abbreviation attempt' := (attempt World oracle).
Local Abbreviation retry_chain' := (retry_chain World oracle).
Local Abbreviation delayReject' := (delayReject World).
Local Abbreviation failed_attempts' := (failed_attempts World oracle).

Lemma fetches_app tr1 tr2 : fetches (tr1 ++ tr2) = (fetches tr1 + fetches tr2)%nat.
Proof.
  induction tr1 as [|ev tr1 IH]; [reflexivity|].
  destruct ev as [c|c err|args|args|ms]; simpl; try exact IH.
  destruct c; simpl; rewrite ?IH; reflexivity.
Qed.

Lemma delays_app tr1 tr2 : delays (tr1 ++ tr2) = (delays tr1 ++ delays tr2)%list.
Proof.
  induction tr1 as [|ev tr1 IH]; [reflexivity|].
  destruct ev; simpl; rewrite ?IH; reflexivity.
Qed.

(** One attempt issues one fetch, sets no timer, and is fulfilled or
    rejected. *)
Lemma attempt_trace listURL st :
  exists err,
    trace (snd (attempt' listURL st))
    = (trace st ++ [Start (Fetch listURL); Done (Fetch listURL) err])%list
    /\ fst (attempt' listURL st) <> Stuck.
Proof.
  unfold attempt. mrun.
  destruct (oracle (Fetch listURL) (world st)) as [r w].
  exists (outcome_error r).
  destruct r as [response|e]; mrun.
  - destruct (status response =? 200); mrun.
    + destruct (text response); mrun; rewrite <- app_assoc; split;
        (reflexivity || discriminate).
    + rewrite <- app_assoc. split; (reflexivity || discriminate).
  - rewrite <- app_assoc. split; (reflexivity || discriminate).
Qed.

Lemma delayReject_run ms e st :
  delayReject' ms e st
  = (Throw e,
     {| world := world st;
        trace := (trace st ++ [Timeout ms;
                              ConsoleLog [LStr ("Spurious error: " ++ message e)];
                              ConsoleLog [LStr "  (retrying...)"]])%list |}).
Proof.
  unfold delayReject. mrun. now rewrite <- !app_assoc.
Qed.

Lemma delayReject_throws ms e st :
  delayReject' ms e st = (Throw e, snd (delayReject' ms e st)).
Proof. now rewrite delayReject_run. Qed.

Lemma failed_attempts_S k listURL st s :
  failed_attempts' (S k) listURL st = Some s <->
  exists s0 e s1,
    failed_attempts' k listURL st = Some s0
    /\ attempt' listURL s0 = (Throw e, s1)
    /\ s = snd (delayReject' delayMs e s1).
Proof.
  simpl. split.
  - destruct (failed_attempts' k listURL st) as [s0|]; [|discriminate].
    destruct (attempt' listURL s0) as [[t|e|] s1] eqn:E; try discriminate.
    intros [= <-]. now exists s0, e, s1.
  - intros (s0 & e & s1 & -> & -> & ->). reflexivity.
Qed.

(** After [k] failed attempts, [k] fetches were issued and [k] timers of
    [delayMs] elapsed. *)
Lemma failed_attempts_trace k listURL st s :
  failed_attempts' k listURL st = Some s ->
  fetches (trace s) = (fetches (trace st) + k)%nat
  /\ delays (trace s) = (delays (trace st) ++ repeat delayMs k)%list.
Proof.
  revert s. induction k as [|k IH]; intros s H.
  - injection H as <-. simpl. rewrite Nat.add_0_r, app_nil_r. tauto.
  - apply failed_attempts_S in H as (s0 & e & s1 & H0 & Ha & ->).
    destruct (IH s0 H0) as [IHf IHd].
    destruct (attempt_trace listURL s0) as (err & Ht & _).
    rewrite Ha in Ht. simpl in Ht.
    rewrite delayReject_run. simpl. rewrite Ht.
    rewrite !fetches_app, !delays_app, IHf, IHd. simpl.
    split; [lia|].
    rewrite app_nil_r, <- app_assoc. f_equal. symmetry. apply repeat_cons.
Qed.

(** The chain of [n + 1] rounds rejects when its last attempt fails,
    after the delay. *)
Lemma retry_chain_rejects n listURL st s e s1 :
  failed_attempts' n listURL st = Some s ->
  attempt' listURL s = (Throw e, s1) ->
  retry_chain' (S n) listURL st = delayReject' delayMs e s1.
Proof.
  revert s e s1. induction n as [|n IH]; intros s e s1 H Ha.
  - injection H as <-. simpl. unfold catch at 1 2. simpl. now rewrite Ha.
  - apply failed_attempts_S in H as (s0 & e0 & s2 & H0 & Ha0 & ->).
    specialize (IH s0 e0 s2 H0 Ha0).
    change (retry_chain' (S (S n)) listURL st)
      with (catch (catch (retry_chain' (S n) listURL)
                         (fun _ => attempt' listURL))
                  (delayReject' delayMs) st).
    unfold catch at 1 2. rewrite IH.
    rewrite (delayReject_throws delayMs e0 s2). now rewrite Ha.
Qed.

(** The chain is fulfilled by the first attempt that succeeds. *)
Lemma retry_chain_fulfils n k listURL st s t s' :
  (k < n)%nat ->
  failed_attempts' k listURL st = Some s ->
  attempt' listURL s = (Return t, s') ->
  retry_chain' n listURL st = (Return t, s').
Proof.
  revert k s. induction n as [|n IH]; intros k s Hk H Ha; [lia|].
  change (retry_chain' (S n) listURL st)
    with (catch (catch (retry_chain' n listURL) (fun _ => attempt' listURL))
                (delayReject' delayMs) st).
  destruct (Nat.eq_dec k n) as [->|Hne].
  - destruct n as [|n].
    + injection H as <-. unfold catch at 1 2. simpl. now rewrite Ha.
    + apply failed_attempts_S in H as (s0 & e0 & s2 & H0 & Ha0 & ->).
      unfold catch at 1 2.
      rewrite (retry_chain_rejects n listURL st s0 e0 s2 H0 Ha0).
      rewrite (delayReject_throws delayMs e0 s2). now rewrite Ha.
  - unfold catch at 1 2. rewrite (IH k s ltac:(lia) H Ha). reflexivity.
Qed.

(** A chain of [n] rounds issues at most [n] fetches. *)
Lemma retry_chain_bound n listURL st :
  (fetches (trace (snd (retry_chain' n listURL st))) <= fetches (trace st) + n)%nat.
Proof.
  induction n as [|n IH]; [simpl; lia|].
  change (retry_chain' (S n) listURL st)
    with (catch (catch (retry_chain' n listURL) (fun _ => attempt' listURL))
                (delayReject' delayMs) st).
  unfold catch at 1 2.
  destruct (retry_chain' n listURL st) as [[t|e|] s] eqn:E;
    cbn [fst snd] in IH |- *; try lia.
  destruct (attempt_trace listURL s) as (err & Ht & _).
  destruct (attempt' listURL s) as [[t|e'|] s1]; cbn [fst snd] in Ht |- *.
  - rewrite Ht, fetches_app. simpl. lia.
  - rewrite delayReject_run. cbn [snd trace]. rewrite Ht, !fetches_app. simpl. lia.
  - rewrite Ht, fetches_app. simpl. lia.
Qed.

End FetchProofs.

(** C8. fetchTextFromURL makes at most 5 attempts. When the first [k]
    attempts fail, with [k] below 5, and the next one succeeds, the
    promise is fulfilled with its body text, after [k + 1] fetches and
    [k] delays of 3000 ms. When the fifth attempt fails too, the promise
    is rejected with the error of that attempt. *)
Theorem fetchTextFromURL_bounded_retry :
  forall (World : Type) (oracle : forall c : Call, World -> Reply c * World)
         (listURL : string) (st s : State World) (k : nat),
    (k < 5)%nat ->
    failed_attempts World oracle k listURL st = Some s ->
    (fetches (trace (snd (fetchTextFromURL World oracle listURL st)))
     <= fetches (trace st) + 5)%nat
    /\ (forall t s',
          attempt World oracle listURL s = (Return t, s') ->
          fetchTextFromURL World oracle listURL st = (Return t, s')
          /\ fetches (trace s') = (fetches (trace st) + k + 1)%nat
          /\ delays (trace s') = (delays (trace st) ++ repeat 3000 k)%list)
    /\ (forall e s',
          k = 4%nat ->
          attempt World oracle listURL s = (Throw e, s') ->
          fst (fetchTextFromURL World oracle listURL st) = Throw e
          /\ fetches (trace (snd (fetchTextFromURL World oracle listURL st)))
             = (fetches (trace st) + 5)%nat).
Proof.
  intros World oracle listURL st s k Hk H. unfold fetchTextFromURL, maxAttempts.
  split; [apply retry_chain_bound|]. split.
  - intros t s' Ha.
    split; [exact (retry_chain_fulfils World oracle 5 k listURL st s t s' Hk H Ha)|].
    destruct (failed_attempts_trace World oracle k listURL st s H) as [Hf Hd].
    destruct (attempt_trace World oracle listURL s) as (err & Ht & _).
    rewrite Ha in Ht. simpl in Ht.
    rewrite Ht, fetches_app, delays_app, Hf, Hd. simpl.
    rewrite app_nil_r. split; [lia|reflexivity].
  - intros e s' -> Ha.
    rewrite (retry_chain_rejects World oracle 4 listURL st s e s' H Ha).
    rewrite delayReject_run. simpl. split; [reflexivity|].
    destruct (failed_attempts_trace World oracle 4 listURL st s H) as [Hf _].
    destruct (attempt_trace World oracle listURL s) as (err & Ht & _).
    rewrite Ha in Ht. simpl in Ht.
    rewrite Ht, !fetches_app, Hf. simpl. lia.
Qed.

(* ================================================================== *)
(** * generatePuffPatches *)

Lemma spawns_app tr1 tr2 : spawns (tr1 ++ tr2) = (spawns tr1 ++ spawns tr2)%list.
Proof.
  induction tr1 as [|ev tr1 IH]; [reflexivity|].
  destruct ev as [c|c err|args|args|ms]; simpl; try exact IH.
  destruct c; simpl; rewrite ?IH; reflexivity.
Qed.

Lemma spawn_errors_app tr1 tr2 :
  spawn_errors (tr1 ++ tr2) = (spawn_errors tr1 ++ spawn_errors tr2)%list.
Proof.
  induction tr1 as [|ev tr1 IH]; [reflexivity|].
  destruct ev as [c|c err|args|args|ms]; simpl; try exact IH.
  destruct c; simpl; try exact IH. destruct err; simpl; rewrite ?IH; reflexivity.
Qed.

Lemma console_errors_app tr1 tr2 :
  console_errors (tr1 ++ tr2) = (console_errors tr1 ++ console_errors tr2)%list.
Proof.
  induction tr1 as [|ev tr1 IH]; [reflexivity|].
  destruct ev; simpl; rewrite ?IH; reflexivity.
Qed.

Lemma truthy_append_slash a b : truthy (a ++ "/" ++ b) = true.
Proof. unfold truthy. now destruct a. Qed.

Lemma truthy_nonempty s : s <> "" -> truthy s = true.
Proof. unfold truthy. now destruct s. Qed.

Section PatchProofs.

Variable World : Type.
Variable oracle : forall c : Call, World -> Reply c * World.
Variable path_join : list string -> string.
Variable path_resolve path_parse_name path_parse_ext : string -> string.

Hypothesis path_join_nonempty : forall l, path_join l <> "".

Variables downloadDir outputDir crxFile : string.
Hypothesis crxFile_nonempty : crxFile <> "".

Local Abbreviation puffdiff_of' :=
  (puffdiff_of path_join path_resolve path_parse_name downloadDir outputDir crxFile).
Local Abbreviation is_crx' := (is_crx path_join path_parse_ext downloadDir).

(** One directory entry: a [.crx] file is diffed once, whether or not
    puffin can be run, and the callback returns. *)
Lemma generatePatchFor_run file st :
  exists st' evs,
    generatePatchFor World oracle path_join path_resolve path_parse_name
      path_parse_ext downloadDir outputDir crxFile file st = (Return tt, st')
    /\ trace st' = (trace st ++ evs)%list
    /\ spawns evs = (if is_crx' file then [puffdiff_of' file] else [])
    /\ console_errors evs = map puffin_failure_line (spawn_errors evs).
Proof.
  unfold generatePatchFor, is_crx, puffdiff_of.
  destruct (String.eqb _ ".crx").
  - unfold generatePuffDiff.
    rewrite (truthy_nonempty _ (path_join_nonempty [downloadDir; file])),
      (truthy_nonempty _ crxFile_nonempty), truthy_append_slash.
    mrun.
    match goal with |- context [oracle ?c ?w] => destruct (oracle c w) as [r w'] end.
    destruct r as [e|]; mrun.
    + eexists _, _. split; [reflexivity|]. cbn [trace].
      split; [rewrite <- !app_assoc; reflexivity|]. split; reflexivity.
    + eexists _, _. split; [reflexivity|]. cbn [trace].
      split; [rewrite <- !app_assoc; reflexivity|]. split; reflexivity.
  - mrun. exists st, []. rewrite app_nil_r. repeat split.
Qed.

(** The loop: every [.crx] entry is diffed, in the order of the
    directory, and every failure to run puffin is logged. *)
Lemma forEach_generatePatchFor files st :
  exists st' evs,
    forEach World
      (generatePatchFor World oracle path_join path_resolve path_parse_name
         path_parse_ext downloadDir outputDir crxFile) files st = (Return tt, st')
    /\ trace st' = (trace st ++ evs)%list
    /\ spawns evs = map puffdiff_of' (filter (fun f => is_crx' f = true) files)
    /\ console_errors evs = map puffin_failure_line (spawn_errors evs).
Proof.
  revert st. induction files as [|file files IH]; intros st.
  - exists st, []. simpl. rewrite app_nil_r. repeat split.
  - destruct (generatePatchFor_run file st) as (st1 & evs1 & E1 & T1 & S1 & C1).
    destruct (IH st1) as (st2 & evs2 & E2 & T2 & S2 & C2).
    exists st2, (evs1 ++ evs2)%list.
    split; [|split; [|split]].
    + cbn [forEach]. unfold bind at 1. rewrite E1. exact E2.
    + rewrite T2, T1. now rewrite app_assoc.
    + rewrite spawns_app, S1, S2, filter_cons.
      destruct (decide (is_crx' file = true)) as [->|Hn]; [reflexivity|].
      now destruct (is_crx' file).
    + rewrite console_errors_app, spawn_errors_app, map_app, C1, C2. reflexivity.
Qed.

End PatchProofs.

(** C7. Once the directory of previous versions has been read,
    generatePuffPatches runs puffin for every [.crx] entry, in order,
    whatever errors spawnSync reports on the way; each such error is
    logged with console.error, and the function returns normally after
    the line "All patches generated.".  The path of the new artifact is
    not the empty string, and [path.join] never returns it. *)
Theorem generatePuffPatches_continues :
  forall (World : Type) (oracle : forall c : Call, World -> Reply c * World)
         (path_join : list string -> string)
         (path_resolve path_parse_name path_parse_ext : string -> string)
         (base64_decode : string -> list Byte.byte)
         (crxFile : string) (componentId : option string) (num : Z)
         (st st1 : State World) (downloadDir outputDir : string)
         (files : list string),
    (forall l, path_join l <> "") ->
    crxFile <> "" ->
    preparePatches World oracle path_join path_parse_name base64_decode
      crxFile componentId st = (Return (downloadDir, outputDir, files), st1) ->
    exists st' evs,
      generatePuffPatches World oracle path_join path_resolve path_parse_name
        path_parse_ext base64_decode crxFile componentId num st = (Return tt, st')
      /\ trace st'
         = (trace st1 ++ evs ++ [ConsoleLog [LStr "All patches generated."]])%list
      /\ spawns evs
         = map (puffdiff_of path_join path_resolve path_parse_name
                  downloadDir outputDir crxFile)
             (filter (fun f => is_crx path_join path_parse_ext downloadDir f = true)
                files)
      /\ console_errors evs = map puffin_failure_line (spawn_errors evs).
Proof.
  intros World oracle path_join path_resolve path_parse_name path_parse_ext
    base64_decode crxFile componentId num st st1 downloadDir outputDir files
    Hjoin Hcrx Hprep.
  destruct (forEach_generatePatchFor World oracle path_join path_resolve
              path_parse_name path_parse_ext Hjoin downloadDir outputDir crxFile
              Hcrx files st1) as (st2 & evs & E & T & S & C).
  eexists _, evs. split; [|split; [|split]].
  - unfold generatePuffPatches. unfold bind at 1. rewrite Hprep.
    unfold bind at 1. rewrite E. mrun. reflexivity.
  - cbn [trace]. rewrite T. now rewrite app_assoc.
  - exact S.
  - exact C.
Qed.

(* ================================================================== *)
(** * Rules for traces *)

Lemma tag_writes_app tr1 tr2 :
  tag_writes (tr1 ++ tr2) = (tag_writes tr1 ++ tag_writes tr2)%list.
Proof.
  induction tr1 as [|ev tr1 IH]; [reflexivity|].
  destruct ev as [c|c err|args|args|ms]; simpl; try exact IH.
  destruct c as [| | | | | | | | | |cmd]; simpl; try exact IH.
  destruct cmd; simpl; rewrite ?IH; reflexivity.
Qed.

Lemma head_replies_app tr1 tr2 :
  head_replies (tr1 ++ tr2) = (head_replies tr1 ++ head_replies tr2)%list.
Proof.
  induction tr1 as [|ev tr1 IH]; [reflexivity|].
  destruct ev as [c|c err|args|args|ms]; simpl; try exact IH.
  destruct c as [| | | | | | | | | |cmd]; simpl; try exact IH.
  destruct cmd; simpl; rewrite ?IH; reflexivity.
Qed.

Lemma upload_failures_app tr1 tr2 :
  upload_failures (tr1 ++ tr2) = (upload_failures tr1 ++ upload_failures tr2)%list.
Proof.
  induction tr1 as [|ev tr1 IH]; [reflexivity|].
  destruct ev as [c|c err|args|args|ms]; simpl; try exact IH.
  destruct c as [| | | | | | | | |file|cmd]; simpl; try exact IH.
  - destruct err; simpl; rewrite ?IH; reflexivity.
  - destruct cmd; simpl; try exact IH. destruct err; simpl; rewrite ?IH; reflexivity.
Qed.

Lemma puts_sent_app tr1 tr2 :
  puts_sent (tr1 ++ tr2) = (puts_sent tr1 ++ puts_sent tr2)%list.
Proof.
  induction tr1 as [|ev tr1 IH]; [reflexivity|].
  destruct ev as [c|c err|args|args|ms]; simpl; try exact IH.
  destruct c as [| | | | | | | | | |cmd]; simpl; try exact IH.
  destruct cmd; simpl; rewrite ?IH; reflexivity.
Qed.

Section TraceRules.

Variable World : Type.
Variable oracle : forall c : Call, World -> Reply c * World.

Local Abbreviation M' := (M World).

Lemma post_conseq {A} (m : M' A) (Q Q' : Completion A -> list Event -> Prop) :
  post m Q -> (forall c evs, Q c evs -> Q' c evs) -> post m Q'.
Proof.
  intros H HQ st. destruct (H st) as (evs & T & q). exists evs. auto.
Qed.

Lemma post_ret {A} (a : A) (Q : Completion A -> list Event -> Prop) :
  Q (Return a) [] -> post (ret (World := World) a) Q.
Proof. intros q st. exists []. simpl. now rewrite app_nil_r. Qed.

Lemma post_throw {A} (e : Error) (Q : Completion A -> list Event -> Prop) :
  Q (Throw e) [] -> post (throw (World := World) e) Q.
Proof. intros q st. exists []. simpl. now rewrite app_nil_r. Qed.

Lemma post_emit (ev : Event) (Q : Completion unit -> list Event -> Prop) :
  Q (Return tt) [ev] -> post (emit (World := World) ev) Q.
Proof. intros q st. exists [ev]. simpl. auto. Qed.

Lemma post_call (c : Call) (Q : Completion (Reply c) -> list Event -> Prop) :
  (forall r, Q (Return r) [Done c (reply_error c r)]) ->
  post (call World oracle c) Q.
Proof.
  intros q st. unfold call, complete.
  destruct (oracle c (world st)) as [r w]. eexists. simpl. split; [reflexivity|apply q].
Qed.

Lemma post_bind {A B} (m : M' A) (k : A -> M' B)
    (Qm : Completion A -> list Event -> Prop)
    (Q : Completion B -> list Event -> Prop) :
  post m Qm ->
  (forall a evs, Qm (Return a) evs ->
                 post (k a) (fun c evs' => Q c (evs ++ evs')%list)) ->
  (forall e evs, Qm (Throw e) evs -> Q (Throw e) evs) ->
  (forall evs, Qm Stuck evs -> Q Stuck evs) ->
  post (bind m k) Q.
Proof.
  intros Hm Hk He Hs st. unfold bind.
  destruct (Hm st) as (evs & T & q).
  destruct (m st) as [[a|e|] st1]; simpl in T, q.
  - destruct (Hk a evs q st1) as (evs' & T' & q').
    exists (evs ++ evs')%list. rewrite T', T, app_assoc. auto.
  - exists evs. simpl. auto.
  - exists evs. simpl. auto.
Qed.

Lemma post_catch {A} (m : M' A) (h : Error -> M' A)
    (Qm Q : Completion A -> list Event -> Prop) :
  post m Qm ->
  (forall e evs, Qm (Throw e) evs ->
                 post (h e) (fun c evs' => Q c (evs ++ evs')%list)) ->
  (forall a evs, Qm (Return a) evs -> Q (Return a) evs) ->
  (forall evs, Qm Stuck evs -> Q Stuck evs) ->
  post (catch m h) Q.
Proof.
  intros Hm Hh Hr Hs st. unfold catch.
  destruct (Hm st) as (evs & T & q).
  destruct (m st) as [[a|e|] st1]; simpl in T, q.
  - exists evs. simpl. auto.
  - destruct (Hh e evs q st1) as (evs' & T' & q').
    exists (evs ++ evs')%list. rewrite T', T, app_assoc. auto.
  - exists evs. simpl. auto.
Qed.

Lemma post_await (c : Call) (Q : Completion (Reply c) -> list Event -> Prop) :
  (forall r, Q (Return r) [Start c; Done c (reply_error c r)]) ->
  post (await World oracle c) Q.
Proof.
  intros q. unfold await.
  eapply post_bind with (Qm := fun c0 evs => c0 = Return tt /\ evs = [Start c]).
  - apply post_emit. auto.
  - intros [] evs [_ ->]. apply post_call. intros r. apply q.
  - intros e evs [H _]. discriminate H.
  - intros evs [H _]. discriminate H.
Qed.

End TraceRules.

(* ================================================================== *)
(** * uploadExtension *)

Lemma upload_post_prefix {A} (c : Completion A) evs evs' :
  tag_writes evs = [] -> head_replies evs = [] -> upload_failures evs = [] ->
  upload_post c evs' -> upload_post c (evs ++ evs').
Proof.
  intros Ht Hh Hf (Ht' & Hh' & Hc). unfold upload_post.
  rewrite tag_writes_app, head_replies_app, upload_failures_app, Ht, Hh, Hf.
  simpl. auto.
Qed.

Lemma quiet_post_prefix {A B} (c : Completion A) (c' : Completion B) evs evs' :
  quiet_post c evs -> quiet_post c' evs' -> quiet_post c' (evs ++ evs').
Proof.
  intros (Ht & Hh & Hf) (Ht' & Hh' & Hf'). unfold quiet_post.
  rewrite tag_writes_app, head_replies_app, upload_failures_app,
    Ht, Hh, Hf, Ht', Hh', Hf'. auto.
Qed.

Section PublishProofs.

Variable World : Type.
Variable oracle : forall c : Call, World -> Reply c * World.
Variable path_join : list string -> string.
Variable path_parse_ext : string -> string.
Variable process_env : string -> option string.

Local Abbreviation M' := (M World).
Local Abbreviation job_step' := (job_step World oracle process_env).
Local Abbreviation finish_job' := (finish_job World oracle process_env).
Local Abbreviation Promise_all' := (Promise_all World oracle process_env).

Lemma upload_post_bind {A B} (m : M' A) (k : A -> M' B) :
  post m upload_post -> (forall a, post (k a) upload_post) ->
  post (bind m k) upload_post.
Proof.
  intros Hm Hk. eapply post_bind; [exact Hm| | |].
  - intros a evs (Ht & Hh & Hf). eapply post_conseq; [apply Hk|].
    intros c evs' H. now apply upload_post_prefix.
  - intros e evs H. exact H.
  - intros evs (_ & _ & []).
Qed.

Lemma upload_post_ret {A} (a : A) : post (ret (World := World) a) upload_post.
Proof. apply post_ret. repeat split. Qed.

Lemma upload_post_log args : post (console_log (World := World) args) upload_post.
Proof. apply post_emit. repeat split. Qed.

Lemma upload_post_error args : post (console_error (World := World) args) upload_post.
Proof. apply post_emit. repeat split. Qed.

(** One completion of an upload *)
Lemma job_step_post j : post (job_step' j) upload_post.
Proof.
  destruct j as [file bucket key contentType then_log|params then_log|];
    unfold job_step.
  - eapply post_bind with
      (Qm := fun c evs => exists r, c = Return r
                          /\ evs = [Done (ReadFile file) (reply_error (ReadFile file) r)]).
    + apply post_call. intros r. now exists r.
    + intros r evs (r' & [= <-] & ->). destruct r as [body|e].
      * apply upload_post_bind; [apply post_ret; repeat split|]. intros body'.
        eapply post_conseq with (Q := upload_post).
        { apply upload_post_bind; [apply post_emit; repeat split|].
          intros _. apply upload_post_ret. }
        intros c evs' (Ht & Hh & Hf). repeat split; simpl; assumption.
      * eapply post_bind with (Qm := fun c evs => c = Throw e /\ evs = []).
        { apply post_throw. auto. }
        { intros a evs [H _]. discriminate H. }
        { intros e' evs [[= ->] ->]. repeat split. simpl. now exists (ReadFile file), e. }
        { intros evs [H _]. discriminate H. }
    + intros e evs (r & H & _). discriminate H.
    + intros evs (r & H & _). discriminate H.
  - eapply post_bind with
      (Qm := fun c evs =>
               exists r, c = Return r
                 /\ evs = [Done (S3Send (PutObjectCommand params))
                             (reply_error (S3Send (PutObjectCommand params)) r)]).
    + apply post_call. intros r. now exists r.
    + intros r evs (r' & [= <-] & ->). destruct r as [[]|err].
      * eapply post_conseq with (Q := upload_post).
        { apply upload_post_bind.
          - destruct then_log; [apply upload_post_log|apply upload_post_ret].
          - intros _. apply upload_post_ret. }
        intros c evs' (Ht & Hh & Hf). repeat split; simpl; assumption.
      * eapply post_bind with (Qm := fun c evs => c = Return tt /\ quiet_post c evs).
        { apply post_emit. repeat split. }
        { intros [] evs1 [_ Q1].
          eapply post_bind with (Qm := fun c evs => c = Return tt /\ quiet_post c evs).
          - apply post_emit. repeat split.
          - intros [] evs2 [_ Q2]. apply post_throw.
            destruct Q1 as (T1 & H1 & F1), Q2 as (T2 & H2 & F2).
            unfold upload_post.
            rewrite !app_nil_r, !tag_writes_app, !head_replies_app,
              !upload_failures_app, T1, T2, H1, H2, F1, F2. simpl.
            repeat split. now exists (S3Send (PutObjectCommand params)), err.
          - intros e evs2 [H _]. discriminate H.
          - intros evs2 [H _]. discriminate H. }
        { intros e evs1 [H _]. discriminate H. }
        { intros evs1 [H _]. discriminate H. }
    + intros e evs (r & H & _). discriminate H.
    + intros evs (r & H & _). discriminate H.
  - apply upload_post_ret.
Qed.

Lemma finish_job_post j : post (finish_job' j) upload_post.
Proof.
  unfold finish_job. apply upload_post_bind; [apply job_step_post|].
  intros j1. apply upload_post_bind; [apply job_step_post|].
  intros j2. apply upload_post_ret.
Qed.

Lemma forEach_finish_job_post jobs :
  post (forEach World finish_job' jobs) upload_post.
Proof.
  induction jobs as [|j jobs IH]; simpl.
  - apply upload_post_ret.
  - apply upload_post_bind; [apply finish_job_post|]. intros _. exact IH.
Qed.

(** Awaiting the uploads: whatever the order of the completions, at most
    one failure is observed, and it is the one thrown. *)
Lemma Promise_all_post sched jobs : post (Promise_all' sched jobs) upload_post.
Proof.
  revert jobs. induction sched as [|i sched IH]; intros jobs; simpl.
  - apply forEach_finish_job_post.
  - destruct (jobs !! i) as [j|]; [|apply IH].
    apply upload_post_bind; [apply job_step_post|]. intros j'. apply IH.
Qed.

Lemma uploadToS3_post file bucket key contentType :
  post (uploadToS3 World oracle process_env file bucket key contentType) upload_post.
Proof.
  unfold uploadToS3, uploadToS3_call.
  apply upload_post_bind.
  - apply upload_post_bind; [apply post_emit; repeat split|].
    intros _. apply upload_post_ret.
  - intros j. apply finish_job_post.
Qed.

Lemma quiet_post_bind {A B} (m : M' A) (k : A -> M' B) :
  post m quiet_post -> (forall a, post (k a) quiet_post) ->
  post (bind m k) quiet_post.
Proof.
  intros Hm Hk. eapply post_bind; [exact Hm| | |].
  - intros a evs H. eapply post_conseq; [apply Hk|].
    intros c evs' H'. eapply quiet_post_prefix; eassumption.
  - intros e evs H. exact H.
  - intros evs H. exact H.
Qed.

Lemma quiet_post_log {A} args (c : Completion A) : quiet_post c [ConsoleLog args].
Proof. repeat split. Qed.

(** The uploads of the patch files are started: nothing completes,
    nothing fails, and the jobs are returned. *)
Lemma startPatchUploads_post patchDir id hash files :
  post (startPatchUploads World path_join path_parse_ext process_env
          patchDir id hash files)
       (fun c evs => quiet_post c evs /\ exists jobs, c = Return jobs).
Proof.
  induction files as [|file files IH]; simpl.
  - apply post_ret. split; [repeat split|now exists []].
  - destruct (String.eqb _ ".puff"); [|exact IH].
    unfold uploadToS3_call.
    eapply post_bind with (Qm := fun c evs => quiet_post c evs /\ exists j, c = Return j).
    + eapply post_bind with (Qm := fun c evs => quiet_post c evs /\ c = Return tt).
      * apply post_emit. split; [repeat split|reflexivity].
      * intros [] evs [Q _]. apply post_ret. rewrite app_nil_r. split; [exact Q|eauto].
      * intros e evs [_ H]. discriminate H.
      * intros evs [_ H]. discriminate H.
    + intros j evs [Q _].
      eapply post_bind with (Qm := fun c evs => quiet_post c evs /\ exists jobs, c = Return jobs).
      * exact IH.
      * intros jobs evs' [Q' _]. apply post_ret. rewrite app_nil_r. split; [|eauto].
        eapply quiet_post_prefix; eassumption.
      * intros e evs' [_ [jobs H]]. discriminate H.
      * intros evs' [_ [jobs H]]. discriminate H.
    + intros e evs [_ [j H]]. discriminate H.
    + intros evs [_ [j H]]. discriminate H.
Qed.

(** Reading the patch directory and starting the uploads, with the
    handler for a missing directory *)
Lemma listPatches_post patchDir id hash :
  post (catch
          (bind (call World oracle (ReaddirSync patchDir))
             (fun r => bind (of_outcome r)
                (fun files => startPatchUploads World path_join path_parse_ext
                                process_env patchDir id hash files)))
          (fun err =>
             if has_code err "ENOENT" then
               bind (console_log [LStr ("Directory " ++ patchDir
                                        ++ " does not exist, no patches found.")])
                    (fun _ => ret [])
             else throw err))
       (fun c evs => quiet_post c evs /\ c <> Stuck).
Proof.
  eapply post_catch with (Qm := fun c evs => quiet_post c evs /\ c <> Stuck).
  - eapply post_bind with
      (Qm := fun c evs => quiet_post c evs /\ exists r, c = Return r).
    + apply post_call. intros r. split; [repeat split|eauto].
    + intros r evs [Q _]. destruct r as [files|e]; simpl.
      * eapply post_bind with (Qm := fun c evs => c = Return files /\ evs = []).
        { apply post_ret. auto. }
        { intros a evs0 [[= <-] ->]. cbn [app].
          eapply post_conseq; [apply startPatchUploads_post|].
          intros c evs' [Q' [jobs ->]]. split; [|discriminate].
          eapply quiet_post_prefix; eassumption. }
        { intros e evs0 [H _]. discriminate H. }
        { intros evs0 [H _]. discriminate H. }
      * eapply post_bind with (Qm := fun c evs => c = Throw e /\ evs = []).
        { apply post_throw. auto. }
        { intros a evs0 [H _]. discriminate H. }
        { intros e' evs0 [_ ->]. rewrite app_nil_r. split; [exact Q|discriminate]. }
        { intros evs0 [H _]. discriminate H. }
    + intros e evs [_ [r H]]. discriminate H.
    + intros evs [_ [r H]]. discriminate H.
  - intros e evs [Q _]. destruct (has_code e "ENOENT").
    + eapply post_bind with (Qm := fun c evs => quiet_post c evs /\ c = Return tt).
      * apply post_emit. split; [repeat split|reflexivity].
      * intros [] evs' [Q' _]. apply post_ret. rewrite app_nil_r.
        split; [|discriminate].
        eapply quiet_post_prefix with (c := Return tt); eassumption.
      * intros e' evs' [_ H]. discriminate H.
      * intros evs' [_ H]. discriminate H.
    + apply post_throw. rewrite app_nil_r. split; [exact Q|discriminate].
  - intros a evs [Q H]. split; [exact Q|discriminate].
  - intros evs [_ H]. congruence.
Qed.

(** A tagging command: it is the only thing sent, and the function
    returns or throws. *)
Lemma putObjectTagging_post bucket key TagSet failure :
  post (putObjectTagging World oracle bucket key TagSet failure)
       (fun c evs =>
          tag_writes evs = [PutObjectTaggingCommand bucket key TagSet]
          /\ head_replies evs = [] /\ upload_failures evs = []
          /\ (c = Return tt \/ exists e, c = Throw e)).
Proof.
  unfold putObjectTagging.
  eapply post_bind with
    (Qm := fun c evs =>
             (tag_writes evs = [PutObjectTaggingCommand bucket key TagSet]
              /\ head_replies evs = [] /\ upload_failures evs = [])
             /\ exists r, c = Return r).
  - apply post_await. intros r. split; [repeat split|eauto].
  - intros r evs [(T & H & F) _]. destruct r as [[]|err].
    + apply post_ret. rewrite app_nil_r. auto.
    + eapply post_bind with (Qm := fun c evs => quiet_post c evs /\ c = Return tt).
      * apply post_emit. split; [repeat split|reflexivity].
      * intros [] evs1 [(T1 & H1 & F1) _].
        eapply post_bind with (Qm := fun c evs => quiet_post c evs /\ c = Return tt).
        { apply post_emit. split; [repeat split|reflexivity]. }
        { intros [] evs2 [(T2 & H2 & F2) _]. apply post_throw.
          rewrite !app_nil_r, !tag_writes_app, !head_replies_app,
            !upload_failures_app, T, H, F, T1, H1, F1, T2, H2, F2. simpl.
          repeat split. right. eauto. }
        { intros e evs2 [_ E]. discriminate E. }
        { intros evs2 [_ E]. discriminate E. }
      * intros e evs1 [_ E]. discriminate E.
      * intros evs1 [_ E]. discriminate E.
  - intros e evs [_ [r E]]. discriminate E.
  - intros evs [_ [r E]]. discriminate E.
Qed.

Lemma publish_post_quiet t1 prev (c : Completion unit) evs :
  tag_writes evs = [] -> head_replies evs = [] -> upload_failures evs = [] ->
  publish_post t1 prev c evs.
Proof. intros T H F. unfold publish_post. now rewrite H, F. Qed.

Lemma publish_post_prefix t1 prev (c : Completion unit) evs evs' :
  tag_writes evs = [] -> head_replies evs = [] -> upload_failures evs = [] ->
  publish_post t1 prev c evs' -> publish_post t1 prev c (evs ++ evs').
Proof.
  intros T H F [P1 P2]. unfold publish_post.
  rewrite tag_writes_app, head_replies_app, upload_failures_app, T, H, F.
  cbn [app]. split; [exact P1|].
  destruct (head_replies evs') as [|[[bucket key] [e|]] [|]]; try exact P2.
  destruct P2 as (P0 & P2 & P3). split; [exact P0|]. split; [exact P2|].
  destruct (has_code e "NotFound"); [|exact P3].
  destruct P3 as [P3 (evs0 & ->)]. split; [exact P3|].
  exists (evs ++ evs0)%list. now rewrite app_assoc.
Qed.

Lemma publish_after_quiet {A} t1 prev (m : M' A) (k : A -> M' unit) :
  post m (fun c evs => quiet_post c evs) ->
  (forall a, post (k a) (publish_post t1 prev)) ->
  post (bind m k) (publish_post t1 prev).
Proof.
  intros Hm Hk. eapply post_bind; [exact Hm| | |].
  - intros a evs (T & H & F). eapply post_conseq; [apply Hk|].
    intros c evs' P. now apply publish_post_prefix.
  - intros e evs (T & H & F). now apply publish_post_quiet.
  - intros evs (T & H & F). now apply publish_post_quiet.
Qed.

Lemma publish_after_upload {A} t1 prev (m : M' A) (k : A -> M' unit) :
  post m upload_post ->
  (forall a, post (k a) (publish_post t1 prev)) ->
  post (bind m k) (publish_post t1 prev).
Proof.
  intros Hm Hk. eapply post_bind; [exact Hm| | |].
  - intros a evs (T & H & F). eapply post_conseq; [apply Hk|].
    intros c evs' P. now apply publish_post_prefix.
  - intros e evs (T & H & (c0 & e0 & F & ->)). unfold publish_post.
    rewrite F, H. auto.
  - intros evs (_ & _ & []).
Qed.

Lemma quiet_log args :
  post (console_log (World := World) args) (fun c evs => quiet_post c evs).
Proof. apply post_emit. repeat split. Qed.

Lemma head_phase_post_prefix prev (c : Completion unit) evs evs' :
  tag_writes evs = [] -> head_replies evs = [] -> upload_failures evs = [] ->
  head_phase_post prev c evs' -> head_phase_post prev c (evs ++ evs').
Proof.
  intros T H F [P1 P2]. unfold head_phase_post.
  rewrite tag_writes_app, head_replies_app, upload_failures_app, T, H, F.
  cbn [app]. split; [exact P1|].
  destruct (head_replies evs') as [|[[bucket key] [e|]] [|]]; try exact P2.
  destruct P2 as (P0 & P2 & P3). split; [exact P0|]. split; [exact P2|].
  destruct (has_code e "NotFound"); [|exact P3].
  destruct P3 as [P3 (evs0 & ->)]. split; [exact P3|].
  exists (evs ++ evs0)%list. now rewrite app_assoc.
Qed.

(** A step that writes one line and returns *)
Ltac emit_then :=
  eapply post_bind with (Qm := fun c evs => quiet_post c evs /\ c = Return tt);
  [ apply post_emit; split; [repeat split|reflexivity]
  | intros [] ? [(?T & ?H & ?F) _]
  | intros ? ? [_ ?E]; discriminate
  | intros ? [_ ?E]; discriminate ].

(** The head request on the previous object, and what follows it *)
Lemma head_phase bucket key TagSet failure line1 line2 :
  post
    (bind (await World oracle (S3Send (HeadObjectCommand bucket key)))
       (fun r =>
          match r with
          | Failed err =>
              if has_code err "NotFound" then ret tt
              else
                bind (console_error [LStr line1])
                  (fun _ => bind (console_error [LErr err; LStack err])
                     (fun _ => throw (new_Error
                                        "Unexpected error with HeadObject command")))
          | Ok _ =>
              bind (putObjectTagging World oracle bucket key TagSet failure)
                   (fun _ => console_log [LStr line2])
          end))
    (head_phase_post (bucket, key)).
Proof.
  eapply post_bind with
    (Qm := fun c evs =>
             exists r, c = Return r
               /\ evs = [Start (S3Send (HeadObjectCommand bucket key));
                         Done (S3Send (HeadObjectCommand bucket key))
                           (reply_error (S3Send (HeadObjectCommand bucket key)) r)]).
  - apply post_await. intros r. now exists r.
  - intros r evs (r' & [= <-] & ->). destruct r as [[]|err].
    + eapply post_bind; [apply putObjectTagging_post| | |].
      * intros [] evs1 (T1 & H1 & F1 & _). apply post_emit.
        unfold head_phase_post.
        rewrite !upload_failures_app, !head_replies_app, !tag_writes_app, T1, H1, F1.
        simpl. split; [reflexivity|]. split; [reflexivity|]. eauto.
      * intros e evs1 (T1 & H1 & F1 & _). unfold head_phase_post.
        rewrite !upload_failures_app, !head_replies_app, !tag_writes_app, T1, H1, F1.
        simpl. split; [reflexivity|]. split; [reflexivity|]. eauto.
      * intros evs1 (_ & _ & _ & [E|[e E]]); discriminate E.
    + destruct (has_code err "NotFound") eqn:Hc.
      * apply post_ret. unfold head_phase_post. simpl. rewrite Hc.
        repeat split.
        now exists [Start (S3Send (HeadObjectCommand bucket key))].
      * emit_then. emit_then. apply post_throw.
        unfold head_phase_post.
        rewrite !app_nil_r, !upload_failures_app, !head_replies_app, !tag_writes_app,
          T, H, F, T0, H0, F0.
        simpl. rewrite Hc. repeat split.
  - intros e evs (r & E & _). discriminate E.
  - intros evs (r & E & _). discriminate E.
Qed.

(** uploadExtension, as a whole: when the previous version is outside
    the embedded fragment nothing happens; otherwise the run is as
    [publish_post] describes. *)
Lemma uploadExtension_post sched name id version hash crxFile :
  post (uploadExtension World oracle path_join path_parse_ext process_env
          sched name id version hash crxFile)
       (fun c evs =>
          match getPreviousVersion version 1 with
          | Val previousVersion =>
              publish_post (newObjectTagging process_env name id version)
                (previousObject process_env id previousVersion) c evs
          | Unmodelled => c = Stuck /\ evs = []
          end).
Proof.
  unfold uploadExtension.
  destruct (getPreviousVersion version 1) as [previousVersion|]; cbn [of_res].
  2:{ intros st. exists []. cbn [bind fst snd]. rewrite app_nil_r. auto. }
  eapply post_bind with (Qm := fun c evs => evs = [] /\ c = Return previousVersion).
  - apply post_ret. auto.
  - intros prev evs [-> [= ->]]. cbv zeta. cbn [app].
    apply publish_after_upload; [apply uploadToS3_post|]. intros _.
    apply publish_after_quiet; [apply quiet_log|]. intros _.
    apply publish_after_quiet.
    { eapply post_conseq; [apply listPatches_post|]. now intros c evs [Q _]. }
    intros uploadJobs.
    apply publish_after_upload; [apply Promise_all_post|]. intros _.
    apply publish_after_quiet; [apply quiet_log|]. intros _.
    apply publish_after_quiet; [apply quiet_log|]. intros _.
    eapply post_bind; [apply putObjectTagging_post| | |].
    + intros [] evs (T & H & F & _).
      eapply post_conseq
        with (Q := head_phase_post (previousObject process_env id previousVersion)).
      * emit_then. emit_then.
        eapply post_conseq; [apply head_phase|].
        intros c evs' P. rewrite app_assoc.
        apply head_phase_post_prefix; [| | |exact P].
        -- rewrite tag_writes_app, T0, T1. reflexivity.
        -- rewrite head_replies_app, H0, H1. reflexivity.
        -- rewrite upload_failures_app, F0, F1. reflexivity.
      * intros c evs' [P1 P2]. unfold publish_post.
        rewrite upload_failures_app, head_replies_app, tag_writes_app, T, H, F, P1.
        cbn [app]. split; [exact I|].
        destruct (head_replies evs') as [|[[bucket key] [e|]] [|]];
          try (destruct P2; fail).
        -- destruct P2 as (P0 & P2 & P3). rewrite P2.
           split; [exact P0|]. split; [reflexivity|].
           destruct (has_code e "NotFound"); [|exact P3].
           destruct P3 as [P3 (evs0 & ->)]. split; [exact P3|].
           exists (evs ++ evs0)%list. now rewrite app_assoc.
        -- destruct P2 as (P0 & t2 & ->). split; [exact P0|]. now exists t2.
    + intros e evs (T & H & F & _). unfold publish_post. now rewrite H, F.
    + intros evs (_ & _ & _ & [E|[e E]]); discriminate E.
  - intros e evs [_ E]. discriminate E.
  - intros evs [_ E]. discriminate E.
Qed.

End PublishProofs.

Lemma head_replies_In bucket key err tr :
  In (Done (S3Send (HeadObjectCommand bucket key)) err) tr ->
  In (bucket, key, err) (head_replies tr).
Proof.
  induction tr as [|ev tr IH]; [intros []|]. intros [->|H].
  - simpl. now left.
  - specialize (IH H).
    destruct ev as [c|c e|args|args|ms]; simpl; try exact IH.
    destruct c as [| | | | | | | | | |cmd]; simpl; try exact IH.
    destruct cmd; simpl; try exact IH. now right.
Qed.

(** Every [.puff] entry of the patch directory is handed to uploadToS3
    before anything is awaited: the reads are issued in the order of the
    directory and one pending upload per entry is returned. *)
Lemma startPatchUploads_run (World : Type)
    (path_join : list string -> string) (path_parse_ext : string -> string)
    (process_env : string -> option string)
    (patchDir id hash : string) (files : list string) (st : State World) :
  exists jobs,
    startPatchUploads World path_join path_parse_ext process_env
      patchDir id hash files st
    = (Return jobs,
       {| world := world st;
          trace := (trace st
                    ++ map (fun f => Start (ReadFile (path_join [patchDir; f])))
                         (filter (fun f => is_puff path_join path_parse_ext patchDir f
                                           = true) files))%list |})
    /\ length jobs
       = length (filter (fun f => is_puff path_join path_parse_ext patchDir f = true)
                   files).
Proof.
  revert st. induction files as [|file files IH]; intros st.
  - exists []. simpl. rewrite app_nil_r. now destruct st.
  - cbn [startPatchUploads].
    destruct (String.eqb (path_parse_ext (path_join [patchDir; file])) ".puff") eqn:E.
    + rewrite filter_cons_True by (unfold is_puff; exact E).
      unfold uploadToS3_call. mrun.
      match goal with
      | |- context [startPatchUploads _ _ _ _ _ _ _ _ ?s] =>
          destruct (IH s) as (jobs & R & L); rewrite R
      end.
      eexists. split.
      * cbn [world trace map]. rewrite <- app_assoc. reflexivity.
      * simpl. now rewrite L.
    + rewrite filter_cons_False by (unfold is_puff; rewrite E; discriminate).
      exact (IH st).
Qed.

(* ------------------------------------------------------------------ *)
(** ** The batch of patch uploads *)

Lemma puts_done_app tr1 tr2 :
  puts_done (tr1 ++ tr2) = (puts_done tr1 ++ puts_done tr2)%list.
Proof.
  induction tr1 as [|ev tr1 IH]; [reflexivity|].
  destruct ev as [c|c err|args|args|ms]; simpl; try exact IH.
  destruct c as [| | | | | | | | | |cmd]; simpl; try exact IH.
  destruct cmd; simpl; try exact IH. destruct err; simpl; rewrite ?IH; reflexivity.
Qed.

Lemma uploaded_in_l evs evs' j : uploaded_in evs j -> uploaded_in (evs ++ evs') j.
Proof.
  unfold uploaded_in. destruct (job_key j); [|auto].
  rewrite puts_done_app, in_app_iff. auto.
Qed.

Lemma uploaded_in_r evs evs' j : uploaded_in evs' j -> uploaded_in (evs ++ evs') j.
Proof.
  unfold uploaded_in. destruct (job_key j); [|auto].
  rewrite puts_done_app, in_app_iff. auto.
Qed.

Lemma upload_failures_starts (files : list string) (path : string -> string) :
  upload_failures (map (fun f => Start (ReadFile (path f))) files) = [].
Proof. induction files as [|f files IH]; [reflexivity|exact IH]. Qed.

Section BatchProofs.
Variable World : Type.
Variable oracle : forall c : Call, World -> Reply c * World.
Variable path_join : list string -> string.
Variable path_parse_ext : string -> string.
Variable process_env : string -> option string.

Lemma post_and {A} (m : M World A) (Q1 Q2 : Completion A -> list Event -> Prop) :
  post m Q1 -> post m Q2 -> post m (fun c evs => Q1 c evs /\ Q2 c evs).
Proof.
  intros H1 H2 st. destruct (H1 st) as (evs & T & q1), (H2 st) as (evs' & T' & q2).
  exists evs. split; [exact T|]. split; [exact q1|].
  rewrite T in T'. apply app_inv_head in T'. now subst evs'.
Qed.

(** One completion of a pending upload takes it one state further, and
    the last one is that of the PutObject command. *)
Lemma job_step_progress j :
  post (job_step World oracle process_env j)
    (fun c evs =>
       forall j', c = Return j' ->
         match j with
         | Reading _ _ key _ _ =>
             exists params then_log, j' = Sending params then_log /\ Key params = key
         | Sending params _ => j' = Fulfilled /\ In (Key params) (puts_done evs)
         | Fulfilled => j' = Fulfilled
         end).
Proof.
  intros st.
  destruct j as [file bucket key contentType then_log|params then_log|];
    unfold job_step; mrun.
  - destruct (oracle (ReadFile file) (world st)) as [[body|e] w1]; mrun.
    + eexists. split; [rewrite <- app_assoc; reflexivity|].
      intros j' [= <-]. eauto.
    + eexists. split; [reflexivity|]. intros j' [=].
  - destruct (oracle (S3Send (PutObjectCommand params)) (world st))
      as [[[]|err] w1]; mrun.
    + destruct then_log; mrun.
      * eexists. split; [rewrite <- app_assoc; reflexivity|].
        intros j' [= <-]. split; [reflexivity|]. simpl. now left.
      * eexists. split; [reflexivity|].
        intros j' [= <-]. split; [reflexivity|]. simpl. now left.
    + eexists. split; [rewrite <- !app_assoc; reflexivity|]. intros j' [=].
  - exists []. split; [now rewrite app_nil_r|]. now intros j' [= <-].
Qed.

Lemma finish_job_uploaded j :
  post (finish_job World oracle process_env j)
    (fun c evs => c = Return tt -> uploaded_in evs j).
Proof.
  unfold finish_job.
  eapply post_bind; [apply job_step_progress| | |]; [|discriminate|discriminate].
  intros j1 evs1 P1. specialize (P1 j1 eq_refl).
  eapply post_bind; [apply job_step_progress| | |]; [|discriminate|discriminate].
  intros j2 evs2 P2. specialize (P2 j2 eq_refl).
  apply post_ret. intros _. rewrite app_nil_r.
  destruct j as [file bucket key contentType then_log|params then_log|].
  - destruct P1 as (params & then_log' & -> & <-). destruct P2 as [_ P2].
    now apply uploaded_in_r.
  - destruct P1 as [_ P1]. now apply uploaded_in_l.
  - exact I.
Qed.

Lemma forEach_finish_job_uploaded jobs :
  post (forEach World (finish_job World oracle process_env) jobs)
    (fun c evs => c = Return tt -> Forall (uploaded_in evs) jobs).
Proof.
  induction jobs as [|j jobs IH]; simpl.
  - apply post_ret. constructor.
  - eapply post_bind; [apply finish_job_uploaded| | |]; [|discriminate|discriminate].
    intros [] evs P. specialize (P eq_refl).
    eapply post_conseq; [exact IH|].
    intros c evs' Q R. constructor.
    + now apply uploaded_in_l.
    + eapply Forall_impl; [exact (Q R)|]. intros j'. apply uploaded_in_r.
Qed.

(** When Promise.all is fulfilled, every upload has put its object. *)
Lemma Promise_all_uploaded sched jobs :
  post (Promise_all World oracle process_env sched jobs)
    (fun c evs => c = Return tt -> Forall (uploaded_in evs) jobs).
Proof.
  revert jobs. induction sched as [|i sched IH]; intros jobs; simpl.
  - apply forEach_finish_job_uploaded.
  - destruct (jobs !! i) as [j|] eqn:Hj; [|apply IH].
    eapply post_bind; [apply job_step_progress| | |]; [|discriminate|discriminate].
    intros j' evs P. specialize (P j' eq_refl).
    eapply post_conseq; [apply IH|].
    intros c evs' Q R. specialize (Q R).
    apply Forall_lookup. intros n x Hn.
    destruct (decide (i = n)) as [<-|Hne].
    + assert (x = j) by congruence. subst x.
      assert (Hi : (i < length jobs)%nat) by (eapply lookup_lt_Some; exact Hj).
      pose proof (Forall_lookup_1 _ _ i j' Q (list_lookup_insert_eq jobs i j' Hi))
        as U.
      destruct j as [file bucket key contentType then_log|params then_log|].
      * destruct P as (params & then_log' & -> & <-). now apply uploaded_in_r.
      * destruct P as [_ P]. now apply uploaded_in_l.
      * exact I.
    + apply uploaded_in_r. apply (Forall_lookup_1 _ _ n x Q).
      now rewrite list_lookup_insert_ne.
Qed.

(** The uploads that startPatchUploads returns are those of the [.puff]
    entries, under the keys of the patches. *)
Lemma startPatchUploads_keys patchDir id hash files (st : State World) :
  exists jobs st',
    startPatchUploads World path_join path_parse_ext process_env
      patchDir id hash files st = (Return jobs, st')
    /\ map job_key jobs
       = map (fun f => Some (patchKey id hash f))
           (filter (fun f => is_puff path_join path_parse_ext patchDir f = true)
              files).
Proof.
  revert st. induction files as [|file files IH]; intros st.
  - exists [], st. split; reflexivity.
  - cbn [startPatchUploads].
    destruct (String.eqb (path_parse_ext (path_join [patchDir; file])) ".puff") eqn:E.
    + rewrite filter_cons_True by (unfold is_puff; exact E).
      unfold uploadToS3_call. mrun.
      match goal with
      | |- context [startPatchUploads _ _ _ _ _ _ _ _ ?s] =>
          destruct (IH s) as (jobs & st' & R & L); rewrite R
      end.
      eexists _, _. split; [reflexivity|]. simpl. now rewrite L.
    + rewrite filter_cons_False by (unfold is_puff; rewrite E; discriminate).
      exact (IH st).
Qed.
Lemma uploadToS3_fulfilled file bucket key contentType body :
  (forall w, fst (oracle (ReadFile file) w) = Ok body) ->
  (forall w,
      fst (oracle (S3Send (PutObjectCommand
                             {| Body := body; Bucket := bucket; Key := key;
                                GrantFullControl := process_env "S3_CANONICAL_ID";
                                GrantRead := process_env "CLOUDFRONT_CANONICAL_ID";
                                ContentType := contentType |})) w) = Ok tt) ->
  post (uploadToS3 World oracle process_env file bucket key contentType)
    (fun c evs =>
       c = Return tt
       /\ evs = [Start (ReadFile file); Done (ReadFile file) None;
                 Start (S3Send (PutObjectCommand
                             {| Body := body; Bucket := bucket; Key := key;
                                GrantFullControl := process_env "S3_CANONICAL_ID";
                                GrantRead := process_env "CLOUDFRONT_CANONICAL_ID";
                                ContentType := contentType |}));
                 Done (S3Send (PutObjectCommand
                             {| Body := body; Bucket := bucket; Key := key;
                                GrantFullControl := process_env "S3_CANONICAL_ID";
                                GrantRead := process_env "CLOUDFRONT_CANONICAL_ID";
                                ContentType := contentType |})) None]).
Proof.
  intros Hread Hput st.
  unfold uploadToS3, uploadToS3_call, finish_job, job_step. mrun.
  specialize (Hread (world st)).
  destruct (oracle (ReadFile file) (world st)) as [r w1]. cbn [fst] in Hread. subst r.
  mrun.
  specialize (Hput w1).
  match goal with
  | |- context [oracle ?c w1] => destruct (oracle c w1) as [r w2]
  end.
  cbn [fst] in Hput. subst r. mrun.
  eexists. split; [|split; reflexivity].
  cbn [reply_error]. rewrite <- !app_assoc. reflexivity.
Qed.

Lemma listPatches_started patchDir id hash files :
  (forall w, fst (oracle (ReaddirSync patchDir) w) = Ok files) ->
  post (catch
          (bind (call World oracle (ReaddirSync patchDir))
             (fun r => bind (of_outcome r)
                (fun files => startPatchUploads World path_join path_parse_ext
                                process_env patchDir id hash files)))
          (fun err =>
             if has_code err "ENOENT" then
               bind (console_log [LStr ("Directory " ++ patchDir
                                        ++ " does not exist, no patches found.")])
                    (fun _ => ret [])
             else throw err))
       (fun c evs =>
          (exists jobs,
             c = Return jobs
             /\ map job_key jobs
                = map (fun f => Some (patchKey id hash f))
                    (filter (fun f => is_puff path_join path_parse_ext patchDir f
                                      = true) files))
          /\ evs = (Done (ReaddirSync patchDir) None
                    :: map (fun f => Start (ReadFile (path_join [patchDir; f])))
                         (filter (fun f => is_puff path_join path_parse_ext patchDir f
                                           = true) files))%list).
Proof.
  intros Hlist st. mrun.
  specialize (Hlist (world st)).
  destruct (oracle (ReaddirSync patchDir) (world st)) as [r w1].
  cbn [fst] in Hlist. subst r. mrun.
  match goal with
  | |- context [startPatchUploads _ _ _ _ _ _ _ _ ?s] =>
      destruct (startPatchUploads_run World path_join path_parse_ext process_env
                  patchDir id hash files s) as (jobs & R & _);
      destruct (startPatchUploads_keys patchDir id hash files s)
        as (jobs' & st' & R' & K);
      rewrite R in R'; injection R' as <- _; rewrite R
  end.
  eexists. split; [|split; [exists jobs; split; [reflexivity|exact K]|reflexivity]].
  cbn [trace world reply_error]. now rewrite <- app_assoc.
Qed.

(** Steps of which only the extension of the trace is of interest *)
Lemma any_post_bind {A B} (m : M World A) (k : A -> M World B) :
  post m (fun _ _ => True) -> (forall a, post (k a) (fun _ _ => True)) ->
  post (bind m k) (fun _ _ => True).
Proof.
  intros Hm Hk. eapply post_bind with (Qm := fun _ _ => True); auto.
Qed.

Lemma any_post_of {A} (m : M World A) (Q : Completion A -> list Event -> Prop) :
  post m Q -> post m (fun _ _ => True).
Proof. intros H. eapply post_conseq; [exact H|]. auto. Qed.

Lemma uploadExtension_batch_started sched name id version hash crxFile body files :
  let patchDir := "build/patches/" ++ id ++ "/" ++ hash in
  let component := S3Send (PutObjectCommand
                             (componentObject process_env id version body)) in
  let uploaded := "Uploaded component to s3://" ++ S3_EXTENSIONS_BUCKET process_env
                  ++ "/release/" ++ id ++ "/" ++ "extension_"
                  ++ dots_to_underscores version ++ ".crx" in
  (forall w, fst (oracle (ReadFile crxFile) w) = Ok body) ->
  (forall w, fst (oracle component w) = Ok tt) ->
  (forall w, fst (oracle (ReaddirSync patchDir) w) = Ok files) ->
  getPreviousVersion version 1 <> Unmodelled ->
  post (uploadExtension World oracle path_join path_parse_ext process_env
          sched name id version hash crxFile)
    (fun _ evs =>
       exists rest,
         evs = ([Start (ReadFile crxFile); Done (ReadFile crxFile) None;
                 Start component; Done component None;
                 ConsoleLog [LStr uploaded];
                 Done (ReaddirSync patchDir) None]
                ++ map (fun f => Start (ReadFile (path_join [patchDir; f])))
                     (filter (fun f => is_puff path_join path_parse_ext patchDir f
                                       = true) files)
                ++ rest)%list
         /\ (upload_failures rest = [] ->
             forall f, In f files ->
                       is_puff path_join path_parse_ext patchDir f = true ->
                       In (patchKey id hash f) (puts_done rest))).
Proof.
  intros patchDir component uploaded Hread Hput Hlist Hprev.
  unfold uploadExtension.
  destruct (getPreviousVersion version 1) as [previousVersion|]; [|now destruct Hprev].
  cbn [of_res].
  eapply post_bind with (Qm := fun c evs => evs = [] /\ c = Return previousVersion).
  { apply post_ret. auto. }
  2:{ intros e evs [_ E]. discriminate E. }
  2:{ intros evs [_ E]. discriminate E. }
  intros prev evs [-> [= ->]]. cbv zeta. cbn [app].
  eapply post_bind; [apply (uploadToS3_fulfilled _ _ _ _ body Hread Hput)| | |].
  2:{ intros e evs [E _]. discriminate E. }
  2:{ intros evs [E _]. discriminate E. }
  intros [] evs [_ ->].
  eapply post_bind with (Qm := fun c evs => c = Return tt /\ evs = [_]).
  { apply post_emit. split; reflexivity. }
  2:{ intros e evs [E _]. discriminate E. }
  2:{ intros evs [E _]. discriminate E. }
  intros [] evs [_ ->].
  eapply post_bind; [apply (listPatches_started _ id hash files Hlist)| | |].
  2:{ intros e evs [(jobs & E & _) _]. discriminate E. }
  2:{ intros evs [(jobs & E & _) _]. discriminate E. }
  intros uploadJobs evs [(jobs & [= <-] & K) ->].
  eapply post_bind.
  { apply post_and; [apply Promise_all_post|apply Promise_all_uploaded]. }
  - intros [] evs1 [_ U]. specialize (U eq_refl).
    eapply post_conseq with (Q := fun _ _ => True).
    2:{ intros c evs _. exists (evs1 ++ evs)%list. split; [reflexivity|].
        intros _ f Hf Hp. rewrite puts_done_app, in_app_iff. left.
        assert (Hk : In (Some (patchKey id hash f)) (map job_key uploadJobs)).
        { rewrite K. apply in_map_iff. exists f. split; [reflexivity|].
          apply list_elem_of_In, list_elem_of_filter. split; [exact Hp|].
          now apply list_elem_of_In. }
        apply in_map_iff in Hk. destruct Hk as (j & Hj & Hin).
        rewrite Forall_forall in U. specialize (U j (proj2 (list_elem_of_In _ _) Hin)).
        unfold uploaded_in in U. now rewrite Hj in U. }
    apply any_post_bind; [now apply post_emit|].
    intros _. apply any_post_bind; [now apply post_emit|].
    intros _.
    apply any_post_bind; [exact (any_post_of _ _ (putObjectTagging_post _ _ _ _ _ _))|].
    intros _. apply any_post_bind; [now apply post_emit|].
    intros _. apply any_post_bind; [now apply post_emit|].
    intros _. apply any_post_bind; [now apply post_await|].
    intros [[]|err].
    + apply any_post_bind;
        [exact (any_post_of _ _ (putObjectTagging_post _ _ _ _ _ _))|].
      intros _. now apply post_emit.
    + destruct (has_code err "NotFound"); [now apply post_ret|].
      apply any_post_bind; [now apply post_emit|].
      intros _. apply any_post_bind; [now apply post_emit|].
      intros _. now apply post_throw.
  - intros e evs1 [(_ & _ & c0 & e0 & F & _) _]. exists evs1.
    split; [reflexivity|]. rewrite F. discriminate.
  - intros evs1 [(_ & _ & []) _].
Qed.

Lemma failure_last_none evs : upload_failures evs = [] -> failure_last evs.
Proof. intros F c0 e0 H. rewrite F in H. destruct H. Qed.

Lemma halting_none {A} (c : Completion A) evs :
  upload_failures evs = [] -> halting c evs.
Proof. intros F. destruct c; simpl; auto using failure_last_none. Qed.

Lemma halting_prefix {A} (c : Completion A) evs evs' :
  upload_failures evs = [] -> halting c evs' -> halting c (evs ++ evs').
Proof.
  intros F H.
  assert (L : failure_last evs' -> failure_last (evs ++ evs')).
  { intros L c0 e0 Hin. rewrite upload_failures_app, F in Hin.
    destruct (L c0 e0 Hin) as (before & lines & ->).
    exists (evs ++ before)%list, lines. now rewrite app_assoc. }
  destruct c; simpl in *; auto.
  now rewrite upload_failures_app, F, H.
Qed.

Lemma halting_bind {A B} (m : M World A) (k : A -> M World B) :
  post m halting -> (forall a, post (k a) halting) -> post (bind m k) halting.
Proof.
  intros Hm Hk. eapply post_bind; [exact Hm| | |].
  - intros a evs F. eapply post_conseq; [apply Hk|].
    intros c evs' H. now apply halting_prefix.
  - intros e evs H. exact H.
  - intros evs H. exact H.
Qed.

Lemma halting_quiet {A} (m : M World A) :
  post m (fun c evs => quiet_post c evs) -> post m halting.
Proof.
  intros H. eapply post_conseq; [exact H|].
  intros c evs (_ & _ & F). now apply halting_none.
Qed.

Lemma halting_log args : post (console_log (World := World) args) halting.
Proof. now apply post_emit. Qed.

Lemma job_step_halting j : post (job_step World oracle process_env j) halting.
Proof.
  intros st.
  destruct j as [file bucket key contentType then_log|params then_log|];
    unfold job_step; mrun.
  - destruct (oracle (ReadFile file) (world st)) as [[body|e] w1]; mrun.
    + eexists. split; [rewrite <- app_assoc; reflexivity|reflexivity].
    + exists [Done (ReadFile file) (Some e)]. split; [reflexivity|].
      intros c0 e0 [[= <- <-]|[]]. now exists [], [].
  - destruct (oracle (S3Send (PutObjectCommand params)) (world st))
      as [[[]|err] w1]; mrun.
    + destruct then_log; mrun.
      * eexists. split; [rewrite <- app_assoc; reflexivity|reflexivity].
      * eexists. split; [reflexivity|reflexivity].
    + eexists. split; [rewrite <- !app_assoc; reflexivity|].
      intros c0 e0 [[= <- <-]|[]].
      exists [], [[LStr ("Upload failed for s3://" ++ Bucket params
                          ++ "/" ++ Key params)];
                  [LStr "Unable to upload:"; LStack err;
                   LStr "Do you have ~/.aws/credentials filled out?"]].
      reflexivity.
  - exists []. split; [now rewrite app_nil_r|reflexivity].
Qed.

Lemma finish_job_halting j : post (finish_job World oracle process_env j) halting.
Proof.
  unfold finish_job. apply halting_bind; [apply job_step_halting|].
  intros j1. apply halting_bind; [apply job_step_halting|].
  intros j2. now apply post_ret.
Qed.

Lemma Promise_all_halting sched jobs :
  post (Promise_all World oracle process_env sched jobs) halting.
Proof.
  revert jobs. induction sched as [|i sched IH]; intros jobs; simpl.
  - induction jobs as [|j jobs IHj]; simpl.
    + now apply post_ret.
    + apply halting_bind; [apply finish_job_halting|]. intros _. exact IHj.
  - destruct (jobs !! i) as [j|]; [|apply IH].
    apply halting_bind; [apply job_step_halting|]. intros j'. apply IH.
Qed.

Lemma uploadToS3_halting file bucket key contentType :
  post (uploadToS3 World oracle process_env file bucket key contentType) halting.
Proof.
  unfold uploadToS3, uploadToS3_call.
  apply halting_bind.
  - apply halting_bind; [now apply post_emit|]. intros _. now apply post_ret.
  - intros j. apply finish_job_halting.
Qed.

(** In uploadExtension nothing follows an upload that failed but the
    lines that report it. *)
Lemma uploadExtension_halting sched name id version hash crxFile :
  post (uploadExtension World oracle path_join path_parse_ext process_env
          sched name id version hash crxFile)
       halting.
Proof.
  unfold uploadExtension.
  destruct (getPreviousVersion version 1) as [previousVersion|]; cbn [of_res].
  2:{ intros st. exists []. cbn [bind fst snd]. rewrite app_nil_r.
      split; [reflexivity|]. now apply failure_last_none. }
  apply halting_bind; [now apply post_ret|].
  intros prev. cbv zeta.
  apply halting_bind; [apply uploadToS3_halting|]. intros _.
  apply halting_bind; [apply halting_log|]. intros _.
  apply halting_bind.
  { apply halting_quiet. eapply post_conseq; [apply listPatches_post|].
    now intros c evs [Q _]. }
  intros uploadJobs.
  apply halting_bind; [apply Promise_all_halting|]. intros _.
  apply halting_bind; [apply halting_log|]. intros _.
  apply halting_bind; [apply halting_log|]. intros _.
  apply halting_bind.
  { eapply post_conseq; [apply putObjectTagging_post|].
    intros c evs (_ & _ & F & _). now apply halting_none. }
  intros _.
  apply halting_bind; [apply halting_log|]. intros _.
  apply halting_bind; [apply halting_log|]. intros _.
  eapply post_conseq; [apply head_phase|].
  intros c evs [F _]. now apply halting_none.
Qed.
End BatchProofs.

(** C5. When the head request of uploadExtension is answered with an
    error, the request was for the object of the previous version and the
    only tagging command sent is the one on the new object; what happens
    next depends on the code of the error alone. With the code 'NotFound'
    uploadExtension returns, that reply being the last event of the run.
    With any other code, and with no code at all, it throws a new error,
    'Unexpected error with HeadObject command': this is the case of the
    error by which the S3 client reports a missing object, whose name is
    'NotFound' and which has no code. *)
Theorem uploadExtension_head_error :
  forall (World : Type) (oracle : forall c : Call, World -> Reply c * World)
         (path_join : list string -> string) (path_parse_ext : string -> string)
         (process_env : string -> option string)
         (sched : list nat) (name id version hash crxFile : string) (w : World)
         (bucket key : string) (e : Error),
    let run := uploadExtension World oracle path_join path_parse_ext process_env
                 sched name id version hash crxFile (init w) in
    In (Done (S3Send (HeadObjectCommand bucket key)) (Some e)) (trace (snd run)) ->
    (exists previousVersion,
       getPreviousVersion version 1 = Val previousVersion
       /\ (bucket, key) = previousObject process_env id previousVersion)
    /\ tag_writes (trace (snd run)) = [newObjectTagging process_env name id version]
    /\ (code e = Some "NotFound" ->
        fst run = Return tt
        /\ exists evs0,
             trace (snd run)
             = (evs0 ++ [Done (S3Send (HeadObjectCommand bucket key)) (Some e)])%list)
    /\ (code e <> Some "NotFound" ->
        fst run = Throw (new_Error "Unexpected error with HeadObject command")).
Proof.
  intros World oracle path_join path_parse_ext process_env sched name id version
    hash crxFile w bucket key e run Hin.
  destruct (uploadExtension_post World oracle path_join path_parse_ext process_env
              sched name id version hash crxFile (init w)) as (evs & T & P).
  fold run in T, P. cbn [init trace app] in T. rewrite T in Hin |- *.
  destruct (getPreviousVersion version 1) as [previousVersion|].
  2:{ destruct P as [_ ->]. destruct Hin. }
  destruct P as [_ P]. apply head_replies_In in Hin.
  destruct (head_replies evs) as [|[[b k] err] [|]];
    try (destruct P; fail); try (destruct Hin; fail);
    try (destruct err; destruct P; fail).
  destruct Hin as [[= -> -> ->]|[]].
  destruct P as (Pprev & Ptag & P).
  split; [now exists previousVersion|]. split; [exact Ptag|].
  unfold has_code in P. split.
  - intros Hcode. rewrite Hcode in P. exact P.
  - intros Hcode. destruct (code e) as [c|]; [|exact P].
    destruct (String.eqb_spec c "NotFound") as [E|_]; [|exact P].
    destruct Hcode. now f_equal.
Qed.

(** C6, as stated, fails. The object store rejects every patch; the
    patch directory holds a.puff and b.puff. The read of both files is
    issued, the upload of a.puff is rejected, and uploadExtension throws
    at once: no PutObject command was sent for b.puff, and the one error
    thrown is all that is surfaced, whatever the order of completion. *)
Lemma uploadExtension_first_failure_only :
  let run sched :=
    uploadExtension Example.World Example.oracle Example.path_join
      Example.path_parse_ext Example.process_env sched
      "Example Name" "abc" "1.0.1" "h4sh" "out.crx" (Example.start true) in
  (forall w body,
      fst (Example.oracle
             (S3Send (PutObjectCommand
                        {| Body := body; Bucket := "brave-core-ext";
                           Key := "release/abc/patches/h4sh/b.puff";
                           GrantFullControl := None; GrantRead := None;
                           ContentType := "application/octet-stream" |}))
             {| Example.calls := w; Example.rejects_patches := true |})
      = Failed Example.access_denied)
  /\ fst (run [0; 0]%nat) = Throw (new_Error "Failed to upload extension to S3")
  /\ reads_started (trace (snd (run [0; 0]%nat)))
     = ["out.crx"; "build/patches/abc/h4sh/a.puff"; "build/patches/abc/h4sh/b.puff"]
  /\ puts_sent (trace (snd (run [0; 0]%nat)))
     = ["release/abc/extension_1_0_1.crx"; "release/abc/patches/h4sh/a.puff"]
  /\ map fst (upload_failures (trace (snd (run [0; 0]%nat))))
     = [S3Send (PutObjectCommand
                  {| Body := []; Bucket := "brave-core-ext";
                     Key := "release/abc/patches/h4sh/a.puff";
                     GrantFullControl := None; GrantRead := None;
                     ContentType := "application/octet-stream" |})]
  /\ fst (run []) = Throw (new_Error "Failed to upload extension to S3")
  /\ length (upload_failures (trace (snd (run [])))) = 1%nat
  /\ fst (run [1; 1; 0; 0]%nat) = Throw (new_Error "Failed to upload extension to S3")
  /\ length (upload_failures (trace (snd (run [1; 1; 0; 0]%nat)))) = 1%nat.
Proof.
  cbv zeta. split; [intros w body; reflexivity|].
  repeat split; vm_compute; reflexivity.
Qed.

(** C6, amended. When the CRX file has been uploaded and the patch
    directory listed, every [.puff] file of the directory is handed to
    uploadToS3, and its read is issued, before any of these uploads is
    awaited: the reads are issued together, right after the listing.
    The uploads are then awaited together: when none fails, the object of
    every patch has been put by the end of the run. The first upload
    that fails ends uploadExtension: in every run at most one upload
    failure is observed, it is what the function throws (the error of the
    read, or a new error 'Failed to upload extension to S3'), nothing
    follows the completion that failed but the lines that report it, so
    that the uploads still pending are not waited for, and no tag has
    been written and no head request made. *)
Theorem uploadExtension_fails_fast :
  forall (World : Type) (oracle : forall c : Call, World -> Reply c * World)
         (path_join : list string -> string) (path_parse_ext : string -> string)
         (process_env : string -> option string)
         (sched : list nat) (name id version hash crxFile : string) (w : World),
    let run := uploadExtension World oracle path_join path_parse_ext process_env
                 sched name id version hash crxFile (init w) in
    let patchDir := "build/patches/" ++ id ++ "/" ++ hash in
    let uploaded := "Uploaded component to s3://" ++ S3_EXTENSIONS_BUCKET process_env
                    ++ "/release/" ++ id ++ "/" ++ "extension_"
                    ++ dots_to_underscores version ++ ".crx" in
    (forall (body : list Byte.byte) (files : list string),
        let component :=
          S3Send (PutObjectCommand (componentObject process_env id version body)) in
        getPreviousVersion version 1 <> Unmodelled ->
        (forall w', fst (oracle (ReadFile crxFile) w') = Ok body) ->
        (forall w', fst (oracle component w') = Ok tt) ->
        (forall w', fst (oracle (ReaddirSync patchDir) w') = Ok files) ->
        exists rest,
          trace (snd run)
          = ([Start (ReadFile crxFile); Done (ReadFile crxFile) None;
              Start component; Done component None;
              ConsoleLog [LStr uploaded];
              Done (ReaddirSync patchDir) None]
             ++ map (fun f => Start (ReadFile (path_join [patchDir; f])))
                  (filter (fun f => is_puff path_join path_parse_ext patchDir f
                                    = true) files)
             ++ rest)%list
          /\ upload_failures (trace (snd run)) = upload_failures rest
          /\ (upload_failures rest = [] ->
              forall f, In f files ->
                        is_puff path_join path_parse_ext patchDir f = true ->
                        In (patchKey id hash f) (puts_done rest)))
    /\ (forall (c0 : Call) (e0 : Error),
          In (c0, e0) (upload_failures (trace (snd run))) ->
          upload_failures (trace (snd run)) = [(c0, e0)]
          /\ fst run = Throw (surfaced c0 e0)
          /\ tag_writes (trace (snd run)) = []
          /\ head_replies (trace (snd run)) = []
          /\ exists before lines,
               trace (snd run)
               = (before ++ Done c0 (Some e0) :: map ConsoleError lines)%list).
Proof.
  intros World oracle path_join path_parse_ext process_env sched name id version
    hash crxFile w run patchDir uploaded.
  split.
  - intros body files component Hprev Hread Hput Hlist.
    destruct (uploadExtension_batch_started World oracle path_join path_parse_ext
                process_env sched name id version hash crxFile body files
                Hread Hput Hlist Hprev (init w)) as (evs & T & rest & -> & U).
    fold run in T. cbn [init trace app] in T.
    exists rest. split; [exact T|]. split; [|exact U].
    rewrite T. cbn [upload_failures]. unfold component. cbn [upload_failures].
    rewrite upload_failures_app, upload_failures_starts. reflexivity.
  - intros c0 e0 Hin.
    destruct (uploadExtension_post World oracle path_join path_parse_ext process_env
                sched name id version hash crxFile (init w)) as (evs & T & P).
    destruct (uploadExtension_halting World oracle path_join path_parse_ext
                process_env sched name id version hash crxFile (init w))
      as (evs' & T' & L).
    fold run in T, P, T', L. cbn [init trace app] in T, T'.
    assert (E : evs' = evs) by congruence. rewrite E in L. clear T' E evs'.
    assert (Hlast : failure_last evs).
    { destruct (fst run); simpl in L; auto using failure_last_none. }
    rewrite T in Hin |- *.
    destruct (getPreviousVersion version 1) as [previousVersion|].
    2:{ destruct P as [_ ->]. destruct Hin. }
    destruct P as [P _].
    specialize (Hlast c0 e0 Hin).
    destruct (upload_failures evs) as [|[c1 e1] [|]]; try (destruct Hin; fail);
      try (destruct P; fail).
    destruct Hin as [[= -> ->]|[]]. destruct P as (Pc & Pt & Ph).
    repeat split; assumption.
Qed.

(* ================================================================== *)
(** * The theorems at the example environment *)

Lemma Example_path_join_nonempty l : Example.path_join l <> "".
Proof. unfold Example.path_join. now destruct (JSString.join "/" l). Qed.

Lemma getIDFromBase64PublicKey_identity_witness :
  getIDFromBase64PublicKey Example.base64_decode "AAEC"
  = "koeldciaofgocpkpidpebekgodnklojn"
  /\ String.length (getIDFromBase64PublicKey Example.base64_decode "AAEC") = 32%nat
  /\ JSString.forallb is_a_to_p (getIDFromBase64PublicKey Example.base64_decode "AAEC")
     = true.
Proof.
  split; [vm_compute; reflexivity|].
  exact (proj2 (getIDFromBase64PublicKey_identity Example.base64_decode
                  "AAEC" "AAEC" eq_refl)).
Defined.

Lemma fetchTextFromURL_bounded_retry_witness :
  let run := fetchTextFromURL Example.World Example.oracle
               "https://example.org/list.txt" (Example.start false) in
  fst run = Return "list"
  /\ fetches (trace (snd run)) = 3%nat
  /\ delays (trace (snd run)) = [3000; 3000].
Proof.
  cbv zeta.
  destruct (fetchTextFromURL_bounded_retry Example.World Example.oracle
              "https://example.org/list.txt" (Example.start false)
              (snd (delayReject Example.World delayMs
                      (new_Error "Error when fetching https://example.org/list.txt: socket hang up")
                      (snd (attempt Example.World Example.oracle
                              "https://example.org/list.txt"
                              (snd (delayReject Example.World delayMs
                                      (new_Error "Error when fetching https://example.org/list.txt: socket hang up")
                                      (snd (attempt Example.World Example.oracle
                                              "https://example.org/list.txt"
                                              (Example.start false)))))))))
              2%nat ltac:(lia) ltac:(vm_compute; reflexivity))
    as (_ & Hok & _).
  destruct (Hok "list" _ ltac:(vm_compute; reflexivity)) as (Hrun & Hf & Hd).
  rewrite Hrun. split; [reflexivity|]. split; [exact Hf|exact Hd].
Defined.

Lemma generatePuffPatches_continues_witness :
  exists st' evs,
    generatePuffPatches Example.World Example.oracle Example.path_join
      Example.path_resolve Example.path_parse_name Example.path_parse_ext
      Example.base64_decode "out.crx" (Some "abc") 2 (Example.start false)
    = (Return tt, st')
    /\ spawns evs
       = [("puffin",
           ["-puffdiff"; "/work/build/previous/abc/extension_1_0_0.crx";
            "/work/out.crx";
            "/work/build/patches/abc/3658f25c9bafbf143a2dbd5d503fd027f96463ad3409ebd1781275a63408175f/extension_1_0_0.puff"]);
          ("puffin",
           ["-puffdiff"; "/work/build/previous/abc/extension_1_0_1.crx";
            "/work/out.crx";
            "/work/build/patches/abc/3658f25c9bafbf143a2dbd5d503fd027f96463ad3409ebd1781275a63408175f/extension_1_0_1.puff"])]
    /\ console_errors evs = map puffin_failure_line (spawn_errors evs).
Proof.
  destruct (generatePuffPatches_continues Example.World Example.oracle
              Example.path_join Example.path_resolve Example.path_parse_name
              Example.path_parse_ext Example.base64_decode "out.crx" (Some "abc") 2
              (Example.start false) _ _ _
              ["extension_1_0_0.crx"; "notes.txt"; "extension_1_0_1.crx"]
              Example_path_join_nonempty ltac:(discriminate)
              ltac:(vm_compute; reflexivity))
    as (st' & evs & Hrun & _ & Hspawns & Herrors).
  exists st', evs. split; [exact Hrun|]. split; [|exact Herrors].
  rewrite Hspawns. vm_compute. reflexivity.
Defined.

Lemma uploadExtension_head_error_witness :
  let run := uploadExtension Example.World Example.oracle Example.path_join
               Example.path_parse_ext Example.process_env [1; 0; 1]%nat
               "Example Name" "abc" "1.0.1" "h4sh" "out.crx" (Example.start false) in
  (forall w,
      fst (Example.oracle
             (S3Send (HeadObjectCommand "brave-core-ext"
                        "release/abc/extension_1_0_0.crx")) w)
      = Failed Example.not_found)
  /\ name Example.not_found = "NotFound"
  /\ code Example.not_found = None
  /\ fst run = Throw (new_Error "Unexpected error with HeadObject command")
  /\ tag_writes (trace (snd run))
     = [PutObjectTaggingCommand "brave-core-ext" "release/abc/extension_1_0_1.crx"
          [("Example-Name", "1.0.1"); ("version", "Example-Name/latest")]].
Proof.
  cbv zeta.
  split; [intros w; reflexivity|]. split; [reflexivity|]. split; [reflexivity|].
  destruct (uploadExtension_head_error Example.World Example.oracle
              Example.path_join Example.path_parse_ext Example.process_env
              [1; 0; 1]%nat "Example Name" "abc" "1.0.1" "h4sh" "out.crx"
              {| Example.calls := 0; Example.rejects_patches := false |}
              "brave-core-ext" "release/abc/extension_1_0_0.crx" Example.not_found
              ltac:(vm_compute; repeat (first [left; reflexivity|right])))
    as (_ & Htags & _ & Hthrow).
  split; [apply Hthrow; discriminate|exact Htags].
Defined.

Lemma uploadExtension_fails_fast_witness :
  let run := uploadExtension Example.World Example.oracle Example.path_join
               Example.path_parse_ext Example.process_env [0; 0]%nat
               "Example Name" "abc" "1.0.1" "h4sh" "out.crx" (Example.start true) in
  let component :=
    S3Send (PutObjectCommand (componentObject Example.process_env "abc" "1.0.1" [])) in
  fst run = Throw (new_Error "Failed to upload extension to S3")
  /\ tag_writes (trace (snd run)) = []
  /\ length (upload_failures (trace (snd run))) = 1%nat
  /\ exists rest,
       trace (snd run)
       = ([Start (ReadFile "out.crx"); Done (ReadFile "out.crx") None;
           Start component; Done component None;
           ConsoleLog [LStr "Uploaded component to s3://brave-core-ext/release/abc/extension_1_0_1.crx"];
           Done (ReaddirSync "build/patches/abc/h4sh") None;
           Start (ReadFile "build/patches/abc/h4sh/a.puff");
           Start (ReadFile "build/patches/abc/h4sh/b.puff")]
          ++ rest)%list
       /\ length (upload_failures rest) = 1%nat.
Proof.
  cbv zeta.
  destruct (uploadExtension_fails_fast Example.World Example.oracle
              Example.path_join Example.path_parse_ext Example.process_env
              [0; 0]%nat "Example Name" "abc" "1.0.1" "h4sh" "out.crx"
              {| Example.calls := 0; Example.rejects_patches := true |})
    as (Hbatch & Hfail).
  destruct (Hfail (S3Send (PutObjectCommand
                             {| Body := []; Bucket := "brave-core-ext";
                                Key := "release/abc/patches/h4sh/a.puff";
                                GrantFullControl := None; GrantRead := None;
                                ContentType := "application/octet-stream" |}))
              Example.access_denied
              ltac:(vm_compute; left; reflexivity))
    as (Hone & Hthrow & Htags & _).
  split; [exact Hthrow|]. split; [exact Htags|].
  unfold Example.start. split; [rewrite Hone; reflexivity|].
  destruct (Hbatch [] ["a.puff"; "b.puff"] ltac:(discriminate) (fun _ => eq_refl)
              ltac:(intros w'; cbn; destruct (Example.rejects_patches w'); reflexivity)
              (fun _ => eq_refl)) as (rest & Htrace & Hsame & _).
  exists rest. split; [exact Htrace|]. rewrite <- Hsame, Hone. reflexivity.
Defined.

(* ================================================================== *)
(** * More on versions *)

Lemma trim_end_no_space s :
  JSString.forallb (fun c => negb (JSString.is_space c)) s = true ->
  JSString.trim_end s = s.
Proof.
  induction s as [|c s IH]; simpl; [reflexivity|].
  intros H. apply andb_prop in H as [Hc Hs]. apply negb_true_iff in Hc.
  rewrite (IH Hs), Hc. now destruct s.
Qed.

Lemma digits_no_space s :
  JSString.forallb JSString.is_digit s = true ->
  JSString.forallb (fun c => negb (JSString.is_space c)) s = true.
Proof.
  induction s as [|c s IH]; simpl; [reflexivity|].
  intros H. apply andb_prop in H as [Hc Hs].
  now rewrite (digit_not_space c Hc), (IH Hs).
Qed.

(** StringToNumber reads back the numeral of an integer, negative ones
    included. *)
Lemma StringToNumber_Z_to_string z :
  JSNumber.StringToNumber (JSNumber.Z_to_string z) = JSNumber.of_Z z.
Proof.
  destruct (Z.neg_nonneg_cases z) as [Hneg|Hpos].
  2:{ apply StringToNumber_digits. now apply digits_value_Z_to_string. }
  destruct z as [|p|p]; try lia.
  unfold JSNumber.Z_to_string. cbn [Z.to_int NilZero.string_of_int].
  set (d := NilZero.string_of_uint (Pos.to_uint p)).
  assert (Hv : JSNumber.digits_value d = Some (Z.pos p))
    by exact (digits_value_Z_to_string (Z.pos p) ltac:(lia)).
  assert (Hd : JSString.forallb JSString.is_digit d = true).
  { unfold JSNumber.digits_value, NilZero.uint_of_string in Hv.
    destruct d as [|a d']; [discriminate|].
    destruct (NilEmpty.uint_of_string (String a d')) eqn:E; [|discriminate].
    eapply uint_of_string_digits; eassumption. }
  unfold JSNumber.StringToNumber, JSString.trim.
  cbn [JSString.trim_start]. change (JSString.is_space "-") with false. cbv iota.
  rewrite trim_end_no_space
    by (cbn [JSString.forallb]; now rewrite (digits_no_space d Hd)).
  change (Ascii.eqb "-" "-") with true. cbv iota. now rewrite Hv.
Qed.

Lemma split_join_numeral (pre : list string) z version last :
  JSString.split "." version = (pre ++ [last])%list ->
  JSString.split "." (JSString.join "." (pre ++ [JSNumber.Z_to_string z])%list)
  = (pre ++ [JSNumber.Z_to_string z])%list.
Proof.
  intros E. apply split_join.
  - now destruct pre.
  - apply Forall_app. split.
    + pose proof (split_no_sep "." version) as F. rewrite E in F.
      apply Forall_app in F. tauto.
    + constructor; [apply Z_to_string_no_dot|constructor].
Qed.

(** The decrement of a numeric trailing segment *)
Lemma getPreviousVersion_numeric version (pre : list string) last n diff :
  String.eqb version FirstVersion = false ->
  JSString.split "." version = (pre ++ [last])%list ->
  JSNumber.StringToNumber last = Val (JSNumber.Int n) ->
  Z.abs diff <= JSNumber.MAX_EXACT ->
  Z.abs (n - diff) <= JSNumber.MAX_EXACT ->
  getPreviousVersion version diff
  = Val (JSString.join "." (pre ++ [JSNumber.Z_to_string (n - diff)])%list).
Proof.
  intros Hv E Hn Hd Hr.
  rewrite (getPreviousVersion_unfold version diff pre last Hv E Hd), Hn. simpl.
  unfold JSNumber.sub, JSNumber.negate, JSNumber.add.
  replace (n + - diff) with (n - diff) by lia.
  now rewrite of_Z_in_range by lia.
Qed.

(** X1. getPreviousVersion with diff = 1 followed by incrementVersion gives
    the version back, for every version whose trailing segment is the
    numeral of an integer (zero and negative ones included), except for
    the first version: "1.0.0" is its own previous version and comes
    back as "1.0.1". *)
Theorem decrementThenIncrement_round_trip :
  forall version (pre : list string) n,
    JSString.split "." version = (pre ++ [JSNumber.Z_to_string n])%list ->
    - JSNumber.MAX_EXACT < n <= JSNumber.MAX_EXACT ->
    decrementThenIncrement version
    = if String.eqb version "1.0.0" then Val "1.0.1" else Val version.
Proof.
  intros version pre n E Hn. unfold decrementThenIncrement.
  destruct (String.eqb version "1.0.0") eqn:Hv.
  - apply String.eqb_eq in Hv. subst version. reflexivity.
  - assert (HM : JSNumber.MAX_EXACT = 2 ^ 53) by reflexivity.
    rewrite (getPreviousVersion_numeric version pre _ n 1 Hv E)
      by (rewrite ?StringToNumber_Z_to_string, ?of_Z_in_range; try reflexivity; lia).
    simpl.
    rewrite (incrementVersion_unfold _ pre (JSNumber.Z_to_string (n - 1)))
      by (eapply split_join_numeral; exact E).
    rewrite StringToNumber_Z_to_string, of_Z_in_range by lia. simpl.
    rewrite of_Z_in_range by lia. simpl.
    replace (n - 1 + 1) with n by lia. rewrite <- E. now rewrite join_split.
Qed.

Lemma decrementThenIncrement_round_trip_witness :
  decrementThenIncrement "2.7.0" = Val "2.7.0"
  /\ decrementThenIncrement "1.0.0" = Val "1.0.1".
Proof.
  split.
  - exact (decrementThenIncrement_round_trip "2.7.0" ["2"; "7"] 0 eq_refl
             ltac:(vm_compute; split; [reflexivity|discriminate])).
  - exact (decrementThenIncrement_round_trip "1.0.0" ["1"; "0"] 0 eq_refl
             ltac:(vm_compute; split; [reflexivity|discriminate])).
Defined.

(** X2. Two steps back are one step back by the sum, unless the first step
    lands on the first version: from "1.0.0" getPreviousVersion does not
    move, whatever the difference. *)
Theorem getPreviousVersion_twice :
  forall version (pre : list string) last n a b,
    String.eqb version "1.0.0" = false ->
    JSString.split "." version = (pre ++ [last])%list ->
    JSNumber.digits_value last = Some n ->
    n <= JSNumber.MAX_EXACT ->
    Z.abs a <= JSNumber.MAX_EXACT -> Z.abs b <= JSNumber.MAX_EXACT ->
    Z.abs (a + b) <= JSNumber.MAX_EXACT ->
    Z.abs (n - a) <= JSNumber.MAX_EXACT ->
    Z.abs (n - (a + b)) <= JSNumber.MAX_EXACT ->
    (let* w := getPreviousVersion version a in getPreviousVersion w b)
    = if String.eqb (JSString.join "." (pre ++ [JSNumber.Z_to_string (n - a)])%list)
           "1.0.0"
      then Val "1.0.0"
      else getPreviousVersion version (a + b).
Proof.
  intros version pre last n a b Hv E Hn Hle Ha Hb Hab Hna Hnab.
  assert (H0 : 0 <= n).
  { unfold JSNumber.digits_value in Hn.
    destruct (NilZero.uint_of_string last) as [d|]; [|discriminate].
    injection Hn as <-. unfold Z.of_uint. lia. }
  assert (Hs : JSNumber.StringToNumber last = Val (JSNumber.Int n))
    by (rewrite (StringToNumber_digits last n Hn); apply of_Z_in_range; lia).
  rewrite (getPreviousVersion_numeric version pre last n a Hv E Hs Ha Hna).
  rewrite (getPreviousVersion_numeric version pre last n (a + b) Hv E Hs Hab Hnab).
  simpl.
  set (w := JSString.join "." (pre ++ [JSNumber.Z_to_string (n - a)])%list).
  destruct (String.eqb w "1.0.0") eqn:Hw.
  - unfold getPreviousVersion, FirstVersion. now rewrite Hw.
  - rewrite (getPreviousVersion_numeric w pre (JSNumber.Z_to_string (n - a))
               (n - a) b Hw).
    + now replace (n - a - b) with (n - (a + b)) by lia.
    + eapply split_join_numeral; exact E.
    + rewrite StringToNumber_Z_to_string. now apply of_Z_in_range.
    + exact Hb.
    + now replace (n - a - b) with (n - (a + b)) by lia.
Qed.

Lemma getPreviousVersion_twice_witness :
  (let* w := getPreviousVersion "1.0.5" 2 in getPreviousVersion w 1) = Val "1.0.2"
  /\ (let* w := getPreviousVersion "1.0.2" 2 in getPreviousVersion w 1) = Val "1.0.0"
  /\ getPreviousVersion "1.0.2" 3 = Val "1.0.-1".
Proof.
  split; [|split].
  - exact (getPreviousVersion_twice "1.0.5" ["1"; "0"] "5" 5 2 1 eq_refl eq_refl
             eq_refl ltac:(vm_compute; discriminate) ltac:(vm_compute; discriminate)
             ltac:(vm_compute; discriminate) ltac:(vm_compute; discriminate)
             ltac:(vm_compute; discriminate) ltac:(vm_compute; discriminate)).
  - exact (getPreviousVersion_twice "1.0.2" ["1"; "0"] "2" 2 2 1 eq_refl eq_refl
             eq_refl ltac:(vm_compute; discriminate) ltac:(vm_compute; discriminate)
             ltac:(vm_compute; discriminate) ltac:(vm_compute; discriminate)
             ltac:(vm_compute; discriminate) ltac:(vm_compute; discriminate)).
  - reflexivity.
Defined.

(** X3. A trailing segment that does not convert to a number poisons the
    version: incrementVersion puts "NaN" in its place, and neither
    incrementVersion nor getPreviousVersion changes the result again. *)
Theorem incrementVersion_NaN_absorbing :
  forall version (pre : list string) last diff,
    JSString.split "." version = (pre ++ [last])%list ->
    JSNumber.StringToNumber last = Val JSNumber.NaN ->
    Z.abs diff <= JSNumber.MAX_EXACT ->
    let stuck := JSString.join "." (pre ++ ["NaN"])%list in
    incrementVersion version = Val stuck
    /\ incrementVersion stuck = Val stuck
    /\ getPreviousVersion stuck diff = Val stuck.
Proof.
  intros version pre last diff E Hn Hd stuck.
  assert (Hsplit : JSString.split "." stuck = (pre ++ ["NaN"])%list).
  { apply split_join; [now destruct pre|].
    apply Forall_app. split.
    - pose proof (split_no_sep "." version) as F. rewrite E in F.
      apply Forall_app in F. tauto.
    - constructor; [reflexivity|constructor]. }
  split; [|split].
  - rewrite (incrementVersion_unfold version pre last E), Hn. reflexivity.
  - rewrite (incrementVersion_unfold stuck pre "NaN" Hsplit). reflexivity.
  - assert (Hs : String.eqb stuck FirstVersion = false).
    { destruct (String.eqb_spec stuck FirstVersion) as [Heq|]; [|reflexivity].
      rewrite Heq in Hsplit.
      change (JSString.split "." FirstVersion) with (["1"; "0"] ++ ["0"])%list in Hsplit.
      apply app_inj_tail in Hsplit as [_ H0]. discriminate H0. }
    rewrite (getPreviousVersion_unfold stuck diff pre "NaN" Hs Hsplit Hd). reflexivity.
Qed.

Lemma incrementVersion_NaN_absorbing_witness :
  incrementVersion "1.0.beta" = Val "1.0.NaN"
  /\ incrementVersion "1.0.NaN" = Val "1.0.NaN"
  /\ getPreviousVersion "1.0.NaN" 1 = Val "1.0.NaN".
Proof.
  exact (incrementVersion_NaN_absorbing "1.0.beta" ["1"; "0"] "beta" 1
           eq_refl eq_refl ltac:(vm_compute; discriminate)).
Defined.

(** X4. A trailing segment that is empty or holds white space only counts
    as 0: incrementVersion puts "1" in its place. In particular the empty
    version increments to "1", and "1.0." to "1.0.1". *)
Theorem incrementVersion_blank_segment :
  forall version (pre : list string) last,
    JSString.split "." version = (pre ++ [last])%list ->
    JSString.trim last = "" ->
    incrementVersion version = Val (JSString.join "." (pre ++ ["1"])%list).
Proof.
  intros version pre last E Ht.
  rewrite (incrementVersion_unfold version pre last E).
  unfold JSNumber.StringToNumber. rewrite Ht. reflexivity.
Qed.

Lemma incrementVersion_blank_segment_witness :
  incrementVersion "" = Val "1" /\ incrementVersion "1.0. " = Val "1.0.1".
Proof.
  split.
  - exact (incrementVersion_blank_segment "" [] "" eq_refl eq_refl).
  - exact (incrementVersion_blank_segment "1.0. " ["1"; "0"] " " eq_refl eq_refl).
Defined.

(* ================================================================== *)
(** * More on the ledger *)

Lemma getNextVersion_lookup (table : Table) id item contentHash :
  table !! id = Some item ->
  getNextVersion table id contentHash = nextVersionOf [item] contentHash.
Proof. intros H. unfold getNextVersion. now rewrite (Query_Some table id item H). Qed.

(** When getNextVersion returns NoChange *)
Lemma getNextVersion_NoChange_helper (table : Table) id contentHash :
  getNextVersion table id contentHash = Val None ->
  exists item stored,
    table !! id = Some item
    /\ Version item <> ""
    /\ ContentHash item = Some {| S_ := Some stored |}
    /\ contentHash = Some stored.
Proof.
  unfold getNextVersion, Query.
  destruct (table !! id) as [item|]; [|discriminate].
  simpl. destruct (String.eqb_spec (Version item) "") as [|Hv]; [discriminate|].
  simpl. destruct (contentHash_matches item contentHash) eqn:Hm.
  - intros _. apply contentHash_matches_iff in Hm as (stored & Hc & Hh).
    now exists item, stored.
  - destruct (incrementVersion (Version item)); discriminate.
Qed.

(** X5. Read after write. Once updateDynamoDB has recorded a non-empty
    version with a content hash, getNextVersion for that identity returns
    NoChange for the same hash, and the increment of the recorded version
    for any other hash, whatever the table held before. *)
Theorem getNextVersion_after_update :
  forall (table : Table) id version hash name disabled h patchList,
    version <> "" ->
    let table' := updateDynamoDB table id version hash name disabled (Some h) patchList in
    getNextVersion table' id (Some h) = Val None
    /\ forall h', h' <> Some h ->
         getNextVersion table' id h'
         = let* next := incrementVersion version in Val (Some next).
Proof.
  intros table id version hash name disabled h patchList Hv table'.
  assert (L : table' !! id
              = Some {| ID := id; SHA256 := hash; Version := version; Title := name;
                        Disabled := disabled;
                        ContentHash := Some {| S_ := Some h |};
                        PatchList := patchList |})
    by apply lookup_insert_eq.
  split.
  - rewrite (getNextVersion_lookup _ _ _ _ L). simpl.
    destruct (String.eqb_spec version "") as [|_]; [contradiction|]. simpl.
    unfold contentHash_matches. simpl. now rewrite String.eqb_refl.
  - intros h' Hh. rewrite (getNextVersion_lookup _ _ _ _ L). simpl.
    destruct (String.eqb_spec version "") as [|_]; [contradiction|]. simpl.
    unfold contentHash_matches. simpl.
    destruct h' as [h'|]; [|reflexivity].
    destruct (String.eqb_spec h h') as [->|_]; [now destruct Hh|reflexivity].
Qed.

Lemma getNextVersion_after_update_witness :
  let table' := updateDynamoDB ∅ "id" "1.0.4" "sha" "title" false (Some "H1") ∅ in
  getNextVersion table' "id" (Some "H1") = Val None
  /\ getNextVersion table' "id" (Some "H2") = Val (Some "1.0.5").
Proof.
  cbv zeta.
  destruct (getNextVersion_after_update ∅ "id" "1.0.4" "sha" "title" false "H1" ∅
              ltac:(discriminate)) as [Hsame Hother].
  split; [exact Hsame|].
  exact (Hother (Some "H2") ltac:(discriminate)).
Defined.

(** X6. Without a content hash there is no NoChange. getNextVersion called
    without a content hash never returns NoChange, and a record that
    updateDynamoDB wrote without a content hash is never taken as
    unchanged, whatever hash is asked for. *)
Theorem getNextVersion_without_hash :
  forall (table : Table) id version hash name disabled patchList contentHash,
    getNextVersion table id None <> Val None
    /\ getNextVersion
         (updateDynamoDB table id version hash name disabled None patchList)
         id contentHash <> Val None.
Proof.
  intros table id version hash name disabled patchList contentHash. split.
  - intros H. apply getNextVersion_NoChange_helper in H as (item & stored & _ & _ & _ & E).
    discriminate E.
  - intros H. apply getNextVersion_NoChange_helper in H as (item & stored & L & _ & C & _).
    unfold updateDynamoDB, PutItem in L. cbn [ID] in L.
    rewrite lookup_insert_eq in L. injection L as <-. discriminate C.
Qed.

(* ================================================================== *)
(** * More on identities and hashes *)

Lemma hex_digit_round_trip c :
  is_lower_hex c = true ->
  exists c', JSString.charAt "abcdefghijklmnop" (JSString.indexOf c "0123456789abcdef")
             = String c' EmptyString
             /\ digit_of_letter c' = c.
Proof.
  destruct c as [[] [] [] [] [] [] [] []]; intros H; try discriminate H;
    eexists; split; reflexivity.
Qed.

Lemma replace_hex_digits_inj s t :
  JSString.forallb is_lower_hex s = true ->
  JSString.forallb is_lower_hex t = true ->
  JSString.replace_chars is_lower_hex
    (fun c => JSString.charAt "abcdefghijklmnop"
                (JSString.indexOf c "0123456789abcdef")) s
  = JSString.replace_chars is_lower_hex
      (fun c => JSString.charAt "abcdefghijklmnop"
                  (JSString.indexOf c "0123456789abcdef")) t ->
  s = t.
Proof.
  revert t. induction s as [|c s IH]; intros [|d t] Hs Ht.
  - reflexivity.
  - cbn [JSString.forallb] in Ht. apply andb_prop in Ht as [Hd _].
    destruct (hex_digit_round_trip d Hd) as (d' & E & _).
    cbn [JSString.replace_chars]. rewrite Hd, E. discriminate.
  - cbn [JSString.forallb] in Hs. apply andb_prop in Hs as [Hc _].
    destruct (hex_digit_round_trip c Hc) as (c' & E & _).
    cbn [JSString.replace_chars]. rewrite Hc, E. discriminate.
  - cbn [JSString.forallb] in Hs, Ht.
    apply andb_prop in Hs as [Hc Hs]. apply andb_prop in Ht as [Hd Ht].
    destruct (hex_digit_round_trip c Hc) as (c' & Ec & Bc).
    destruct (hex_digit_round_trip d Hd) as (d' & Ed & Bd).
    cbn [JSString.replace_chars]. rewrite Hc, Hd, Ec, Ed.
    change (String c' EmptyString ++ ?r)%string with (String c' r).
    change (String d' EmptyString ++ ?r)%string with (String d' r).
    intros H. injection H as Hh Hr.
    f_equal; [|now apply IH]. rewrite <- Bc, <- Bd. now f_equal.
Qed.

(** X8. The letters of an identity lose nothing of the digest: two public
    keys have the same identity exactly when the SHA-256 digests of their
    decoded bytes agree on the first 32 hexadecimal digits. *)
Theorem getIDFromBase64PublicKey_injective :
  forall (base64_decode : string -> list Byte.byte) (key1 key2 : string),
    getIDFromBase64PublicKey base64_decode key1
    = getIDFromBase64PublicKey base64_decode key2
    <-> JSString.substring0 32 (generateSHA256Hash (base64_decode key1))
        = JSString.substring0 32 (generateSHA256Hash (base64_decode key2)).
Proof.
  intros base64_decode key1 key2. unfold getIDFromBase64PublicKey. split.
  - apply replace_hex_digits_inj; apply substring0_forallb, hex_lower.
  - intros ->. reflexivity.
Qed.

(** X9. generateSHA256Hash returns 64 lower-case hexadecimal digits, for
    every input: the hash is usable as one path segment of the patch
    directory and of the object key. *)
Theorem generateSHA256Hash_format :
  forall data : list Byte.byte,
    String.length (generateSHA256Hash data) = 64%nat
    /\ JSString.forallb is_lower_hex (generateSHA256Hash data) = true.
Proof.
  intros data. unfold generateSHA256Hash. split.
  - now rewrite hex_length, digest_length.
  - apply hex_lower.
Qed.

(* ================================================================== *)
(** * escapeStringForJSON *)

Lemma drop_last_app s c :
  JSON.drop_last (s ++ String c EmptyString) = s.
Proof.
  induction s as [|d s IH]; [reflexivity|].
  change (String d s ++ String c EmptyString)%string
    with (String d (s ++ String c EmptyString)).
  destruct (s ++ String c EmptyString)%string as [|a s0] eqn:E.
  - destruct s; discriminate E.
  - change (JSON.drop_last (String d (String a s0)))
      with (String d (JSON.drop_last (String a s0))).
    now rewrite IH.
Qed.

Lemma escapeStringForJSON_chars str :
  escapeStringForJSON str = JSON.QuoteJSONChars str.
Proof. unfold escapeStringForJSON, JSON.stringify. simpl. apply drop_last_app. Qed.

Lemma unescape_QuoteJSONChar c t :
  JSON.unescape (JSON.QuoteJSONChar c ++ t)
  = option_map (String c) (JSON.unescape t).
Proof.
  destruct c as [[] [] [] [] [] [] [] []]; reflexivity.
Qed.

Lemma QuoteJSONChar_plain c :
  is_plain_json_char c = true -> JSON.QuoteJSONChar c = String c EmptyString.
Proof.
  destruct c as [[] [] [] [] [] [] [] []]; intros H; try discriminate H; reflexivity.
Qed.

(** X10. What escapeStringForJSON returns is the inside of a JSON string
    literal that reads back as the input: no quote and no control
    character is left unescaped. A string of printable characters
    without quote and backslash is returned as it is. *)
Theorem escapeStringForJSON_round_trip :
  forall str : string,
    JSON.unescape (escapeStringForJSON str) = Some str
    /\ (JSString.forallb is_plain_json_char str = true ->
        escapeStringForJSON str = str).
Proof.
  intros str. rewrite escapeStringForJSON_chars. split.
  - induction str as [|c s IH]; [reflexivity|].
    cbn [JSON.QuoteJSONChars]. rewrite unescape_QuoteJSONChar, IH. reflexivity.
  - induction str as [|c s IH]; [reflexivity|].
    intros H. cbn [JSString.forallb] in H. apply andb_prop in H as [Hc Hs].
    cbn [JSON.QuoteJSONChars]. rewrite (QuoteJSONChar_plain c Hc), (IH Hs).
    reflexivity.
Qed.

Lemma escapeStringForJSON_round_trip_witness :
  escapeStringForJSON "Brave NTP sponsored images" = "Brave NTP sponsored images".
Proof.
  exact (proj2 (escapeStringForJSON_round_trip "Brave NTP sponsored images") eq_refl).
Defined.

(* ================================================================== *)
(** * More on fetchTextFromURL *)

(** X11. When all five attempts fail, the rejection of fetchTextFromURL is
    itself delayed: five timers of 3000 ms elapse, the last one after the
    last attempt, and the last two lines logged announce a retry that
    does not take place. *)
Theorem fetchTextFromURL_rejection_delayed :
  forall (World : Type) (oracle : forall c : Call, World -> Reply c * World)
         (listURL : string) (st s s' : State World) (e : Error),
    failed_attempts World oracle 4 listURL st = Some s ->
    attempt World oracle listURL s = (Throw e, s') ->
    let run := fetchTextFromURL World oracle listURL st in
    fst run = Throw e
    /\ delays (trace (snd run)) = (delays (trace st) ++ repeat 3000 5)%list
    /\ trace (snd run)
       = (trace s' ++ [Timeout 3000;
                       ConsoleLog [LStr ("Spurious error: " ++ message e)];
                       ConsoleLog [LStr "  (retrying...)"]])%list.
Proof.
  intros World oracle listURL st s s' e H Ha run. unfold run, fetchTextFromURL, maxAttempts.
  rewrite (retry_chain_rejects World oracle 4 listURL st s e s' H Ha).
  rewrite delayReject_run. cbn [fst snd trace].
  split; [reflexivity|]. split; [|reflexivity].
  destruct (failed_attempts_trace World oracle 4 listURL st s H) as [_ Hd].
  destruct (attempt_trace World oracle listURL s) as (err & Ht & _).
  rewrite Ha in Ht. cbn [snd] in Ht.
  rewrite Ht, !delays_app, Hd. cbn [delays app]. rewrite app_nil_r, <- app_assoc.
  reflexivity.
Qed.

Lemma fetchTextFromURL_rejection_delayed_witness :
  exists s s',
    failed_attempts Example.World Moved.oracle 4 "https://example.org/list"
      (Example.start false) = Some s
    /\ attempt Example.World Moved.oracle "https://example.org/list" s
       = (Throw (status_error "https://example.org/list" Moved.response), s')
    /\ let run := fetchTextFromURL Example.World Moved.oracle
                    "https://example.org/list" (Example.start false) in
       fst run = Throw (status_error "https://example.org/list" Moved.response)
       /\ delays (trace (snd run))
          = (delays (trace (Example.start false)) ++ repeat 3000 5)%list
       /\ trace (snd run)
          = (trace s' ++ [Timeout 3000;
                          ConsoleLog [LStr ("Spurious error: "
                            ++ message (status_error "https://example.org/list"
                                          Moved.response))];
                          ConsoleLog [LStr "  (retrying...)"]])%list.
Proof.
  do 2 eexists. split; [vm_compute; reflexivity|]. split; [vm_compute; reflexivity|].
  eapply (fetchTextFromURL_rejection_delayed Example.World Moved.oracle
            "https://example.org/list" (Example.start false));
    vm_compute; reflexivity.
Defined.

Section FetchStatus.

Variable World : Type.
Variable oracle : forall c : Call, World -> Reply c * World.
Variable listURL : string.
Variable response : Response.

Hypothesis always_responds : forall w, fst (oracle (Fetch listURL) w) = Ok response.
Hypothesis not_200 : status response <> 200.

Lemma attempt_status st :
  exists s', attempt World oracle listURL st
             = (Throw (status_error listURL response), s').
Proof.
  unfold attempt. mrun. pose proof (always_responds (world st)) as H.
  destruct (oracle (Fetch listURL) (world st)) as [r w]. cbn [fst] in H. subst r.
  mrun. destruct (Z.eqb_spec (status response) 200) as [E|_]; [contradiction|].
  mrun. eexists. reflexivity.
Qed.

Lemma failed_attempts_status k st :
  exists s, failed_attempts World oracle k listURL st = Some s.
Proof.
  induction k as [|k [s IH]]; [now exists st|].
  destruct (attempt_status s) as (s' & Ha).
  eexists. cbn [failed_attempts]. rewrite IH, Ha. reflexivity.
Qed.

End FetchStatus.

(** X12. A response with a status other than 200 is a failed attempt,
    whatever its body. Against a server that keeps answering with such a
    response, fetchTextFromURL makes five fetches and is rejected with an
    error that names the status and, twice, the URL. *)
Theorem fetchTextFromURL_status_not_200 :
  forall (World : Type) (oracle : forall c : Call, World -> Reply c * World)
         (listURL : string) (response : Response) (st : State World),
    (forall w, fst (oracle (Fetch listURL) w) = Ok response) ->
    status response <> 200 ->
    let run := fetchTextFromURL World oracle listURL st in
    fst run = Throw (status_error listURL response)
    /\ fetches (trace (snd run)) = (fetches (trace st) + 5)%nat.
Proof.
  intros World oracle listURL response st Hr Hs run.
  destruct (failed_attempts_status World oracle listURL response Hr Hs 4 st) as (s & H).
  destruct (attempt_status World oracle listURL response Hr Hs s) as (s' & Ha).
  unfold run, fetchTextFromURL, maxAttempts.
  rewrite (retry_chain_rejects World oracle 4 listURL st s _ s' H Ha).
  rewrite delayReject_run. cbn [fst snd trace]. split; [reflexivity|].
  destruct (failed_attempts_trace World oracle 4 listURL st s H) as [Hf _].
  destruct (attempt_trace World oracle listURL s) as (err & Ht & _).
  rewrite Ha in Ht. cbn [snd] in Ht.
  rewrite Ht, !fetches_app, Hf. simpl. lia.
Qed.

Lemma fetchTextFromURL_status_not_200_witness :
  let run := fetchTextFromURL Example.World Moved.oracle "https://example.org/list"
               (Example.start false) in
  fst run = Throw (status_error "https://example.org/list" Moved.response)
  /\ fetches (trace (snd run)) = (fetches (trace (Example.start false)) + 5)%nat.
Proof.
  apply (fetchTextFromURL_status_not_200 Example.World Moved.oracle
           "https://example.org/list" Moved.response (Example.start false)).
  - intros w. reflexivity.
  - discriminate.
Defined.

(* ================================================================== *)
(** * More on uploadExtension *)

Lemma readdir_replies_app tr1 tr2 :
  readdir_replies (tr1 ++ tr2) = (readdir_replies tr1 ++ readdir_replies tr2)%list.
Proof.
  induction tr1 as [|ev tr1 IH]; [reflexivity|].
  destruct ev as [c|c err|args|args|ms]; simpl; try exact IH.
  destruct c; simpl; rewrite ?IH; reflexivity.
Qed.

Lemma readdir_replies_In dir err tr :
  In (Done (ReaddirSync dir) err) tr -> In (dir, err) (readdir_replies tr).
Proof.
  induction tr as [|ev tr IH]; [intros []|]. intros [->|H].
  - simpl. now left.
  - specialize (IH H).
    destruct ev as [c|c e|args|args|ms]; simpl; try exact IH.
    destruct c; simpl; try exact IH. now right.
Qed.

Lemma head_replies_None_In bucket key tr :
  In (Done (S3Send (HeadObjectCommand bucket key)) None) tr ->
  In (bucket, key, None) (head_replies tr).
Proof.
  induction tr as [|ev tr IH]; [intros []|]. intros [->|H].
  - simpl. now left.
  - specialize (IH H).
    destruct ev as [c|c e|args|args|ms]; simpl; try exact IH.
    destruct c as [| | | | | | | | | |cmd]; simpl; try exact IH.
    destruct cmd; simpl; try exact IH. now right.
Qed.

Lemma read_starts_quiet {A} (f : A -> string) (l : list A) :
  let reads := map (fun x => Start (ReadFile (f x))) l in
  tag_writes reads = [] /\ head_replies reads = []
  /\ puts_sent reads = [] /\ readdir_replies reads = [].
Proof. induction l as [|x l IH]; [now repeat split|exact IH]. Qed.

(** The end of a symbolic run: the events are read off the trace *)
Ltac run_done :=
  eexists; split;
  [ cbn [fst snd trace]; rewrite <- ?app_assoc; cbn [app]; reflexivity
  | cbn [fst snd] ].

Section RetagProofs.

Variable World : Type.
Variable oracle : forall c : Call, World -> Reply c * World.
Variable path_join : list string -> string.
Variable path_parse_ext : string -> string.
Variable process_env : string -> option string.

Local Abbreviation M' := (M World).
Local Abbreviation job_step' := (job_step World oracle process_env).
Local Abbreviation finish_job' := (finish_job World oracle process_env).
Local Abbreviation Promise_all' := (Promise_all World oracle process_env).

Lemma uploads_only_prefix {A B} jobs jobs' (a : A) (c : Completion B) evs evs' :
  uploads_only jobs (Return a) evs -> uploads_only jobs' c evs' ->
  uploads_only (jobs ++ jobs') c (evs ++ evs').
Proof.
  intros (_ & T & H & R & J) (S' & T' & H' & R' & J'). unfold uploads_only.
  rewrite tag_writes_app, head_replies_app, readdir_replies_app, puts_sent_app,
    T, H, R, T', H', R'.
  repeat split; try assumption.
  - destruct jobs; [|discriminate]. destruct jobs'; [|discriminate].
    destruct (J eq_refl) as [-> _]. destruct (J' eq_refl) as [-> _]. reflexivity.
  - destruct jobs; [|discriminate]. destruct jobs'; [|discriminate].
    apply (J' eq_refl).
Qed.

(** One completion of an upload *)
Lemma job_step_uploads j : post (job_step' j) (uploads_only [j]).
Proof.
  intros st.
  destruct j as [file bucket key contentType then_log|params then_log|];
    unfold job_step; mrun.
  - destruct (oracle (ReadFile file) (world st)) as [[body|e] w]; mrun;
      run_done; repeat split; discriminate.
  - destruct (oracle (S3Send (PutObjectCommand params)) (world st)) as [[[]|e] w];
      mrun; [destruct then_log; mrun|];
      run_done; repeat split; discriminate.
  - exists []. rewrite app_nil_r. repeat split; discriminate.
Qed.

Lemma uploads_only_weaken {A} jobs jobs' (c : Completion A) evs :
  jobs' <> [] -> uploads_only jobs c evs -> uploads_only jobs' c evs.
Proof.
  intros N (S' & T & H & R & _). repeat split; try assumption; contradiction.
Qed.

Lemma uploads_only_bind {A B} jobs (m : M' A) (k : A -> M' B) :
  jobs <> [] ->
  post m (uploads_only jobs) -> (forall a, post (k a) (uploads_only jobs)) ->
  post (bind m k) (uploads_only jobs).
Proof.
  intros N Hm Hk. eapply post_bind; [exact Hm| | |].
  - intros a evs Q. eapply post_conseq; [apply Hk|].
    intros c evs' Q'. apply uploads_only_weaken with (jobs := (jobs ++ jobs)%list);
      [exact N|].
    eapply uploads_only_prefix; eassumption.
  - intros e evs (_ & T & H & R & _).
    repeat split; try assumption; try discriminate; contradiction.
  - intros evs (S' & _). now contradiction S'.
Qed.

Lemma uploads_only_ret {A} jobs (a : A) :
  post (ret (World := World) a) (uploads_only jobs).
Proof. apply post_ret. repeat split; eauto; discriminate. Qed.

Lemma finish_job_uploads j : post (finish_job' j) (uploads_only [j]).
Proof.
  unfold finish_job. apply uploads_only_bind; [discriminate|apply job_step_uploads|].
  intros j1. apply uploads_only_bind; [discriminate| |].
  - eapply post_conseq; [apply job_step_uploads|].
    intros c evs. apply uploads_only_weaken. discriminate.
  - intros j2. apply uploads_only_ret.
Qed.

Lemma forEach_finish_job_uploads jobs :
  post (forEach World finish_job' jobs) (uploads_only jobs).
Proof.
  induction jobs as [|j jobs IH]; simpl.
  - apply uploads_only_ret.
  - apply uploads_only_bind; [discriminate| |].
    + eapply post_conseq; [apply finish_job_uploads|].
      intros c evs. apply uploads_only_weaken. discriminate.
    + intros _. eapply post_conseq; [exact IH|].
      intros c evs. apply uploads_only_weaken. discriminate.
Qed.

(** Awaiting the uploads: files are read and objects are put, nothing
    else; with no upload pending nothing happens at all. *)
Lemma Promise_all_uploads sched jobs :
  post (Promise_all' sched jobs) (uploads_only jobs).
Proof.
  revert jobs. induction sched as [|i sched IH]; intros jobs; simpl.
  - apply forEach_finish_job_uploads.
  - destruct (jobs !! i) as [j|] eqn:L; [|apply IH].
    assert (N : jobs <> []) by (intros ->; discriminate L).
    apply uploads_only_bind; [exact N| |].
    + eapply post_conseq; [apply job_step_uploads|].
      intros c evs. now apply uploads_only_weaken.
    + intros j'. eapply post_conseq; [apply IH|].
      intros c evs. now apply uploads_only_weaken.
Qed.

(** The upload of the new object: one PutObject command when it
    returns *)
Lemma uploadToS3_uploads file bucket key contentType :
  post (uploadToS3 World oracle process_env file bucket key contentType)
       (fun c evs =>
          c <> Stuck
          /\ tag_writes evs = [] /\ head_replies evs = [] /\ readdir_replies evs = []
          /\ (c = Return tt -> puts_sent evs = [key])).
Proof.
  intros st. unfold uploadToS3, uploadToS3_call, finish_job, job_step. mrun.
  destruct (oracle (ReadFile file) _) as [[body|e] w]; mrun.
  - match goal with
    | |- context [oracle (S3Send (PutObjectCommand ?p)) ?w0] =>
        destruct (oracle (S3Send (PutObjectCommand p)) w0) as [[[]|e] w']
    end; mrun; run_done; repeat split; discriminate.
  - run_done. repeat split; discriminate.
Qed.

(** Reading the patch directory and starting the uploads, with the
    handler for a missing directory *)
Lemma listPatches_listing patchDir id hash :
  post (catch
          (bind (call World oracle (ReaddirSync patchDir))
             (fun r => bind (of_outcome r)
                (fun files => startPatchUploads World path_join path_parse_ext
                                process_env patchDir id hash files)))
          (fun err =>
             if has_code err "ENOENT" then
               bind (console_log [LStr ("Directory " ++ patchDir
                                        ++ " does not exist, no patches found.")])
                    (fun _ => ret [])
             else throw err))
       (fun c evs =>
          tag_writes evs = [] /\ head_replies evs = [] /\ puts_sent evs = []
          /\ exists err,
               readdir_replies evs = [(patchDir, err)]
               /\ match c, err with
                  | Return _, None => True
                  | Return jobs, Some e => has_code e "ENOENT" = true /\ jobs = []
                  | Throw e', Some e => e' = e /\ has_code e "ENOENT" = false
                  | _, _ => False
                  end).
Proof.
  intros st. mrun.
  destruct (oracle (ReaddirSync patchDir) (world st)) as [[files|e] w]; mrun.
  - match goal with
    | |- context [startPatchUploads _ _ _ _ _ _ _ _ ?s] =>
        destruct (startPatchUploads_run World path_join path_parse_ext process_env
                    patchDir id hash files s) as (jobs & R & _); rewrite R
    end.
    run_done.
    set (reads := map _ _).
    assert (Q : tag_writes reads = [] /\ head_replies reads = []
                /\ puts_sent reads = [] /\ readdir_replies reads = []).
    { subst reads. apply read_starts_quiet with (f := fun f => path_join [patchDir; f]). }
    destruct Q as (T & H & P & R').
    cbn [tag_writes head_replies puts_sent readdir_replies reply_error
         outcome_error].
    rewrite T, H, P, R'. repeat split. exists None. now split.
  - destruct (has_code e "ENOENT") eqn:C; mrun; run_done; repeat split;
      exists (Some e); split; [reflexivity|auto|reflexivity|auto].
Qed.

(** The end of uploadExtension, from the tagging of the new object on *)
Lemma tagging_phase bucket key1 TagSet1 failure1 key2 TagSet2 failure2
    line1 line2 line3 line4 line5 line6 :
  post
    (bind (console_log [LStr line1])
       (fun _ => bind (console_log [LStr line2])
       (fun _ => bind (putObjectTagging World oracle bucket key1 TagSet1 failure1)
       (fun _ => bind (console_log [LStr line3])
       (fun _ => bind (console_log [LStr line4])
       (fun _ => bind (await World oracle (S3Send (HeadObjectCommand bucket key2)))
       (fun r =>
          match r with
          | Failed err =>
              if has_code err "NotFound" then ret tt
              else
                bind (console_error [LStr line5])
                  (fun _ => bind (console_error [LErr err; LStack err])
                     (fun _ => throw (new_Error
                                        "Unexpected error with HeadObject command")))
          | Ok _ =>
              bind (putObjectTagging World oracle bucket key2 TagSet2 failure2)
                   (fun _ => console_log [LStr line6])
          end)))))))
    (tagging_post (PutObjectTaggingCommand bucket key1 TagSet1)
                  (PutObjectTaggingCommand bucket key2 TagSet2)).
Proof.
  intros st. unfold putObjectTagging. mrun.
  destruct (oracle (S3Send (PutObjectTaggingCommand bucket key1 TagSet1)) (world st))
    as [[[]|e1] w1]; mrun.
  2:{ run_done. unfold tagging_post. simpl. auto. }
  destruct (oracle (S3Send (HeadObjectCommand bucket key2)) w1) as [[[]|e2] w2]; mrun.
  - destruct (oracle (S3Send (PutObjectTaggingCommand bucket key2 TagSet2)) w2)
      as [[[]|e3] w3]; mrun; run_done; unfold tagging_post; simpl; auto 10.
  - destruct (has_code e2 "NotFound"); mrun; run_done; unfold tagging_post; simpl;
      auto.
Qed.

Lemma log_line args :
  post (console_log (World := World) args)
       (fun c evs => c = Return tt /\ evs = [ConsoleLog args]).
Proof. apply post_emit. auto. Qed.

(** uploadExtension, as a whole, seen from the listing of the patch
    directory and from the head request *)
Lemma uploadExtension_retag sched name id version hash crxFile :
  post (uploadExtension World oracle path_join path_parse_ext process_env
          sched name id version hash crxFile)
       (fun c evs =>
          match getPreviousVersion version 1 with
          | Val previousVersion =>
              retag_post (newObjectTagging process_env name id version)
                (previousObjectTagging process_env name id previousVersion)
                ("build/patches/" ++ id ++ "/" ++ hash)
                ("release/" ++ id ++ "/" ++ "extension_"
                   ++ dots_to_underscores version ++ ".crx")
                c evs
          | Unmodelled => c = Stuck /\ evs = []
          end).
Proof.
  unfold uploadExtension.
  destruct (getPreviousVersion version 1) as [previousVersion|]; cbn [of_res].
  2:{ intros st. exists []. cbn [bind fst snd]. rewrite app_nil_r. auto. }
  eapply post_bind with (Qm := fun c evs => evs = [] /\ c = Return previousVersion).
  - apply post_ret. auto.
  - intros prev evs [-> [= ->]]. cbv zeta. cbn [app].
    eapply post_bind; [apply uploadToS3_uploads| | |].
    + intros [] evs1 (_ & T1 & H1 & R1 & P1). specialize (P1 eq_refl).
      eapply post_bind; [apply log_line| | |];
        [|intros ? ? [E _]; discriminate E|intros ? [E _]; discriminate E].
      intros [] ? [_ ->].
      eapply post_bind; [apply listPatches_listing| | |].
      * intros jobs evs2 (T2 & H2 & P2 & err & R2 & C2).
        eapply post_bind; [apply Promise_all_uploads| | |].
        -- intros [] evs3 (_ & T3 & H3 & R3 & J3).
           eapply post_conseq; [apply tagging_phase|].
           intros c evs4 (T4 & R4 & P4 & H4).
           unfold retag_post. cbv beta.
           rewrite !tag_writes_app, !head_replies_app, !readdir_replies_app,
             !puts_sent_app, T1, H1, R1, P1, T2, H2, R2, P2, T3, H3, R3, R4, P4.
           cbn [app tag_writes head_replies readdir_replies puts_sent].
           split; [exact H4|]. split.
           ++ destruct err as [e0|]; [|reflexivity].
              destruct C2 as [C2 ->]. rewrite C2.
              destruct (J3 eq_refl) as [-> _].
              split; [reflexivity|]. split; [reflexivity|].
              destruct T4 as [->| ->]; eexists; reflexivity.
           ++ intros _. split; [eexists; reflexivity|exact T4].
        -- intros e evs3 (_ & T3 & H3 & R3 & J3).
           unfold retag_post.
           rewrite !tag_writes_app, !head_replies_app, !readdir_replies_app,
             !puts_sent_app, T1, H1, R1, T2, H2, R2, T3, H3, R3.
           cbn [app tag_writes head_replies readdir_replies puts_sent].
           split; [exact I|]. split; [|discriminate].
           destruct err as [e0|]; [|reflexivity].
           destruct C2 as [_ ->]. destruct (J3 eq_refl) as [_ [a E]]. discriminate E.
        -- intros evs3 (S' & _). now contradiction S'.
      * intros e evs2 (T2 & H2 & P2 & err & R2 & C2).
        destruct err as [e0|]; [|destruct C2]. destruct C2 as [-> C2].
        unfold retag_post.
        rewrite !tag_writes_app, !head_replies_app, !readdir_replies_app,
          !puts_sent_app, T1, H1, R1, P1, T2, H2, R2, P2.
        cbn [app tag_writes head_replies readdir_replies puts_sent].
        rewrite C2. repeat split; congruence.
      * intros evs2 (_ & _ & _ & err & _ & C2). destruct err; destruct C2.
    + intros e evs1 (_ & T1 & H1 & R1 & _). unfold retag_post.
      rewrite T1, H1, R1. repeat split; congruence.
    + intros evs1 (S' & _). now contradiction S'.
  - intros e evs [_ E]. discriminate E.
  - intros evs [_ E]. discriminate E.
Qed.

End RetagProofs.

(** X13. When the head request of uploadExtension succeeds, two tagging
    commands are sent and no other: the one on the new object, and one on
    the object of the previous version whose tag set is the
    component-name tag with the previous version alone. After the head
    request the only error thrown is the one of a failed tagging. *)
Theorem uploadExtension_retags_previous :
  forall (World : Type) (oracle : forall c : Call, World -> Reply c * World)
         (path_join : list string -> string) (path_parse_ext : string -> string)
         (process_env : string -> option string)
         (sched : list nat) (name id version hash crxFile : string) (w : World)
         (bucket key : string),
    let run := uploadExtension World oracle path_join path_parse_ext process_env
                 sched name id version hash crxFile (init w) in
    In (Done (S3Send (HeadObjectCommand bucket key)) None) (trace (snd run)) ->
    (exists previousVersion,
        getPreviousVersion version 1 = Val previousVersion
        /\ tag_writes (trace (snd run))
           = [newObjectTagging process_env name id version;
              previousObjectTagging process_env name id previousVersion])
    /\ (fst run = Return tt
        \/ fst run = Throw (new_Error "Failed to upload extension to S3")).
Proof.
  intros World oracle path_join path_parse_ext process_env sched name id version
    hash crxFile w bucket key run Hin.
  destruct (uploadExtension_retag World oracle path_join path_parse_ext process_env
              sched name id version hash crxFile (init w)) as (evs & T & P).
  fold run in T, P. cbn [init trace app] in T. rewrite T in Hin |- *.
  destruct (getPreviousVersion version 1) as [previousVersion|].
  2:{ destruct P as [_ ->]. destruct Hin. }
  destruct P as [P _]. apply head_replies_None_In in Hin.
  destruct (head_replies evs) as [|[[b k] [e|]] [|]];
    try (destruct P; fail); try (destruct Hin; fail).
  - destruct Hin as [[=]|[]].
  - destruct P as [Ptags Pret]. split; [|exact Pret]. now exists previousVersion.
Qed.

Lemma uploadExtension_retags_previous_witness :
  let run := uploadExtension Example.World (Variant.oracle Variant.PreviousExists)
               Example.path_join Example.path_parse_ext Example.process_env
               [1; 0; 1]%nat "Example Name" "abc" "1.0.1" "h4sh" "out.crx"
               (Example.start false) in
  tag_writes (trace (snd run))
  = [PutObjectTaggingCommand "brave-core-ext" "release/abc/extension_1_0_1.crx"
       [("Example-Name", "1.0.1"); ("version", "Example-Name/latest")];
     PutObjectTaggingCommand "brave-core-ext" "release/abc/extension_1_0_0.crx"
       [("Example-Name", "1.0.0")]].
Proof.
  cbv zeta.
  destruct (uploadExtension_retags_previous Example.World
              (Variant.oracle Variant.PreviousExists)
              Example.path_join Example.path_parse_ext Example.process_env
              [1; 0; 1]%nat "Example Name" "abc" "1.0.1" "h4sh" "out.crx"
              {| Example.calls := 0; Example.rejects_patches := false |}
              "brave-core-ext" "release/abc/extension_1_0_0.crx"
              ltac:(vm_compute; repeat (first [left; reflexivity|right])))
    as [(previousVersion & Hprev & Htags) _].
  vm_compute in Hprev. injection Hprev as <-. exact Htags.
Defined.

(** X14. When the version has no earlier one (getPreviousVersion gives the
    version back, as for 1.0.0), the object of the previous version is the
    new object itself. If the head request succeeds, the second tagging
    command is sent to the key of the first and its tag set has no latest
    marker. *)
Theorem uploadExtension_first_version :
  forall (World : Type) (oracle : forall c : Call, World -> Reply c * World)
         (path_join : list string -> string) (path_parse_ext : string -> string)
         (process_env : string -> option string)
         (sched : list nat) (name id version hash crxFile : string) (w : World)
         (bucket key : string),
    let run := uploadExtension World oracle path_join path_parse_ext process_env
                 sched name id version hash crxFile (init w) in
    getPreviousVersion version 1 = Val version ->
    In (Done (S3Send (HeadObjectCommand bucket key)) None) (trace (snd run)) ->
    exists tag,
      tag_writes (trace (snd run))
      = [PutObjectTaggingCommand (S3_EXTENSIONS_BUCKET process_env)
           ("release/" ++ id ++ "/" ++ "extension_"
              ++ dots_to_underscores version ++ ".crx")
           [(tag, version); ("version", tag ++ "/latest")];
         PutObjectTaggingCommand (S3_EXTENSIONS_BUCKET process_env)
           ("release/" ++ id ++ "/" ++ "extension_"
              ++ dots_to_underscores version ++ ".crx")
           [(tag, version)]].
Proof.
  intros World oracle path_join path_parse_ext process_env sched name id version
    hash crxFile w bucket key run Hprev Hin.
  destruct (uploadExtension_retag World oracle path_join path_parse_ext process_env
              sched name id version hash crxFile (init w)) as (evs & T & P).
  fold run in T, P. cbn [init trace app] in T. rewrite T in Hin |- *.
  rewrite Hprev in P.
  destruct P as [P _]. apply head_replies_None_In in Hin.
  destruct (head_replies evs) as [|[[b k] [e|]] [|]];
    try (destruct P; fail); try (destruct Hin; fail).
  - destruct Hin as [[=]|[]].
  - destruct P as [-> _]. eexists. reflexivity.
Qed.

Lemma uploadExtension_first_version_witness :
  let run := uploadExtension Example.World (Variant.oracle Variant.PreviousExists)
               Example.path_join Example.path_parse_ext Example.process_env
               [1; 0; 1]%nat "Example Name" "abc" "1.0.0" "h4sh" "out.crx"
               (Example.start false) in
  exists tag,
    tag_writes (trace (snd run))
    = [PutObjectTaggingCommand "brave-core-ext" "release/abc/extension_1_0_0.crx"
         [(tag, "1.0.0"); ("version", tag ++ "/latest")];
       PutObjectTaggingCommand "brave-core-ext" "release/abc/extension_1_0_0.crx"
         [(tag, "1.0.0")]].
Proof.
  exact (uploadExtension_first_version Example.World
           (Variant.oracle Variant.PreviousExists)
           Example.path_join Example.path_parse_ext Example.process_env
           [1; 0; 1]%nat "Example Name" "abc" "1.0.0" "h4sh" "out.crx"
           {| Example.calls := 0; Example.rejects_patches := false |}
           "brave-core-ext" "release/abc/extension_1_0_0.crx"
           eq_refl
           ltac:(vm_compute; repeat (first [left; reflexivity|right]))).
Defined.

(** X15. A patch directory that does not exist is not an error of
    uploadExtension: the listing is the one of build/patches/<id>/<hash>,
    the new object is the only object put, and the function goes on to tag
    it. *)
Theorem uploadExtension_missing_patch_directory :
  forall (World : Type) (oracle : forall c : Call, World -> Reply c * World)
         (path_join : list string -> string) (path_parse_ext : string -> string)
         (process_env : string -> option string)
         (sched : list nat) (name id version hash crxFile : string) (w : World)
         (dir : string) (err : Error),
    let run := uploadExtension World oracle path_join path_parse_ext process_env
                 sched name id version hash crxFile (init w) in
    In (Done (ReaddirSync dir) (Some err)) (trace (snd run)) ->
    code err = Some "ENOENT" ->
    dir = "build/patches/" ++ id ++ "/" ++ hash
    /\ puts_sent (trace (snd run))
       = ["release/" ++ id ++ "/" ++ "extension_"
            ++ dots_to_underscores version ++ ".crx"]
    /\ exists rest,
         tag_writes (trace (snd run))
         = newObjectTagging process_env name id version :: rest.
Proof.
  intros World oracle path_join path_parse_ext process_env sched name id version
    hash crxFile w dir err run Hin Hcode.
  destruct (uploadExtension_retag World oracle path_join path_parse_ext process_env
              sched name id version hash crxFile (init w)) as (evs & T & P).
  fold run in T, P. cbn [init trace app] in T. rewrite T in Hin |- *.
  destruct (getPreviousVersion version 1) as [previousVersion|].
  2:{ destruct P as [_ ->]. destruct Hin. }
  destruct P as (_ & P & _). apply readdir_replies_In in Hin.
  destruct (readdir_replies evs) as [|[d [e|]] [|]];
    try (destruct P; fail); try (destruct Hin; fail).
  - destruct Hin as [[= -> ->]|[]]. destruct P as (Pdir & Pputs & P).
    unfold has_code in P. rewrite Hcode in P. simpl in P. auto.
  - destruct Hin as [[=]|[]].
Qed.

Lemma uploadExtension_missing_patch_directory_witness :
  let run := uploadExtension Example.World (Variant.oracle Variant.NoPatchDirectory)
               Example.path_join Example.path_parse_ext Example.process_env
               [1; 0; 1]%nat "Example Name" "abc" "1.0.1" "h4sh" "out.crx"
               (Example.start false) in
  puts_sent (trace (snd run)) = ["release/abc/extension_1_0_1.crx"]
  /\ exists rest,
       tag_writes (trace (snd run))
       = PutObjectTaggingCommand "brave-core-ext" "release/abc/extension_1_0_1.crx"
           [("Example-Name", "1.0.1"); ("version", "Example-Name/latest")] :: rest.
Proof.
  cbv zeta.
  destruct (uploadExtension_missing_patch_directory Example.World
              (Variant.oracle Variant.NoPatchDirectory)
              Example.path_join Example.path_parse_ext Example.process_env
              [1; 0; 1]%nat "Example Name" "abc" "1.0.1" "h4sh" "out.crx"
              {| Example.calls := 0; Example.rejects_patches := false |}
              "build/patches/abc/h4sh" Variant.no_entry
              ltac:(vm_compute; repeat (first [left; reflexivity|right]))
              eq_refl)
    as (_ & Hputs & Htags).
  split; [exact Hputs|exact Htags].
Defined.

(** X16. Another error of the listing of the patch directory ends
    uploadExtension with that error, as it is: the new object has been
    put, nothing is tagged and no head request is made. *)
Theorem uploadExtension_listing_error :
  forall (World : Type) (oracle : forall c : Call, World -> Reply c * World)
         (path_join : list string -> string) (path_parse_ext : string -> string)
         (process_env : string -> option string)
         (sched : list nat) (name id version hash crxFile : string) (w : World)
         (dir : string) (err : Error),
    let run := uploadExtension World oracle path_join path_parse_ext process_env
                 sched name id version hash crxFile (init w) in
    In (Done (ReaddirSync dir) (Some err)) (trace (snd run)) ->
    code err <> Some "ENOENT" ->
    fst run = Throw err
    /\ puts_sent (trace (snd run))
       = ["release/" ++ id ++ "/" ++ "extension_"
            ++ dots_to_underscores version ++ ".crx"]
    /\ tag_writes (trace (snd run)) = []
    /\ head_replies (trace (snd run)) = [].
Proof.
  intros World oracle path_join path_parse_ext process_env sched name id version
    hash crxFile w dir err run Hin Hcode.
  destruct (uploadExtension_retag World oracle path_join path_parse_ext process_env
              sched name id version hash crxFile (init w)) as (evs & T & P).
  fold run in T, P. cbn [init trace app] in T. rewrite T in Hin |- *.
  destruct (getPreviousVersion version 1) as [previousVersion|].
  2:{ destruct P as [_ ->]. destruct Hin. }
  destruct P as (_ & P & _). apply readdir_replies_In in Hin.
  destruct (readdir_replies evs) as [|[d [e|]] [|]];
    try (destruct P; fail); try (destruct Hin; fail).
  - destruct Hin as [[= -> ->]|[]]. destruct P as (Pdir & Pputs & P).
    assert (C : has_code err "ENOENT" = false).
    { unfold has_code. destruct (code err) as [c|]; [|reflexivity].
      destruct (String.eqb_spec c "ENOENT") as [->|]; [now contradiction Hcode|].
      reflexivity. }
    rewrite C in P. destruct P as (Pc & Pt & Ph). auto.
  - destruct Hin as [[=]|[]].
Qed.

Lemma uploadExtension_listing_error_witness :
  let run := uploadExtension Example.World
               (Variant.oracle Variant.PatchDirectoryDenied)
               Example.path_join Example.path_parse_ext Example.process_env
               [1; 0; 1]%nat "Example Name" "abc" "1.0.1" "h4sh" "out.crx"
               (Example.start false) in
  fst run = Throw Variant.denied
  /\ puts_sent (trace (snd run)) = ["release/abc/extension_1_0_1.crx"]
  /\ tag_writes (trace (snd run)) = []
  /\ head_replies (trace (snd run)) = [].
Proof.
  exact (uploadExtension_listing_error Example.World
           (Variant.oracle Variant.PatchDirectoryDenied)
           Example.path_join Example.path_parse_ext Example.process_env
           [1; 0; 1]%nat "Example Name" "abc" "1.0.1" "h4sh" "out.crx"
           {| Example.calls := 0; Example.rejects_patches := false |}
           "build/patches/abc/h4sh" Variant.denied
           ltac:(vm_compute; repeat (first [left; reflexivity|right]))
           ltac:(discriminate)).
Defined.

(* ================================================================== *)
(** * The comments of a manifest *)

Lemma strip_from_head c s :
  String.prefix "//#" (String c s) = false ->
  strip_from false (String c s) = String c (strip_from false s).
Proof.
  intros H. cbn [strip_from].
  destruct (Ascii.eqb_spec c "/") as [->|N].
  - destruct s as [|c1 s]; [reflexivity|].
    destruct (Ascii.eqb_spec c1 "/") as [->|N1].
    + destruct s as [|c2 s]; [reflexivity|].
      destruct (Ascii.eqb_spec c2 "#") as [->|N2]; [simpl in H; destruct s; discriminate H|].
      destruct c2 as [[] [] [] [] [] [] [] []]; try reflexivity. now contradiction N2.
    + destruct c1 as [[] [] [] [] [] [] [] []]; try reflexivity. now contradiction N1.
  - destruct c as [[] [] [] [] [] [] [] []]; try reflexivity. now contradiction N.
Qed.

Lemma strip_from_marker s :
  strip_from false ("//#" ++ s) = strip_from true s.
Proof. reflexivity. Qed.

Lemma prefix_marker s :
  String.prefix "//#" s = true -> exists rest, s = "//#" ++ rest.
Proof.
  intros H. destruct s as [|c0 [|c1 [|c2 rest]]]; try discriminate H;
    cbn [String.prefix] in H.
  - destruct (ascii_dec "/" c0); discriminate H.
  - destruct (ascii_dec "/" c0); [|discriminate H].
    destruct (ascii_dec "/" c1); discriminate H.
  - destruct (ascii_dec "/" c0) as [<-|]; [|discriminate H].
    destruct (ascii_dec "/" c1) as [<-|]; [|discriminate H].
    destruct (ascii_dec "#" c2) as [<-|]; [|discriminate H].
    now exists rest.
Qed.

(** What is left of a text never starts by completing a marker: inside
    a comment the next character kept is a line terminator. *)
Lemma strip_from_true_head s :
  match strip_from true s with
  | EmptyString => True
  | String c _ => is_line_terminator c = true
  end.
Proof.
  induction s as [|c s IH]; [exact I|]. cbn [strip_from].
  destruct (is_line_terminator c) eqn:E; [exact E|exact IH].
Qed.

Lemma marker_prefix rest : String.prefix "//#" ("//#" ++ rest) = true.
Proof. destruct rest; reflexivity. Qed.

(** A character kept that is no line terminator was there before *)
Lemma strip_from_kept s d r :
  strip_from false s = String d r -> is_line_terminator d = false ->
  exists s', s = String d s' /\ r = strip_from false s'.
Proof.
  intros E N. destruct s as [|c s]; [discriminate E|].
  destruct (String.prefix "//#" (String c s)) eqn:P.
  - destruct (prefix_marker _ P) as (rest & E').
    change ("//#" ++ rest) with (String "/" (String "/" (String "#" rest))) in E'.
    injection E' as -> ->. change (strip_from true rest = String d r) in E.
    pose proof (strip_from_true_head rest) as Hh. rewrite E in Hh. congruence.
  - rewrite strip_from_head in E by exact P. injection E as -> <-. eauto.
Qed.

(** The characters kept form no marker that was not there *)
Lemma strip_from_no_new_marker c s :
  String.prefix "//#" (String c (strip_from false s)) = true ->
  String.prefix "//#" (String c s) = true.
Proof.
  intros P. destruct (prefix_marker _ P) as (rest & E).
  change ("//#" ++ rest) with (String "/" (String "/" (String "#" rest))) in E.
  injection E as -> E.
  destruct (strip_from_kept _ _ _ E eq_refl) as (s1 & -> & E1).
  symmetry in E1.
  destruct (strip_from_kept _ _ _ E1 eq_refl) as (s2 & -> & _).
  apply (marker_prefix s2).
Qed.

Lemma has_marker_strip b s : has_marker (strip_from b s) = false.
Proof.
  remember (String.length s) as n eqn:L. revert b s L.
  induction n as [n IH] using lt_wf_ind. intros b s L.
  destruct s as [|c s]; [reflexivity|].
  assert (IHs : forall b', has_marker (strip_from b' s) = false).
  { intros b'. apply (IH (String.length s)); [subst n; simpl; lia|reflexivity]. }
  destruct b.
  - cbn [strip_from]. destruct (is_line_terminator c) eqn:E; [|apply IHs].
    cbn [has_marker]. rewrite IHs, orb_false_r.
    cbn [String.prefix]. destruct (ascii_dec "/" c) as [<-|]; [discriminate E|].
    reflexivity.
  - destruct (String.prefix "//#" (String c s)) eqn:P.
    + destruct (prefix_marker _ P) as (rest & E).
      change ("//#" ++ rest) with (String "/" (String "/" (String "#" rest))) in E.
      injection E as -> ->.
      change (has_marker (strip_from true rest) = false).
      apply (IH (String.length rest)); [|reflexivity].
      subst n. simpl. lia.
    + rewrite strip_from_head by exact P.
      cbn [has_marker]. rewrite IHs, orb_false_r.
      destruct (String.prefix "//#" (String c (strip_from false s))) eqn:P';
        [|reflexivity].
      apply strip_from_no_new_marker in P'. congruence.
Qed.

Lemma strip_from_no_marker s :
  has_marker s = false -> strip_from false s = s.
Proof.
  induction s as [|c s IH]; [reflexivity|]. intros H.
  cbn [has_marker] in H. apply orb_false_iff in H as [P H].
  rewrite strip_from_head by exact P. now rewrite IH.
Qed.

(** X17. After the replacement of parseManifest no [//#] is left in the
    text, so that the replacement changes nothing when applied again; the
    texts it leaves as they are are those without [//#]. *)
Theorem strip_comments_complete :
  forall json : string,
    has_marker (strip_comments json) = false
    /\ strip_comments (strip_comments json) = strip_comments json
    /\ (strip_comments json = json <-> has_marker json = false).
Proof.
  intros json. unfold strip_comments.
  split; [apply has_marker_strip|]. split.
  - apply strip_from_no_marker, has_marker_strip.
  - split; [|apply strip_from_no_marker].
    intros <-. apply has_marker_strip.
Qed.

Lemma strip_from_comment_line line t rest :
  JSString.forallb (fun c => negb (is_line_terminator c)) line = true ->
  is_line_terminator t = true ->
  strip_from true line = EmptyString
  /\ strip_from true (line ++ String t rest) = String t (strip_from false rest).
Proof.
  intros Hl Ht. induction line as [|c line IH].
  - split; [reflexivity|]. change (strip_from true (String t rest) = String t (strip_from false rest)).
    cbn [strip_from]. now rewrite Ht.
  - cbn [JSString.forallb] in Hl. apply andb_true_iff in Hl as [Hc Hl].
    apply negb_true_iff in Hc.
    change (String c line ++ String t rest) with (String c (line ++ String t rest)).
    cbn [strip_from]. rewrite Hc. exact (IH Hl).
Qed.

Lemma prefix_empty s : String.prefix "" s = true.
Proof. destruct s; reflexivity. Qed.

(** A marker does not reach over the end of a line *)
Lemma prefix_marker_line line t rest :
  is_line_terminator t = true ->
  String.prefix "//#" (line ++ String t rest) = String.prefix "//#" line.
Proof.
  intros Ht.
  assert (N1 : "/"%char <> t) by (intros <-; discriminate Ht).
  assert (N2 : "#"%char <> t) by (intros <-; discriminate Ht).
  destruct line as [|c0 [|c1 [|c2 l]]]; cbv [String.append]; cbn [String.prefix].
  - destruct (ascii_dec "/" t); [contradiction|reflexivity].
  - destruct (ascii_dec "/" c0); [|reflexivity].
    destruct (ascii_dec "/" t); [contradiction|reflexivity].
  - destruct (ascii_dec "/" c0); [|reflexivity].
    destruct (ascii_dec "/" c1); [|reflexivity].
    destruct (ascii_dec "#" t); [contradiction|reflexivity].
  - destruct (ascii_dec "/" c0); [|reflexivity].
    destruct (ascii_dec "/" c1); [|reflexivity].
    destruct (ascii_dec "#" c2); [|reflexivity].
    now rewrite !prefix_empty.
Qed.

(** X18. The replacement of parseManifest works line by line: each line is
    cut at its first [//#], wherever that stands in the line, and the line
    terminator is kept. *)
Theorem strip_comments_line :
  forall (line : string) (t : ascii) (rest : string),
    JSString.forallb (fun c => negb (is_line_terminator c)) line = true ->
    is_line_terminator t = true ->
    strip_comments line = cut_at_marker line
    /\ strip_comments (line ++ String t rest)
       = cut_at_marker line ++ String t (strip_comments rest).
Proof.
  intros line t rest Hl Ht. unfold strip_comments.
  induction line as [|c line IH].
  - split; [reflexivity|].
    change (strip_from false (String t rest) = String t (strip_from false rest)).
    rewrite strip_from_head; [reflexivity|].
    cbn [String.prefix]. destruct (ascii_dec "/" t) as [<-|]; [discriminate Ht|].
    reflexivity.
  - pose proof Hl as Hl'.
    cbn [JSString.forallb] in Hl. apply andb_true_iff in Hl as [Hc Hl].
    specialize (IH Hl). destruct IH as [IH1 IH2].
    pose proof (prefix_marker_line (String c line) t rest Ht) as Pl.
    cbn [cut_at_marker].
    destruct (String.prefix "//#" (String c line)) eqn:P.
    + destruct (prefix_marker _ P) as (l' & E).
      change ("//#" ++ l') with (String "/" (String "/" (String "#" l'))) in E.
      injection E as -> ->.
      assert (Hl'' : JSString.forallb (fun c => negb (is_line_terminator c)) l' = true).
      { cbn [JSString.forallb] in Hl. apply andb_true_iff in Hl as [_ Hl].
        apply andb_true_iff in Hl as [_ Hl]. exact Hl. }
      destruct (strip_from_comment_line l' t rest Hl'' Ht) as [S1 S2].
      split; [exact S1|exact S2].
    + split.
      * rewrite strip_from_head by exact P. now rewrite IH1.
      * change (String c line ++ String t rest)
          with (String c (line ++ String t rest)).
        rewrite strip_from_head.
        -- rewrite IH2. reflexivity.
        -- change (String c (line ++ String t rest))
             with (String c line ++ String t rest).
           now rewrite Pl.
Qed.

Lemma strip_comments_line_witness :
  strip_comments ("url: http://#home" ++ String (ascii_of_nat 10) "name: x")
  = "url: http:" ++ String (ascii_of_nat 10) "name: x".
Proof.
  exact (proj2 (strip_comments_line "url: http://#home" (ascii_of_nat 10) "name: x"
                  eq_refl eq_refl)).
Defined.

(* ================================================================== *)
(** * Packing and staging *)

Section ToolsProofs.

Variable World : Type.
Variable oracle : forall c : Call, World -> Reply c * World.
Variable sys_oracle : forall c : SysCall, World -> SysReply c * World.
Variable path_join : list string -> string.
Variable path_resolve : string -> string.
Variable path_parse_base : string -> string.
Variable resolve_undefined : Error.
Variable stringify_files : list StagedFile -> string.

Local Abbreviation generateCRXFile' :=
  (generateCRXFile World oracle sys_oracle path_resolve resolve_undefined).
Local Abbreviation stageEach' :=
  (stageEach World sys_oracle path_join path_parse_base).
Local Abbreviation staging_of' := (staging_of path_join path_parse_base).

(** The run of generateCRXFile, case by case *)
Lemma generateCRXFile_run binary crxFile privateKeyFile publisherProofKey inputDir st :
  let run := generateCRXFile' binary crxFile privateKeyFile publisherProofKey
               inputDir st in
  match fst run with
  | Return _ =>
      exists b k d,
        binary = Some b /\ publisherProofKey = Some k /\ inputDir = Some d
        /\ syslog (world (snd run))
           = (syslog (world st)
              ++ [Completed (ExecSync (pack_command path_resolve b d privateKeyFile k))
                    None;
                  Completed (RenameSync (d +:+ ".crx") crxFile) None])%list
  | Throw _ =>
      inputDir = None -> syslog (world (snd run)) = syslog (world st)
  | Stuck => False
  end.
Proof.
  unfold generateCRXFile.
  destruct binary as [b|]; cbn [falsy]; [|intros; exact (fun _ => eq_refl)].
  destruct (negb (truthy b)); [exact (fun _ => eq_refl)|].
  destruct publisherProofKey as [k|]; cbn [falsy]; [|exact (fun _ => eq_refl)].
  destruct (negb (truthy k)); [exact (fun _ => eq_refl)|].
  mrun. unfold lifted.
  destruct (oracle (ExistsSync (path_resolve privateKeyFile)) (inner (world st)))
    as [[] w]; cbn [negb fst snd world]; [|exact (fun _ => eq_refl)].
  destruct inputDir as [d|]; cbn [resolve]; mrun; [|exact (fun _ => eq_refl)].
  unfold sys. cbn [world inner syslog trace to_text].
  destruct (sys_oracle (ExecSync _) w) as [[[]|e] w1]; cbn [fst snd world inner syslog];
    [|discriminate].
  destruct (sys_oracle (RenameSync _ _) w1) as [[[]|e] w2];
    cbn [fst snd world inner syslog sys_error outcome_error]; [|discriminate].
  exists b, k, d. repeat split. rewrite <- app_assoc. reflexivity.
Qed.

(** The loop of stageFiles, when it comes to its end *)
Lemma stageEach_run files version outputDir hasManifest st :
  let run := stageEach' files version outputDir hasManifest st in
  match fst run with
  | Return h =>
      h = hasManifest || existsb (is_manifest path_parse_base) files
      /\ syslog (world (snd run))
         = (syslog (world st)
            ++ map (fun c => Completed c None)
                 (flat_map (staging_of' version outputDir) files))%list
  | _ => True
  end.
Proof.
  revert hasManifest st. induction files as [|f files IH]; intros hasManifest st.
  - cbn. rewrite orb_false_r, app_nil_r. auto.
  - cbn [stageEach existsb flat_map]. unfold staging_of at 1.
    destruct (is_manifest path_parse_base f) eqn:E.
    + unfold copyManifestWithVersion, sys. mrun. cbn [world inner syslog trace].
      destruct (sys_oracle (CopyFileSync _ _) (inner (world st))) as [[[]|e] w1];
        cbn [fst snd world inner syslog]; [|exact I].
      destruct (sys_oracle (ReplaceSync _ _) w1) as [[[]|e] w2];
        cbn [fst snd world inner syslog]; [|exact I].
      match goal with
      | |- context [stageEach _ _ _ _ _ _ _ true ?s] => specialize (IH true s)
      end.
      cbv zeta in IH.
      destruct (stageEach _ _ _ _ _ _ _ true _) as [[h| |] s']; try exact I.
      cbn [fst snd] in IH |- *. destruct IH as [-> ->].
      split; [now rewrite orb_true_r|].
      cbn [world syslog sys_error outcome_error map app].
      rewrite <- !app_assoc. reflexivity.
    + unfold sys. mrun. cbn [world inner syslog trace].
      destruct (sys_oracle (CopyFileSync _ _) (inner (world st))) as [[[]|e] w1];
        cbn [fst snd world inner syslog]; [|exact I].
      match goal with
      | |- context [stageEach _ _ _ _ _ _ _ hasManifest ?s] =>
          specialize (IH hasManifest s)
      end.
      cbv zeta in IH.
      destruct (stageEach _ _ _ _ _ _ _ hasManifest _) as [[h| |] s']; try exact I.
      cbn [fst snd] in IH |- *. destruct IH as [-> ->].
      split; [reflexivity|].
      cbn [world syslog sys_error outcome_error map app].
      rewrite <- !app_assoc. reflexivity.
Qed.

End ToolsProofs.

(** X19. When generateCRXFile returns, the packer has run once, with the
    three resolved paths in its command line, and its output
    <inputDir>.crx has then been renamed to the CRX file; both calls
    succeeded and nothing else was run, renamed or copied. *)
Theorem generateCRXFile_packs_then_renames :
  forall (World : Type) (oracle : forall c : Call, World -> Reply c * World)
         (sys_oracle : forall c : SysCall, World -> SysReply c * World)
         (path_resolve : string -> string) (resolve_undefined : Error)
         (binary : option string) (crxFile privateKeyFile : string)
         (publisherProofKey inputDir : option string) (st : State (Sys World)),
    let run := generateCRXFile World oracle sys_oracle path_resolve resolve_undefined
                 binary crxFile privateKeyFile publisherProofKey inputDir st in
    fst run = Return tt ->
    exists b k d,
      binary = Some b /\ publisherProofKey = Some k /\ inputDir = Some d
      /\ syslog (world (snd run))
         = (syslog (world st)
            ++ [Completed (ExecSync (pack_command path_resolve b d privateKeyFile k))
                  None;
                Completed (RenameSync (d +:+ ".crx") crxFile) None])%list.
Proof.
  intros World oracle sys_oracle path_resolve resolve_undefined binary crxFile
    privateKeyFile publisherProofKey inputDir st run H.
  pose proof (generateCRXFile_run World oracle sys_oracle path_resolve
                resolve_undefined binary crxFile privateKeyFile publisherProofKey
                inputDir st) as R.
  cbv zeta in R. fold run in R. rewrite H in R. exact R.
Qed.

Lemma generateCRXFile_packs_then_renames_witness :
  let run := generateCRXFile Example.World Example.oracle ExampleSys.sys_oracle
               Example.path_resolve ExampleSys.resolve_undefined
               (Some "brave") "out/abc.crx" "keys/abc.pem" (Some "keys/proof.pem")
               (Some "staging/abc") ExampleSys.start in
  syslog (world (snd run))
  = [Completed
       (ExecSync "brave --pack-extension=/work/staging/abc --pack-extension-key=/work/keys/abc.pem --brave-extension-publisher-key=/work/keys/proof.pem")
       None;
     Completed (RenameSync "staging/abc.crx" "out/abc.crx") None].
Proof.
  cbv zeta.
  destruct (generateCRXFile_packs_then_renames Example.World Example.oracle
              ExampleSys.sys_oracle Example.path_resolve ExampleSys.resolve_undefined
              (Some "brave") "out/abc.crx" "keys/abc.pem" (Some "keys/proof.pem")
              (Some "staging/abc") ExampleSys.start eq_refl)
    as (b & k & d & [= <-] & [= <-] & [= <-] & H).
  exact H.
Defined.

(** X20. The call of the sponsored-images script,
    util.generateCRXFile(binary, crxFile, privateKeyFile, stagingDir),
    gives four arguments: the staging directory stands for the publisher
    proof key and the input directory is undefined. Such a call never
    returns: it throws, and the packer is not run. *)
Theorem generateCRXFile_four_arguments :
  forall (World : Type) (oracle : forall c : Call, World -> Reply c * World)
         (sys_oracle : forall c : SysCall, World -> SysReply c * World)
         (path_resolve : string -> string) (resolve_undefined : Error)
         (binary : option string) (crxFile privateKeyFile stagingDir : string)
         (st : State (Sys World)),
    let run := generateCRXFile World oracle sys_oracle path_resolve resolve_undefined
                 binary crxFile privateKeyFile (Some stagingDir) None st in
    (exists e, fst run = Throw e)
    /\ syslog (world (snd run)) = syslog (world st).
Proof.
  intros World oracle sys_oracle path_resolve resolve_undefined binary crxFile
    privateKeyFile stagingDir st run.
  pose proof (generateCRXFile_run World oracle sys_oracle path_resolve
                resolve_undefined binary crxFile privateKeyFile (Some stagingDir)
                None st) as R.
  cbv zeta in R. fold run in R.
  destruct (fst run) as [[]|e|].
  - destruct R as (b & k & d & _ & _ & [=] & _).
  - split; [now exists e|]. now apply R.
  - destruct R.
Qed.

(** X21. When stageFiles returns, one of the files has the output name
    manifest.json, and the files have been copied in the order given, each
    under its output name in the output directory; a manifest has its
    version replaced right after its copy. Every one of these calls
    succeeded. *)
Theorem stageFiles_copies_all :
  forall (World : Type) (oracle : forall c : Call, World -> Reply c * World)
         (sys_oracle : forall c : SysCall, World -> SysReply c * World)
         (path_join : list string -> string) (path_parse_base : string -> string)
         (stringify_files : list StagedFile -> string)
         (files : list StagedFile) (version outputDir : string)
         (st : State (Sys World)),
    let run := stageFiles World oracle sys_oracle path_join path_parse_base
                 stringify_files files version outputDir st in
    fst run = Return tt ->
    existsb (is_manifest path_parse_base) files = true
    /\ syslog (world (snd run))
       = (syslog (world st)
          ++ map (fun c => Completed c None)
               (flat_map (staging_of path_join path_parse_base version outputDir)
                  files))%list.
Proof.
  intros World oracle sys_oracle path_join path_parse_base stringify_files files
    version outputDir st run. unfold run, stageFiles. mrun. unfold lifted.
  destruct (oracle (MkdirpSync outputDir) (inner (world st))) as [[[]|e] w];
    cbn [fst snd]; [|discriminate].
  match goal with
  | |- context [stageEach _ _ _ _ _ _ _ false ?s] =>
      pose proof (stageEach_run World sys_oracle path_join path_parse_base
                    files version outputDir false s) as R
  end.
  cbv zeta in R.
  destruct (stageEach _ _ _ _ _ _ _ false _) as [[h| |] s']; cbn [fst snd] in R |- *;
    try discriminate.
  destruct R as [-> R]. cbn [orb].
  destruct (existsb _ files); cbn [negb fst snd]; [|discriminate].
  intros _. split; [reflexivity|exact R].
Qed.

Lemma stageFiles_copies_all_witness :
  let files := [{| path := "res/logo.png"; outputName := None |};
                {| path := "res/template.json"; outputName := Some "manifest.json" |}] in
  let run := stageFiles Example.World Example.oracle ExampleSys.sys_oracle
               Example.path_join ExampleSys.path_parse_base
               ExampleSys.stringify_files files "1.0.7" "out" ExampleSys.start in
  syslog (world (snd run))
  = [Completed (CopyFileSync "res/logo.png" "out/logo.png") None;
     Completed (CopyFileSync "res/template.json" "out/manifest.json") None;
     Completed (ReplaceSync "out/manifest.json" "1.0.7") None].
Proof.
  cbv zeta.
  exact (proj2 (stageFiles_copies_all Example.World Example.oracle
                  ExampleSys.sys_oracle Example.path_join ExampleSys.path_parse_base
                  ExampleSys.stringify_files
                  [{| path := "res/logo.png"; outputName := None |};
                   {| path := "res/template.json";
                      outputName := Some "manifest.json" |}]
                  "1.0.7" "out" ExampleSys.start eq_refl)).
Defined.

(* ================================================================== *)
(** * The previous versions *)

Lemma gets_issued_app l1 l2 :
  gets_issued (l1 ++ l2) = (gets_issued l1 ++ gets_issued l2)%list.
Proof.
  induction l1 as [|ev l1 IH]; [reflexivity|].
  destruct ev as [c|c err]; simpl; try exact IH.
  destruct c; simpl; rewrite ?IH; reflexivity.
Qed.

Section SysRules.

Variable World : Type.
Variable oracle : forall c : Call, World -> Reply c * World.
Variable sys_oracle : forall c : SysCall, World -> SysReply c * World.

Local Abbreviation M' := (M (Sys World)).
Local Abbreviation lifted' := (lifted World oracle).

Lemma sys_post_conseq {A} (m : M' A) (Q Q' : Completion A -> list SysEvent -> Prop) :
  sys_post m Q -> (forall c evs, Q c evs -> Q' c evs) -> sys_post m Q'.
Proof.
  intros H HQ st. destruct (H st) as (evs & T & q). exists evs. auto.
Qed.

Lemma sys_post_ret {A} (a : A) (Q : Completion A -> list SysEvent -> Prop) :
  Q (Return a) [] -> sys_post (ret (World := Sys World) a) Q.
Proof. intros q st. exists []. simpl. now rewrite app_nil_r. Qed.

Lemma sys_post_throw {A} (e : Error) (Q : Completion A -> list SysEvent -> Prop) :
  Q (Throw e) [] -> sys_post (throw (World := Sys World) e) Q.
Proof. intros q st. exists []. simpl. now rewrite app_nil_r. Qed.

Lemma sys_post_emit (ev : Event) (Q : Completion unit -> list SysEvent -> Prop) :
  Q (Return tt) [] -> sys_post (emit (World := Sys World) ev) Q.
Proof. intros q st. exists []. simpl. now rewrite app_nil_r. Qed.


(** A call of [Call] leaves the record alone *)
Lemma sys_post_call (c : Call) (Q : Completion (Reply c) -> list SysEvent -> Prop) :
  (forall w, Q (Return (fst (oracle c w))) []) ->
  sys_post (call (Sys World) lifted' c) Q.
Proof.
  intros q st. exists []. unfold call, complete, lifted.
  specialize (q (inner (world st))).
  destruct (oracle c (inner (world st))) as [r w]. simpl. now rewrite app_nil_r.
Qed.

Lemma sys_post_sys (c : SysCall) (Q : Completion (SysReply c) -> list SysEvent -> Prop) :
  (forall w, Q (Return (fst (sys_oracle c w)))
               [Completed c (sys_error c (fst (sys_oracle c w)))]) ->
  sys_post (sys World sys_oracle c) Q.
Proof.
  intros q st. unfold sys. specialize (q (inner (world st))).
  destruct (sys_oracle c (inner (world st))) as [r w]. eexists. simpl.
  split; [reflexivity|exact q].
Qed.

Lemma sys_post_issue (c : SysCall) (Q : Completion unit -> list SysEvent -> Prop) :
  Q (Return tt) [Issued c] -> sys_post (sys_issue World c) Q.
Proof. intros q st. exists [Issued c]. simpl. auto. Qed.

Lemma sys_post_bind {A B} (m : M' A) (k : A -> M' B)
    (Qm : Completion A -> list SysEvent -> Prop)
    (Q : Completion B -> list SysEvent -> Prop) :
  sys_post m Qm ->
  (forall a evs, Qm (Return a) evs ->
                 sys_post (k a) (fun c evs' => Q c (evs ++ evs')%list)) ->
  (forall e evs, Qm (Throw e) evs -> Q (Throw e) evs) ->
  (forall evs, Qm Stuck evs -> Q Stuck evs) ->
  sys_post (bind m k) Q.
Proof.
  intros Hm Hk He Hs st. unfold bind.
  destruct (Hm st) as (evs & T & q).
  destruct (m st) as [[a|e|] st1]; simpl in T, q.
  - destruct (Hk a evs q st1) as (evs' & T' & q').
    exists (evs ++ evs')%list. rewrite T', T, app_assoc. auto.
  - exists evs. simpl. auto.
  - exists evs. simpl. auto.
Qed.

Lemma sys_post_catch {A} (m : M' A) (h : Error -> M' A)
    (Qm Q : Completion A -> list SysEvent -> Prop) :
  sys_post m Qm ->
  (forall e evs, Qm (Throw e) evs ->
                 sys_post (h e) (fun c evs' => Q c (evs ++ evs')%list)) ->
  (forall a evs, Qm (Return a) evs -> Q (Return a) evs) ->
  (forall evs, Qm Stuck evs -> Q Stuck evs) ->
  sys_post (catch m h) Q.
Proof.
  intros Hm Hh Hr Hs st. unfold catch.
  destruct (Hm st) as (evs & T & q).
  destruct (m st) as [[a|e|] st1]; simpl in T, q.
  - exists evs. simpl. auto.
  - destruct (Hh e evs q st1) as (evs' & T' & q').
    exists (evs ++ evs')%list. rewrite T', T, app_assoc. auto.
  - exists evs. simpl. auto.
Qed.

End SysRules.

(** Unfolds the operations of the monad on a world with a record *)
Ltac srun := mrun; cbn [world inner syslog trace fst snd negb].

(** The end of a symbolic run: the calls recorded are read off the
    record *)
Ltac sys_done :=
  eexists; split;
  [ cbn [fst snd world syslog]; rewrite <- ?app_assoc; cbn [app];
    first [reflexivity | rewrite app_nil_r; reflexivity | symmetry; apply app_nil_r]
  | cbn [fst snd] ].

Section DownloadProofs.

Variable World : Type.
Variable oracle : forall c : Call, World -> Reply c * World.
Variable sys_oracle : forall c : SysCall, World -> SysReply c * World.
Variable path_join : list string -> string.
Variable path_parse_name : string -> string.
Variable process_env : string -> option string.
Variable base64_decode : string -> list Byte.byte.
Variable error_name : Error -> string.

Local Abbreviation M' := (M (Sys World)).
Local Abbreviation lifted' := (lifted World oracle).
Local Abbreviation bucket := (S3_EXTENSIONS_BUCKET process_env).
Local Abbreviation download_step' :=
  (download_step World oracle sys_oracle process_env error_name).
Local Abbreviation finish_download' :=
  (finish_download World oracle sys_oracle process_env error_name).
Local Abbreviation settle_downloads' :=
  (settle_downloads World oracle sys_oracle process_env error_name).
Local Abbreviation startDownloads' :=
  (startDownloads World sys_oracle process_env).

(** A completion of a download issues no request to the object store *)
Lemma download_step_gets j :
  sys_post (download_step' j) (fun c evs => gets_issued evs = []).
Proof.
  intros st.
  destruct j as [e|key outputPath h|key outputPath h tmpPath|];
    unfold download_step, missing_or_rethrow, generateSHA256HashOfFile, sys, sys_issue,
      lifted; srun.
  - sys_done. reflexivity.
  - destruct (sys_oracle (GetObject bucket key) (inner (world st))) as [[[]|e] w];
      srun.
    + destruct (sys_oracle TmpFileSync w) as [[tmpPath|e] w1]; srun.
      * sys_done. reflexivity.
      * destruct (String.eqb (error_name e) "NoSuchKey"); srun; sys_done; reflexivity.
    + destruct (String.eqb (error_name e) "NoSuchKey"); srun; sys_done; reflexivity.
  - destruct (sys_oracle (Pipeline key tmpPath) (inner (world st))) as [[[]|e] w];
      srun.
    2:{ destruct (String.eqb (error_name e) "NoSuchKey"); srun; sys_done; reflexivity. }
    destruct h; srun.
    + destruct (oracle (ReadFileSync tmpPath) w) as [[data|e] w1]; srun.
      2:{ destruct (String.eqb (error_name e) "NoSuchKey"); srun; sys_done;
          reflexivity. }
      destruct (sys_oracle (RenameSync _ _) w1) as [[[]|e] w2]; srun.
      * sys_done. reflexivity.
      * destruct (String.eqb (error_name e) "NoSuchKey"); srun; sys_done; reflexivity.
    + destruct (sys_oracle (RenameSync _ _) w) as [[[]|e] w2]; srun.
      * sys_done. reflexivity.
      * destruct (String.eqb (error_name e) "NoSuchKey"); srun; sys_done; reflexivity.
  - sys_done. reflexivity.
Qed.

Lemma gets_bind {A B} (m : M' A) (k : A -> M' B) :
  sys_post m (fun c evs => gets_issued evs = []) ->
  (forall a, sys_post (k a) (fun c evs => gets_issued evs = [])) ->
  sys_post (bind m k) (fun c evs => gets_issued evs = []).
Proof.
  intros Hm Hk. eapply sys_post_bind; [exact Hm| | |].
  - intros a evs E. eapply sys_post_conseq; [apply Hk|].
    intros c evs' E'. now rewrite gets_issued_app, E, E'.
  - auto.
  - auto.
Qed.

Lemma settle_downloads_gets sched jobs :
  sys_post (settle_downloads' sched jobs) (fun c evs => gets_issued evs = []).
Proof.
  revert jobs. induction sched as [|i sched IH]; intros jobs; cbn [settle_downloads].
  - induction jobs as [|j jobs IHj]; cbn [forEach].
    + now apply sys_post_ret.
    + apply gets_bind; [|intros _; exact IHj].
      unfold finish_download.
      apply gets_bind; [apply download_step_gets|]. intros j1.
      apply gets_bind; [apply download_step_gets|]. intros j2.
      now apply sys_post_ret.
  - destruct (jobs !! i) as [j|]; [|apply IH].
    apply gets_bind; [apply download_step_gets|]. intros j'. apply IH.
Qed.

(** The call of downloadFileFromS3 with a directory for the hash-named
    file: the request is issued, or the promise is rejected at once *)
Lemma downloadFileFromS3_call_gets key outputPath :
  sys_post (downloadFileFromS3_call World sys_oracle process_env key outputPath true)
    (fun c evs =>
       exists j, c = Return j
         /\ match j with
            | Rejected _ => True
            | Requested _ _ _ => gets_issued evs = [(bucket, key)]
            | _ => False
            end).
Proof.
  intros st. unfold downloadFileFromS3_call, sys, sys_issue. mrun.
  destruct (sys_oracle (StatSync outputPath) (inner (world st))) as [[stats|e] w];
    cbn [fst snd world inner syslog].
  - destruct (isDirectory stats); cbn [negb]; mrun; sys_done; eexists;
      (split; [reflexivity|]); [reflexivity|exact I].
  - sys_done. eexists. split; [reflexivity|exact I].
Qed.

(** The loop of fetchPreviousVersions *)
Lemma startDownloads_gets id version downloadDir diff count :
  sys_post (startDownloads' id version downloadDir diff count)
    (fun c evs =>
       match c with
       | Return jobs =>
           exists previous,
             previous_versions version diff count = Val previous
             /\ (first_rejected jobs = None ->
                 gets_issued evs
                 = map (fun v => (bucket, release_key id v)) previous)
       | Throw _ => False
       | Stuck => True
       end).
Proof.
  revert diff. induction count as [|count IH]; intros diff;
    cbn [startDownloads previous_versions].
  - apply sys_post_ret. exists []. auto.
  - destruct (getPreviousVersion version diff) as [previous|]; cbn [of_res].
    2:{ intros st. exists []. cbn [bind fst snd]. now rewrite app_nil_r. }
    eapply sys_post_bind with (Qm := fun c evs => c = Return previous /\ evs = []).
    { apply sys_post_ret. auto. }
    2:{ intros e evs [E _]. discriminate E. }
    2:{ intros evs [E _]. discriminate E. }
    intros ? ? [[= ->] ->]. cbv zeta. cbn [app].
    eapply sys_post_bind with (Qm := fun c evs => c = Return tt /\ evs = []).
    { apply sys_post_emit. auto. }
    2:{ intros e evs [E _]. discriminate E. }
    2:{ intros evs [E _]. discriminate E. }
    intros [] ? [_ ->]. cbn [app].
    eapply sys_post_bind; [apply downloadFileFromS3_call_gets| | |].
    2:{ intros e evs (j & E & _). discriminate E. }
    2:{ intros evs (j & E & _). discriminate E. }
    intros j evs (j0 & [= <-] & Hj).
    eapply sys_post_bind; [apply (IH (diff + 1))| | |].
    2:{ intros e evs' []. }
    2:{ intros evs' _. exact I. }
    intros jobs evs' (previous' & Hp & Hg).
    apply sys_post_ret. rewrite Hp. cbn [res_bind].
    exists (previous :: previous'). split; [reflexivity|].
    intros Hr. rewrite app_nil_r, gets_issued_app.
    destruct j as [e|k o h|k o h t|]; try (destruct Hj; fail); cbn in Hr.
    + discriminate Hr.
    + rewrite Hj, (Hg Hr). reflexivity.
Qed.

(** The loop of fetchPreviousVersions and the wait for the downloads *)
Lemma downloads_gets sched id version downloadDir num :
  sys_post
    (bind (startDownloads' id version downloadDir 1 num)
       (fun downloadJobs =>
          catch
            (bind (Promise_all_downloads World oracle sys_oracle process_env
                     error_name sched downloadJobs)
               (fun _ => console_log
                           [LStr "All files have been downloaded successfully."]))
            (fun err =>
               bind (console_error
                       [LStr "An error occurred during the downloads:"; LErr err])
                    (fun _ => throw err))))
    (fun c evs =>
       match c with
       | Return _ =>
           exists previous,
             previous_versions version 1 num = Val previous
             /\ gets_issued evs = map (fun v => (bucket, release_key id v)) previous
       | _ => True
       end).
Proof.
  eapply sys_post_bind; [apply startDownloads_gets| | |].
  2:{ intros e evs []. }
  2:{ intros evs _. exact I. }
  intros jobs evs (previous & Hp & Hg).
  eapply sys_post_catch with
    (Qm := fun c evs' =>
             match c with
             | Return _ => first_rejected jobs = None /\ gets_issued evs' = []
             | _ => True
             end).
  - unfold Promise_all_downloads.
    destruct (first_rejected jobs) as [e|] eqn:R.
    + eapply sys_post_bind with (Qm := fun c evs => c = Throw e).
      * now apply sys_post_throw.
      * intros a evs' E. discriminate E.
      * intros e' evs' _. exact I.
      * intros evs' _. exact I.
    + eapply sys_post_bind; [apply settle_downloads_gets| | |].
      * intros [] evs1 G1. apply sys_post_emit. now rewrite app_nil_r.
      * intros e evs1 _. exact I.
      * intros evs1 _. exact I.
  - intros e evs1 _.
    eapply sys_post_bind with (Qm := fun c evs => True).
    + now apply sys_post_emit.
    + intros [] evs2 _. now apply sys_post_throw.
    + intros e' evs2 _. exact I.
    + intros evs2 _. exact I.
  - intros [] evs1 [R G]. exists previous. split; [exact Hp|].
    now rewrite gets_issued_app, G, (Hg R), app_nil_r.
  - intros evs1 _. exact I.
Qed.

End DownloadProofs.

(** X22. When fetchPreviousVersions is fulfilled, it has asked the object
    store for [num] objects, in this order: the CRX files of the versions
    that getPreviousVersion gives for the version of the manifest and the
    differences 1 to [num], under release/<id>/. *)
Theorem fetchPreviousVersions_requests :
  forall (World : Type) (oracle : forall c : Call, World -> Reply c * World)
         (sys_oracle : forall c : SysCall, World -> SysReply c * World)
         (path_join : list string -> string) (path_parse_name : string -> string)
         (process_env : string -> option string)
         (base64_decode : string -> list Byte.byte) (error_name : Error -> string)
         (sched : list nat) (crxFile : string) (componentId : option string)
         (num : nat) (data : Manifest) (st : State (Sys World)),
    (forall w,
        fst (oracle (ReadManifest
                       (path_join [path_join ["build"; "unzip"; path_parse_name crxFile];
                                   "manifest.json"])) w)
        = Ok data) ->
    let run := fetchPreviousVersions World oracle sys_oracle path_join path_parse_name
                 process_env base64_decode error_name sched crxFile componentId num
                 st in
    fst run = Return tt ->
    exists previous,
      previous_versions (manifest_version data) 1 num = Val previous
      /\ gets_issued (syslog (world (snd run)))
         = (gets_issued (syslog (world st))
            ++ map (fun v =>
                      (S3_EXTENSIONS_BUCKET process_env,
                       release_key
                         (or_else componentId
                            (getIDFromBase64PublicKey base64_decode (manifest_key data)))
                         v))
                 previous)%list.
Proof.
  intros World oracle sys_oracle path_join path_parse_name process_env base64_decode
    error_name sched crxFile componentId num data st Hm run.
  unfold run, fetchPreviousVersions, parseManifest, recreateDirectory, lifted. srun.
  destruct (oracle (MkdirpSync _) (inner (world st))) as [[[]|e] w1]; srun;
    [|discriminate].
  destruct (oracle (Unzip _ _) w1) as [[[]|e] w2]; srun; [|discriminate].
  pose proof (Hm w2) as Hd.
  destruct (oracle (ReadManifest _) w2) as [r w3]. cbn [fst] in Hd. subst r. srun.
  set (id := or_else componentId _).
  destruct (oracle (ExistsSync _) w3) as [[] w4]; srun.
  - destruct (oracle (RmSync _) w4) as [[[]|e] w5]; srun; [|discriminate].
    destruct (oracle (MkdirpSync _) w5) as [[[]|e] w6]; srun; [|discriminate].
    match goal with
    | |- context [startDownloads _ _ _ _ _ _ _ _ ?s] =>
        destruct (downloads_gets World oracle sys_oracle process_env error_name
                    sched id (manifest_version data) ("build/previous/" ++ id) num s)
          as (evs & T & Q)
    end.
    revert T Q. unfold bind, catch. srun.
    destruct (startDownloads _ _ _ _ _ _ _ _ _) as [[jobs|e|] s1]; srun;
      try discriminate.
    intros T Q H. rewrite H in Q. destruct Q as (previous & Hp & Hg).
    exists previous. split; [exact Hp|]. now rewrite T, gets_issued_app, Hg.
  - destruct (oracle (MkdirpSync _) w4) as [[[]|e] w6]; srun; [|discriminate].
    match goal with
    | |- context [startDownloads _ _ _ _ _ _ _ _ ?s] =>
        destruct (downloads_gets World oracle sys_oracle process_env error_name
                    sched id (manifest_version data) ("build/previous/" ++ id) num s)
          as (evs & T & Q)
    end.
    revert T Q. unfold bind, catch. srun.
    destruct (startDownloads _ _ _ _ _ _ _ _ _) as [[jobs|e|] s1]; srun;
      try discriminate.
    intros T Q H. rewrite H in Q. destruct Q as (previous & Hp & Hg).
    exists previous. split; [exact Hp|]. now rewrite T, gets_issued_app, Hg.
Qed.

Lemma fetchPreviousVersions_requests_witness :
  let run := fetchPreviousVersions Example.World Example.oracle ExampleSys.sys_oracle
               Example.path_join Example.path_parse_name Example.process_env
               Example.base64_decode name [2; 0; 1; 1; 0; 2]%nat
               "out.crx" (Some "abc") 3 ExampleSys.start in
  gets_issued (syslog (world (snd run)))
  = [("brave-core-ext", "release/abc/extension_1_0_1.crx");
     ("brave-core-ext", "release/abc/extension_1_0_0.crx");
     ("brave-core-ext", "release/abc/extension_1_0_-1.crx")].
Proof.
  cbv zeta.
  destruct (fetchPreviousVersions_requests Example.World Example.oracle
              ExampleSys.sys_oracle Example.path_join Example.path_parse_name
              Example.process_env Example.base64_decode name
              [2; 0; 1; 1; 0; 2]%nat "out.crx" (Some "abc") 3
              {| manifest_key := "AAEC"; manifest_version := "1.0.2";
                 manifest_name := "Example" |}
              ExampleSys.start
              (fun w => eq_refl)
              ltac:(vm_compute; reflexivity))
    as (previous & Hp & Hg).
  vm_compute in Hp. injection Hp as <-. exact Hg.
Defined.

Section Tolerance.

Variable World : Type.
Variable oracle : forall c : Call, World -> Reply c * World.
Variable sys_oracle : forall c : SysCall, World -> SysReply c * World.
Variable process_env : string -> option string.
Variable error_name : Error -> string.

(** The file system works, the download directory is a directory, and
    the only failures are those of GetObject, named NoSuchKey. *)
Hypothesis setup_works :
  forall c w, is_setup_call c = true -> reply_error c (fst (oracle c w)) = None.
Hypothesis only_missing :
  forall c w e,
    sys_error c (fst (sys_oracle c w)) = Some e ->
    is_get_object c = true /\ error_name e = "NoSuchKey".
Hypothesis directories :
  forall p w stats,
    fst (sys_oracle (StatSync p) w) = Ok stats -> isDirectory stats = true.

Local Abbreviation M' := (M (Sys World)).
Local Abbreviation bucket := (S3_EXTENSIONS_BUCKET process_env).
Local Abbreviation download_step' :=
  (download_step World oracle sys_oracle process_env error_name).
Local Abbreviation settle_downloads' :=
  (settle_downloads World oracle sys_oracle process_env error_name).
Local Abbreviation startDownloads' :=
  (startDownloads World sys_oracle process_env).

Lemma download_step_returns j st :
  is_rejected j = false ->
  exists j', fst (download_step' j st) = Return j' /\ is_rejected j' = false.
Proof.
  intros Hj.
  destruct j as [e|key outputPath h|key outputPath h tmpPath|]; [discriminate Hj| | |];
    unfold download_step, missing_or_rethrow, generateSHA256HashOfFile, sys, sys_issue,
      lifted; srun.
  - pose proof (only_missing (GetObject bucket key) (inner (world st))) as Hs.
    destruct (sys_oracle (GetObject bucket key) (inner (world st))) as [[[]|e] w];
      srun.
    + pose proof (only_missing TmpFileSync w) as Ht.
      destruct (sys_oracle TmpFileSync w) as [[tmpPath|e] w1]; srun.
      * eauto.
      * destruct (Ht e eq_refl) as [[=] _].
    + destruct (Hs e eq_refl) as [_ ->]. srun. eauto.
  - pose proof (only_missing (Pipeline key tmpPath) (inner (world st))) as Hs.
    destruct (sys_oracle (Pipeline key tmpPath) (inner (world st))) as [[[]|e] w];
      srun.
    2:{ destruct (Hs e eq_refl) as [[=] _]. }
    destruct h; srun.
    + pose proof (setup_works (ReadFileSync tmpPath) w eq_refl) as Hr.
      destruct (oracle (ReadFileSync tmpPath) w) as [[data|e] w1]; srun;
        [|discriminate Hr].
      match goal with
      | |- context [sys_oracle (RenameSync ?a ?b) w1] =>
          pose proof (only_missing (RenameSync a b) w1) as Hn;
          destruct (sys_oracle (RenameSync a b) w1) as [[[]|e] w2]; srun
      end.
      * eauto.
      * destruct (Hn e eq_refl) as [[=] _].
    + pose proof (only_missing (RenameSync tmpPath outputPath) w) as Hn.
      destruct (sys_oracle (RenameSync tmpPath outputPath) w) as [[[]|e] w2]; srun.
      * eauto.
      * destruct (Hn e eq_refl) as [[=] _].
  - eauto.
Qed.

Lemma first_rejected_none jobs :
  Forall (fun j => is_rejected j = false) jobs -> first_rejected jobs = None.
Proof.
  induction 1 as [|j jobs Hj _ IH]; [reflexivity|].
  destruct j; [discriminate Hj|exact IH..].
Qed.

Lemma finish_downloads_return jobs st :
  Forall (fun j => is_rejected j = false) jobs ->
  fst (forEach (Sys World)
         (finish_download World oracle sys_oracle process_env error_name) jobs st)
  = Return tt.
Proof.
  intros F. revert st. induction F as [|j jobs Hj _ IH]; intros st; [reflexivity|].
  cbn [forEach]. unfold finish_download at 1. cbv [bind ret].
  destruct (download_step_returns j st Hj) as (j1 & E1 & H1).
  destruct (download_step' j st) as [c1 s1]. cbn [fst] in E1. subst c1.
  destruct (download_step_returns j1 s1 H1) as (j2 & E2 & _).
  destruct (download_step' j1 s1) as [c2 s2]. cbn [fst] in E2. subst c2.
  apply IH.
Qed.

Lemma settle_downloads_return sched jobs st :
  Forall (fun j => is_rejected j = false) jobs ->
  fst (settle_downloads' sched jobs st) = Return tt.
Proof.
  revert jobs st. induction sched as [|i sched IH]; intros jobs st F;
    cbn [settle_downloads].
  - now apply finish_downloads_return.
  - destruct (jobs !! i) as [j|] eqn:L; [|now apply IH].
    assert (Hj : is_rejected j = false).
    { rewrite Forall_lookup in F. exact (F i j L). }
    unfold bind at 1.
    destruct (download_step_returns j st Hj) as (j' & E & H').
    destruct (download_step' j st) as [c s]. cbn [fst] in E. subst c.
    apply IH. now apply Forall_insert.
Qed.

Lemma startDownloads_return id version downloadDir diff count previous st :
  previous_versions version diff count = Val previous ->
  exists jobs,
    fst (startDownloads' id version downloadDir diff count st) = Return jobs
    /\ Forall (fun j => is_rejected j = false) jobs.
Proof.
  revert diff previous st. induction count as [|count IH]; intros diff previous st Hp.
  - exists []. split; [reflexivity|constructor].
  - cbn [previous_versions] in Hp. cbn [startDownloads].
    destruct (getPreviousVersion version diff) as [v|]; [|discriminate Hp].
    cbn [res_bind] in Hp.
    destruct (previous_versions version (diff + 1) count) as [rest|] eqn:Hrest;
      [|discriminate Hp].
    unfold downloadFileFromS3_call, sys, sys_issue. srun.
    match goal with
    | |- context [sys_oracle (StatSync downloadDir) ?w0] =>
        pose proof (only_missing (StatSync downloadDir) w0) as Hs;
        pose proof (directories downloadDir w0) as Hd;
        destruct (sys_oracle (StatSync downloadDir) w0) as [[stats|e] w]; srun
    end.
    2:{ destruct (Hs e eq_refl) as [[=] _]. }
    rewrite (Hd stats eq_refl). srun.
    match goal with
    | |- context [startDownloads _ _ _ _ _ _ _ _ ?s] =>
        destruct (IH (diff + 1) rest s Hrest) as (jobs & E & F)
    end.
    destruct (startDownloads _ _ _ _ _ _ _ _ _) as [c s1]. cbn [fst] in E. subst c.
    srun. eexists. split; [reflexivity|]. constructor; [reflexivity|exact F].
Qed.

End Tolerance.

(** X23. The previous versions that are missing from the object store are
    no error. When the file system works, the only failures are those of
    GetObject, with an error named NoSuchKey, and the versions asked for
    are within the embedded numbers, fetchPreviousVersions is fulfilled,
    whatever the number of objects that exist and whatever the order in
    which the answers arrive. *)
Theorem fetchPreviousVersions_tolerates_missing :
  forall (World : Type) (oracle : forall c : Call, World -> Reply c * World)
         (sys_oracle : forall c : SysCall, World -> SysReply c * World)
         (path_join : list string -> string) (path_parse_name : string -> string)
         (process_env : string -> option string)
         (base64_decode : string -> list Byte.byte) (error_name : Error -> string)
         (sched : list nat) (crxFile : string) (componentId : option string)
         (num : nat) (data : Manifest) (previous : list string)
         (st : State (Sys World)),
    (forall c w, is_setup_call c = true -> reply_error c (fst (oracle c w)) = None) ->
    (forall c w e,
        sys_error c (fst (sys_oracle c w)) = Some e ->
        is_get_object c = true /\ error_name e = "NoSuchKey") ->
    (forall p w stats,
        fst (sys_oracle (StatSync p) w) = Ok stats -> isDirectory stats = true) ->
    (forall w,
        fst (oracle (ReadManifest
                       (path_join [path_join ["build"; "unzip"; path_parse_name crxFile];
                                   "manifest.json"])) w)
        = Ok data) ->
    previous_versions (manifest_version data) 1 num = Val previous ->
    fst (fetchPreviousVersions World oracle sys_oracle path_join path_parse_name
           process_env base64_decode error_name sched crxFile componentId num st)
    = Return tt.
Proof.
  intros World oracle sys_oracle path_join path_parse_name process_env base64_decode
    error_name sched crxFile componentId num data previous st Hfs Hsys Hdir Hm Hp.
  unfold fetchPreviousVersions, parseManifest, recreateDirectory, lifted. srun.
  match goal with
  | |- context [oracle (MkdirpSync ?d) ?w0] =>
      pose proof (Hfs (MkdirpSync d) w0 eq_refl) as H1;
      destruct (oracle (MkdirpSync d) w0) as [[[]|e] w1]; srun; [|discriminate H1]
  end.
  match goal with
  | |- context [oracle (Unzip ?a ?b) w1] =>
      pose proof (Hfs (Unzip a b) w1 eq_refl) as H2;
      destruct (oracle (Unzip a b) w1) as [[[]|e] w2]; srun; [|discriminate H2]
  end.
  pose proof (Hm w2) as Hd.
  destruct (oracle (ReadManifest _) w2) as [r w3]. cbn [fst] in Hd. subst r. srun.
  set (id := or_else componentId _).
  assert (Tail : forall s,
             fst (bind (startDownloads World sys_oracle process_env id
                          (manifest_version data) ("build/previous/" ++ id) 1 num)
                    (fun downloadJobs =>
                       catch
                         (bind (Promise_all_downloads World oracle sys_oracle
                                  process_env error_name sched downloadJobs)
                            (fun _ => console_log
                               [LStr "All files have been downloaded successfully."]))
                         (fun err =>
                            bind (console_error
                                    [LStr "An error occurred during the downloads:";
                                     LErr err])
                                 (fun _ => throw err))) s)
             = Return tt).
  { intros s. unfold bind at 1.
    destruct (startDownloads_return World sys_oracle process_env error_name Hsys Hdir
                id (manifest_version data) ("build/previous/" ++ id) 1 num previous s
                Hp) as (jobs & E & F).
    destruct (startDownloads _ _ _ _ _ _ _ _ _) as [c s1]. cbn [fst] in E. subst c.
    unfold catch, bind, Promise_all_downloads.
    rewrite (first_rejected_none jobs F).
    pose proof (settle_downloads_return World oracle sys_oracle process_env
                  error_name Hfs Hsys sched jobs s1 F) as R.
    destruct (settle_downloads _ _ _ _ _ _ _ _) as [c s2]. cbn [fst] in R. subst c.
    reflexivity. }
  destruct (oracle (ExistsSync _) w3) as [[] w4]; srun.
  - match goal with
    | |- context [oracle (RmSync ?d) w4] =>
        pose proof (Hfs (RmSync d) w4 eq_refl) as H3;
        destruct (oracle (RmSync d) w4) as [[[]|e] w5]; srun; [|discriminate H3]
    end.
    match goal with
    | |- context [oracle (MkdirpSync ?d) w5] =>
        pose proof (Hfs (MkdirpSync d) w5 eq_refl) as H4;
        destruct (oracle (MkdirpSync d) w5) as [[[]|e] w6]; srun; [|discriminate H4]
    end.
    apply Tail.
  - match goal with
    | |- context [oracle (MkdirpSync ?d) w4] =>
        pose proof (Hfs (MkdirpSync d) w4 eq_refl) as H4;
        destruct (oracle (MkdirpSync d) w4) as [[[]|e] w6]; srun; [|discriminate H4]
    end.
    apply Tail.
Qed.

Lemma fetchPreviousVersions_tolerates_missing_witness :
  fst (fetchPreviousVersions Example.World Example.oracle ExampleSys.sys_oracle
         Example.path_join Example.path_parse_name Example.process_env
         Example.base64_decode name [2; 0; 1; 1; 0; 2]%nat
         "out.crx" (Some "abc") 3 ExampleSys.start)
  = Return tt.
Proof.
  apply (fetchPreviousVersions_tolerates_missing Example.World Example.oracle
           ExampleSys.sys_oracle Example.path_join Example.path_parse_name
           Example.process_env Example.base64_decode name
           [2; 0; 1; 1; 0; 2]%nat "out.crx" (Some "abc") 3
           {| manifest_key := "AAEC"; manifest_version := "1.0.2";
              manifest_name := "Example" |}
           ["1.0.1"; "1.0.0"; "1.0.-1"] ExampleSys.start).
  - intros c w Hc. destruct c; try discriminate Hc; reflexivity.
  - intros c w e. destruct c; cbn; try discriminate.
    destruct (String.eqb _ _); [|discriminate]. intros [= <-]. split; reflexivity.
  - intros p w stats [= <-]. reflexivity.
  - intros w. reflexivity.
  - vm_compute. reflexivity.
Defined.

Lemma previous_versions_from version (pre : list string) last n count :
  String.eqb version FirstVersion = false ->
  JSString.split "." version = (pre ++ [last])%list ->
  JSNumber.StringToNumber last = Val (JSNumber.Int n) ->
  0 <= n <= JSNumber.MAX_EXACT ->
  forall d : nat,
    Z.of_nat (d + count) <= JSNumber.MAX_EXACT ->
    previous_versions version (Z.of_nat d) count
    = Val (map (fun i => JSString.join "."
                           (pre ++ [JSNumber.Z_to_string (n - Z.of_nat i)])%list)
             (seq d count)).
Proof.
  intros Hv E Hn Hb. induction count as [|count IH]; intros d Hd; [reflexivity|].
  cbn [previous_versions seq map].
  rewrite (getPreviousVersion_numeric version pre last n (Z.of_nat d) Hv E Hn)
    by lia.
  cbn [res_bind].
  replace (Z.of_nat d + 1) with (Z.of_nat (S d)) by lia.
  rewrite (IH (S d)) by lia. reflexivity.
Qed.

(** X24. The versions fetchPreviousVersions asks for do not stop at the
    first version. For a version other than 1.0.0 whose trailing segment is
    the number n, they are the versions with the trailing segments n - 1
    down to n - num, below zero when num exceeds n. *)
Theorem previous_versions_numeric :
  forall (version : string) (pre : list string) (last : string) (n : Z) (num : nat),
    String.eqb version FirstVersion = false ->
    JSString.split "." version = (pre ++ [last])%list ->
    JSNumber.StringToNumber last = Val (JSNumber.Int n) ->
    0 <= n <= JSNumber.MAX_EXACT ->
    Z.of_nat num < JSNumber.MAX_EXACT ->
    previous_versions version 1 num
    = Val (map (fun i => JSString.join "."
                           (pre ++ [JSNumber.Z_to_string (n - Z.of_nat i)])%list)
             (seq 1 num)).
Proof.
  intros version pre last n num Hv E Hn Hb Hnum.
  exact (previous_versions_from version pre last n num Hv E Hn Hb 1%nat ltac:(lia)).
Qed.

Lemma previous_versions_numeric_witness :
  previous_versions "1.0.2" 1 3 = Val ["1.0.1"; "1.0.0"; "1.0.-1"].
Proof.
  exact (previous_versions_numeric "1.0.2" ["1"; "0"] "2" 2 3
           eq_refl eq_refl eq_refl ltac:(vm_compute; split; discriminate)
           ltac:(vm_compute; reflexivity)).
Defined.

(* ================================================================== *)
(** * The record of a CRX file *)

Lemma items_put_app l1 l2 :
  items_put (l1 ++ l2) = (items_put l1 ++ items_put l2)%list.
Proof.
  induction l1 as [|ev l1 IH]; [reflexivity|].
  destruct ev as [c|c err]; simpl; try exact IH.
  destruct c; simpl; rewrite ?IH; reflexivity.
Qed.




Section LedgerProofs.

Variable World : Type.
Variable oracle : forall c : Call, World -> Reply c * World.
Variable sys_oracle : forall c : SysCall, World -> SysReply c * World.
Variable path_join : list string -> string.
Variable path_parse_name : string -> string.
Variable path_parse_ext : string -> string.

Local Abbreviation patchEntry' :=
  (patchEntry World oracle sys_oracle path_join path_parse_name path_parse_ext).
Local Abbreviation collectPatches' :=
  (collectPatches World oracle sys_oracle path_join path_parse_name path_parse_ext).
Local Abbreviation getDiffPatchList' :=
  (getDiffPatchList World oracle sys_oracle path_join path_parse_name path_parse_ext).
Local Abbreviation patch_of' := (patch_of path_join path_parse_name path_parse_ext).

(** One entry: what it holds, and that nothing is put into the table *)
Lemma patchEntry_run patchDir file st :
  let run := patchEntry' patchDir file st in
  (exists evs,
      syslog (world (snd run)) = (syslog (world st) ++ evs)%list
      /\ items_put evs = [])
  /\ match fst run with
     | Return (Some (name, info)) =>
         Namediff info = file /\ patch_of' patchDir [file] name info
     | _ => True
     end.
Proof.
  unfold patchEntry, generateSHA256HashOfFile, sys, lifted.
  destruct (String.eqb (path_parse_ext (path_join [patchDir; file])) ".puff") eqn:X;
    srun.
  2:{ split; [|exact I]. exists []. now rewrite app_nil_r. }
  apply String.eqb_eq in X.
  destruct (oracle (ReadFileSync _) (inner (world st))) as [[data|e] w]; srun.
  2:{ split; [|exact I]. exists []. now rewrite app_nil_r. }
  destruct (sys_oracle (StatSync _) w) as [[stats|e] w1]; srun.
  2:{ split; [|exact I]. eexists. split; reflexivity. }
  unfold JSNumber.of_Z. destruct (Z.abs (size stats) <=? JSNumber.MAX_EXACT); srun.
  2:{ split; [|exact I]. eexists. split; reflexivity. }
  split; [eexists; split; reflexivity|].
  split; [reflexivity|].
  unfold patch_of. cbn [Namediff Hashdiff Sizediff JSNumber.ToString].
  split; [now left|]. split; [exact X|]. split; [reflexivity|].
  unfold generateSHA256Hash.
  split; [now rewrite hex_length, digest_length|]. split; [apply hex_lower|eauto].
Qed.

Lemma patch_of_incl patchDir files files' name info :
  incl files files' -> patch_of' patchDir files name info ->
  patch_of' patchDir files' name info.
Proof. intros I (H & R). split; [now apply I|exact R]. Qed.

(** The loop never throws; the entries it adds stand for files of the
    listing; nothing is put into the table. *)
Lemma collectPatches_run patchDir all files patchList st :
  incl files all ->
  (forall name info, patchList !! name = Some info -> patch_of' patchDir all name info) ->
  let run := collectPatches' patchDir files patchList st in
  (exists evs,
      syslog (world (snd run)) = (syslog (world st) ++ evs)%list
      /\ items_put evs = [])
  /\ match fst run with
     | Return (patchList', _) =>
         forall name info,
           patchList' !! name = Some info -> patch_of' patchDir all name info
     | Throw _ => False
     | Stuck => True
     end.
Proof.
  revert patchList st. induction files as [|file files IH]; intros patchList st Hi Hp.
  - cbn. split; [|exact Hp]. exists []. now rewrite app_nil_r.
  - cbn [collectPatches]. cbv [bind catch ret].
    destruct (patchEntry_run patchDir file st) as [(evs & T & P) E].
    cbv zeta in T, E.
    assert (Hi' : incl files all) by (intros f Hf; apply Hi; now right).
    destruct (patchEntry' patchDir file st) as [[[[name info]|]|e|] s1];
      cbn [fst snd] in T, E |- *.
    + destruct E as [_ E].
      assert (Hp' : forall name0 info0,
                 <[name := info]> patchList !! name0 = Some info0 ->
                 patch_of' patchDir all name0 info0).
      { intros name0 info0 L. destruct (decide (name = name0)) as [<-|N].
        - rewrite lookup_insert_eq in L. injection L as <-.
          apply (patch_of_incl patchDir [file]); [|exact E].
          intros f [<-|[]]. apply Hi. now left.
        - rewrite lookup_insert_ne in L by exact N. now apply Hp. }
      destruct (IH (<[name := info]> patchList) s1 Hi' Hp') as [(evs' & T' & P') R].
      split; [|exact R].
      exists (evs ++ evs')%list. rewrite T', T, app_assoc, items_put_app, P, P'. auto.
    + destruct (IH patchList s1 Hi' Hp) as [(evs' & T' & P') R].
      split; [|exact R].
      exists (evs ++ evs')%list. rewrite T', T, app_assoc, items_put_app, P, P'. auto.
    + split; [eauto|exact Hp].
    + split; [eauto|exact I].
Qed.

(** getDiffPatchList as a whole, from a state where the listing of the
    patch directory is [listing] *)
Lemma getDiffPatchList_run id hash st :
  let run := getDiffPatchList' id hash st in
  (exists evs,
      syslog (world (snd run)) = (syslog (world st) ++ evs)%list
      /\ items_put evs = [])
  /\ match fst run with
     | Return patchList =>
         forall files,
           fst (oracle (ReaddirSync ("build/patches/" ++ id ++ "/" ++ hash))
                  (inner (world st))) = Ok files ->
           forall name info,
             patchList !! name = Some info ->
             patch_of' ("build/patches/" ++ id ++ "/" ++ hash) files name info
     | Throw e => has_code e "ENOENT" = false
     | Stuck => True
     end.
Proof.
  unfold getDiffPatchList, lifted. srun.
  destruct (oracle (ReaddirSync _) (inner (world st))) as [[files|e] w]; srun.
  - match goal with
    | |- context [collectPatches _ _ _ _ _ _ ?d files ∅ ?s] =>
        destruct (collectPatches_run d files files ∅ s (incl_refl files))
          as [(evs & T & P) R]
    end.
    { intros name info L. rewrite lookup_empty in L. discriminate L. }
    cbv zeta in T, R.
    destruct (collectPatches _ _ _ _ _ _ _ files ∅ _) as [[[pl [err|]]|e|] s1];
      cbn [fst snd] in T, R |- *.
    + destruct (has_code err "ENOENT") eqn:C; srun.
      * split; [eauto|]. intros files' [= <-]. exact R.
      * split; [eauto|exact C].
    + split; [eauto|]. intros files' [= <-]. exact R.
    + destruct R.
    + split; [eauto|exact I].
  - destruct (has_code e "ENOENT") eqn:C; srun.
    + split; [exists []; now rewrite app_nil_r|]. intros files [=].
    + split; [exists []; now rewrite app_nil_r|exact C].
Qed.



End LedgerProofs.

(** X25. The patch list of getDiffPatchList holds only entries for the
    [.puff] files of the listing of build/patches/<id>/<hash>: each is
    keyed by the name of the file without its extension, names the file,
    and holds a SHA-256 digest of 64 hexadecimal digits and a decimal
    size. *)
Theorem getDiffPatchList_entries :
  forall (World : Type) (oracle : forall c : Call, World -> Reply c * World)
         (sys_oracle : forall c : SysCall, World -> SysReply c * World)
         (path_join : list string -> string)
         (path_parse_name path_parse_ext : string -> string)
         (id hash : string) (files : list string) (st : State (Sys World))
         (patchList : gmap string PatchInfo) (name : string) (info : PatchInfo),
    fst (oracle (ReaddirSync ("build/patches/" ++ id ++ "/" ++ hash))
           (inner (world st))) = Ok files ->
    fst (getDiffPatchList World oracle sys_oracle path_join path_parse_name
           path_parse_ext id hash st) = Return patchList ->
    patchList !! name = Some info ->
    patch_of path_join path_parse_name path_parse_ext
      ("build/patches/" ++ id ++ "/" ++ hash) files name info.
Proof.
  intros World oracle sys_oracle path_join path_parse_name path_parse_ext id hash
    files st patchList name info Hl Hr Hn.
  destruct (getDiffPatchList_run World oracle sys_oracle path_join path_parse_name
              path_parse_ext id hash st) as [_ R].
  cbv zeta in R. rewrite Hr in R. exact (R files Hl name info Hn).
Qed.


Lemma getDiffPatchList_entries_witness :
  exists patchList info,
    fst (getDiffPatchList Example.World Example.oracle ExampleSys.sys_oracle
           Example.path_join Example.path_parse_name Example.path_parse_ext
           "abc" "h4sh" ExampleSys.start) = Return patchList
    /\ patchList !! "a" = Some info
    /\ Namediff info = "a.puff" /\ Sizediff info = "42"
    /\ patch_of Example.path_join Example.path_parse_name Example.path_parse_ext
         "build/patches/abc/h4sh" ["a.puff"; "b.puff"] "a" info.
Proof.
  do 2 eexists. split; [vm_compute; reflexivity|].
  split; [vm_compute; reflexivity|]. split; [reflexivity|]. split; [reflexivity|].
  eapply (getDiffPatchList_entries Example.World Example.oracle ExampleSys.sys_oracle
            Example.path_join Example.path_parse_name Example.path_parse_ext
            "abc" "h4sh" ["a.puff"; "b.puff"] ExampleSys.start).
  - reflexivity.
  - vm_compute. reflexivity.
  - vm_compute. reflexivity.
Defined.


(** X27. When updateDBForCRXFile is fulfilled, one item has been put into
    the table, and it is the item of updateDynamoDB for the identity given
    (or else derived from the key of the manifest), the version and the
    name of the manifest, the SHA-256 digest of the content of the CRX
    file, the content hash given and the patch list that getDiffPatchList
    returned for that identity and that digest, before anything was put,
    with Disabled false. *)
Theorem updateDBForCRXFile_record :
  forall (World : Type) (oracle : forall c : Call, World -> Reply c * World)
         (sys_oracle : forall c : SysCall, World -> SysReply c * World)
         (path_join : list string -> string)
         (path_parse_name path_parse_ext : string -> string)
         (base64_decode : string -> list Byte.byte)
         (crxFile : string) (componentId contentHash : option string)
         (data : Manifest) (content : list Byte.byte) (st : State (Sys World)),
    (forall w,
        fst (oracle (ReadManifest
                       (path_join [path_join ["build"; "unzip"; path_parse_name crxFile];
                                   "manifest.json"])) w)
        = Ok data) ->
    (forall w, fst (oracle (ReadFileSync crxFile) w) = Ok content) ->
    let run := updateDBForCRXFile World oracle sys_oracle path_join path_parse_name
                 path_parse_ext base64_decode crxFile componentId contentHash st in
    let id := or_else componentId
                (getIDFromBase64PublicKey base64_decode (manifest_key data)) in
    let hash := generateSHA256Hash content in
    fst run = Return tt ->
    exists patchList s,
      fst (getDiffPatchList World oracle sys_oracle path_join path_parse_name
             path_parse_ext id hash s) = Return patchList
      /\ syslog (world s) = syslog (world st)
      /\ items_put (syslog (world (snd run)))
         = (items_put (syslog (world st))
            ++ [{| ID := id; SHA256 := hash; Version := manifest_version data;
                   Title := manifest_name data; Disabled := false;
                   ContentHash :=
                     option_map (fun h => {| S_ := Some h |}) contentHash;
                   PatchList := patchList |}])%list
      /\ forall table,
           PutItem table
             {| ID := id; SHA256 := hash; Version := manifest_version data;
                Title := manifest_name data; Disabled := false;
                ContentHash := option_map (fun h => {| S_ := Some h |}) contentHash;
                PatchList := patchList |}
           = updateDynamoDB table id (manifest_version data) hash
               (manifest_name data) false contentHash patchList.
Proof.
  intros World oracle sys_oracle path_join path_parse_name path_parse_ext
    base64_decode crxFile componentId contentHash data content st Hm Hc run id hash.
  unfold run, updateDBForCRXFile, parseManifest, generateSHA256HashOfFile, lifted.
  srun.
  destruct (oracle (MkdirpSync _) (inner (world st))) as [[[]|e] w1]; srun;
    [|discriminate].
  destruct (oracle (Unzip _ _) w1) as [[[]|e] w2]; srun; [|discriminate].
  pose proof (Hm w2) as Hd.
  destruct (oracle (ReadManifest _) w2) as [r w3]. cbn [fst] in Hd. subst r. srun.
  fold id.
  pose proof (Hc w3) as Hb.
  destruct (oracle (ReadFileSync crxFile) w3) as [r w4]. cbn [fst] in Hb. subst r.
  srun. fold hash.
  match goal with
  | |- context [getDiffPatchList _ _ _ _ _ _ id hash ?s] =>
      set (s0 := s);
      destruct (getDiffPatchList_run World oracle sys_oracle path_join
                  path_parse_name path_parse_ext id hash s0) as [(evs & T & P) _]
  end.
  cbv zeta in T.
  destruct (getDiffPatchList _ _ _ _ _ _ id hash s0) as [[patchList|e|] s1] eqn:G;
    cbn [fst snd] in T |- *; try discriminate.
  cbn [world syslog] in T.
  unfold sys_await, sys_issue, sys. srun.
  match goal with
  | |- context [sys_oracle (PutItemSend ?i) ?w0] =>
      destruct (sys_oracle (PutItemSend i) w0) as [[[]|e] w5]; srun;
      [|discriminate]; intros _
  end.
  exists patchList, s0. split; [now rewrite G|]. split; [reflexivity|].
  split; [|reflexivity].
  rewrite <- app_assoc, T, <- app_assoc, !items_put_app, P. reflexivity.
Qed.

Lemma updateDBForCRXFile_record_witness :
  let run := updateDBForCRXFile Example.World Example.oracle ExampleSys.sys_oracle
               Example.path_join Example.path_parse_name Example.path_parse_ext
               Example.base64_decode "out.crx" (Some "abc") (Some "H1")
               ExampleSys.start in
  exists patchList,
    items_put (syslog (world (snd run)))
    = [{| ID := "abc";
          SHA256 := "3658f25c9bafbf143a2dbd5d503fd027f96463ad3409ebd1781275a63408175f";
          Version := "1.0.2"; Title := "Example"; Disabled := false;
          ContentHash := Some {| S_ := Some "H1" |};
          PatchList := patchList |}]
    /\ exists s,
         fst (getDiffPatchList Example.World Example.oracle ExampleSys.sys_oracle
                Example.path_join Example.path_parse_name Example.path_parse_ext
                "abc" "3658f25c9bafbf143a2dbd5d503fd027f96463ad3409ebd1781275a63408175f"
                s) = Return patchList.
Proof.
  cbv zeta.
  destruct (updateDBForCRXFile_record Example.World Example.oracle
              ExampleSys.sys_oracle Example.path_join Example.path_parse_name
              Example.path_parse_ext Example.base64_decode "out.crx" (Some "abc")
              (Some "H1")
              {| manifest_key := "AAEC"; manifest_version := "1.0.2";
                 manifest_name := "Example" |}
              (list_byte_of_string "crx")
              ExampleSys.start (fun w => eq_refl) (fun w => eq_refl)
              ltac:(vm_compute; reflexivity))
    as (patchList & s & Hlist & _ & Hput & _).
  exists patchList. split; [exact Hput|]. exists s. exact Hlist.
Defined.

(* ================================================================== *)
(** * Where the previous versions are stored *)


Section StoreProofs.

Variable World : Type.
Variable oracle : forall c : Call, World -> Reply c * World.
Variable sys_oracle : forall c : SysCall, World -> SysReply c * World.
Variable process_env : string -> option string.
Variable error_name : Error -> string.
Variable dir : string.

Local Abbreviation M' := (M (Sys World)).
Local Abbreviation bucket := (S3_EXTENSIONS_BUCKET process_env).
Local Abbreviation download_step' :=
  (download_step World oracle sys_oracle process_env error_name).
Local Abbreviation settle_downloads' :=
  (settle_downloads World oracle sys_oracle process_env error_name).
Local Abbreviation startDownloads' :=
  (startDownloads World sys_oracle process_env).






End StoreProofs.



(* ================================================================== *)
(** * Publishing a CRX file *)

(** X29. When uploadExtension is fulfilled, the first object it has put is
    the new one, release/<id>/extension_<version>.crx, and the tagging
    commands it has sent are the one on the new object, with the latest
    marker, alone or followed by the one on the object of the previous
    version. *)
Theorem uploadExtension_fulfilled :
  forall (World : Type) (oracle : forall c : Call, World -> Reply c * World)
         (path_join : list string -> string) (path_parse_ext : string -> string)
         (process_env : string -> option string)
         (sched : list nat) (name id version hash crxFile : string) (w : World),
    let run := uploadExtension World oracle path_join path_parse_ext process_env
                 sched name id version hash crxFile (init w) in
    fst run = Return tt ->
    exists previousVersion,
      getPreviousVersion version 1 = Val previousVersion
      /\ (exists rest,
             puts_sent (trace (snd run))
             = ("release/" ++ id ++ "/" ++ "extension_"
                  ++ dots_to_underscores version ++ ".crx") :: rest)
      /\ (tag_writes (trace (snd run)) = [newObjectTagging process_env name id version]
          \/ tag_writes (trace (snd run))
             = [newObjectTagging process_env name id version;
                previousObjectTagging process_env name id previousVersion]).
Proof.
  intros World oracle path_join path_parse_ext process_env sched name id version
    hash crxFile w run Hr.
  destruct (uploadExtension_retag World oracle path_join path_parse_ext process_env
              sched name id version hash crxFile (init w)) as (evs & T & P).
  fold run in T, P. cbn [init trace app] in T. rewrite T.
  destruct (getPreviousVersion version 1) as [previousVersion|].
  2:{ destruct P as [P _]. rewrite Hr in P. discriminate P. }
  destruct P as (_ & _ & P). exists previousVersion. split; [reflexivity|].
  exact (P Hr).
Qed.

Lemma uploadExtension_fulfilled_witness :
  let run := uploadExtension Example.World (Variant.oracle Variant.PreviousExists) Example.path_join
               Example.path_parse_ext Example.process_env [1; 0; 1]%nat
               "Example Name" "abc" "1.0.1" "h4sh" "out.crx" (Example.start false) in
  puts_sent (trace (snd run))
  = ["release/abc/extension_1_0_1.crx"; "release/abc/patches/h4sh/b.puff";
     "release/abc/patches/h4sh/a.puff"]
  /\ exists previousVersion,
       getPreviousVersion "1.0.1" 1 = Val previousVersion
       /\ (exists rest,
              puts_sent (trace (snd run)) = "release/abc/extension_1_0_1.crx" :: rest)
       /\ (tag_writes (trace (snd run))
           = [newObjectTagging Example.process_env "Example Name" "abc" "1.0.1"]
           \/ tag_writes (trace (snd run))
              = [newObjectTagging Example.process_env "Example Name" "abc" "1.0.1";
                 previousObjectTagging Example.process_env "Example Name" "abc"
                   previousVersion]).
Proof.
  split; [vm_compute; reflexivity|].
  exact (uploadExtension_fulfilled Example.World (Variant.oracle Variant.PreviousExists) Example.path_join
           Example.path_parse_ext Example.process_env [1; 0; 1]%nat
           "Example Name" "abc" "1.0.1" "h4sh" "out.crx"
           {| Example.calls := 0; Example.rejects_patches := false |}
           ltac:(vm_compute; reflexivity)).
Defined.

(** X30. When uploadCRXFile is fulfilled, the CRX file has been published
    under the identity given (or else derived from the key of its
    manifest) and the version and name of its manifest: the first object
    put is release/<id>/extension_<version>.crx, it is tagged as the
    latest version, and the last line logged is Uploaded <crxFile>. *)
Theorem uploadCRXFile_fulfilled :
  forall (World : Type) (oracle : forall c : Call, World -> Reply c * World)
         (path_join : list string -> string)
         (path_parse_name path_parse_ext : string -> string)
         (process_env : string -> option string)
         (base64_decode : string -> list Byte.byte)
         (sched : list nat) (crxFile : string) (componentId : option string)
         (data : Manifest) (st : State World),
    (forall w,
        fst (oracle (ReadManifest
                       (path_join [path_join ["build"; "unzip"; path_parse_name crxFile];
                                   "manifest.json"])) w)
        = Ok data) ->
    let run := uploadCRXFile World oracle path_join path_parse_name path_parse_ext
                 process_env base64_decode sched crxFile componentId st in
    let id := or_else componentId
                (getIDFromBase64PublicKey base64_decode (manifest_key data)) in
    fst run = Return tt ->
    exists evs,
      trace (snd run)
      = (trace st ++ evs ++ [ConsoleLog [LStr ("Uploaded " ++ crxFile)]])%list
      /\ (exists rest,
             puts_sent evs
             = ("release/" ++ id ++ "/" ++ "extension_"
                  ++ dots_to_underscores (manifest_version data) ++ ".crx") :: rest)
      /\ exists rest,
           tag_writes evs
           = newObjectTagging process_env (manifest_name data) id
               (manifest_version data) :: rest.
Proof.
  intros World oracle path_join path_parse_name path_parse_ext process_env
    base64_decode sched crxFile componentId data st Hm run id.
  unfold run, uploadCRXFile, parseManifest, generateSHA256HashOfFile. mrun.
  destruct (oracle (MkdirpSync _) (world st)) as [[[]|e] w1]; mrun; [|discriminate].
  destruct (oracle (Unzip _ _) w1) as [[[]|e] w2]; mrun; [|discriminate].
  pose proof (Hm w2) as Hd.
  destruct (oracle (ReadManifest _) w2) as [r w3]. cbn [fst] in Hd. subst r. mrun.
  fold id.
  destruct (oracle (ReadFileSync crxFile) w3) as [[bytes|e] w4]; mrun; [|discriminate].
  match goal with
  | |- context [uploadExtension _ _ _ _ _ _ ?n id ?v ?h _ ?s] =>
      destruct (uploadExtension_retag World oracle path_join path_parse_ext
                  process_env sched n id v h crxFile s) as (evs & T & P)
  end.
  destruct (uploadExtension _ _ _ _ _ _ _ id _ _ _ _) as [[[]|e|] s1];
    cbn [fst snd trace] in T, P |- *; [|intros Hx; discriminate Hx..].
  intros _.
  destruct (getPreviousVersion (manifest_version data) 1) as [previousVersion|].
  2:{ destruct P as [P _]. discriminate P. }
  destruct P as (_ & _ & P). destruct (P eq_refl) as [(rest & Pp) Pt].
  match type of T with
  | _ = ((((((_ ++ [?e1]) ++ [?e2]) ++ [?e3]) ++ [?e4]) ++ [?e5]) ++ _)%list =>
      exists ([e1; e2; e3; e4; e5] ++ evs)%list
  end.
  split.
  { rewrite T. rewrite <- !app_assoc. reflexivity. }
  rewrite puts_sent_app, tag_writes_app.
  cbn [puts_sent tag_writes app].
  split.
  - exists rest. exact Pp.
  - destruct Pt as [-> | ->]; eexists; reflexivity.
Qed.

Lemma uploadCRXFile_fulfilled_witness :
  let run := uploadCRXFile Example.World (Variant.oracle Variant.PreviousExists) Example.path_join
               Example.path_parse_name Example.path_parse_ext Example.process_env
               Example.base64_decode [1; 0; 1]%nat "out.crx" (Some "abc")
               (Example.start false) in
  exists evs,
    trace (snd run)
    = (trace (Example.start false) ++ evs
       ++ [ConsoleLog [LStr "Uploaded out.crx"]])%list
    /\ (exists rest, puts_sent evs = "release/abc/extension_1_0_2.crx" :: rest)
    /\ exists rest,
         tag_writes evs
         = PutObjectTaggingCommand "brave-core-ext" "release/abc/extension_1_0_2.crx"
             [("Example", "1.0.2"); ("version", "Example/latest")] :: rest.
Proof.
  exact (uploadCRXFile_fulfilled Example.World (Variant.oracle Variant.PreviousExists) Example.path_join
           Example.path_parse_name Example.path_parse_ext Example.process_env
           Example.base64_decode [1; 0; 1]%nat "out.crx" (Some "abc")
           {| manifest_key := "AAEC"; manifest_version := "1.0.2";
              manifest_name := "Example" |}
           (Example.start false) (fun w => eq_refl) ltac:(vm_compute; reflexivity)).
Defined.

